(** * botfuturosbinance: order sizing, signal detection and the order lifecycle

    A shallow embedding of [FuturesBot] (src/botfuturosbinance.py).

    - Python [float] is IEEE 754 binary64.  A float is modelled by its exact
      rational value (or an infinity, or NaN), and every arithmetic operation
      rounds the exact result to the nearest binary64 value, ties to even
      ([rnd]).  The sign of zero is not represented: Python's [==], [<] and
      [<=] do not observe it.
    - Python exceptions are values of [exn]; a computation returns
      [Ok v] or [Raise e].
    - The Binance client, pandas' [ewm] and [math.log] are external to the
      repository; they are interfaces ([Exchange], [PyLibs]) over which the
      bot is parametrised.
    - The methods of [FuturesBot] are state-passing functions: the state
      carries the exchange session, the rows appended to the CSV log and a
      journal of the calls made on the client.
    - Writing a row of the log and pausing are taken to succeed: an I/O
      error inside [log] and an interrupt during [time.sleep] are not
      represented.
    - The answers of the exchange are typed records, the numbers already
      converted: an answer with a missing key, or with text that is no
      number, on which the Python code would raise, is not represented. *)

From Stdlib Require Import ZArith QArith Qround Qabs Qpower Qreduction.
From Stdlib Require Import List String Bool Lia Lqa.
From Stdlib Require SpecFloat.
Import ListNotations.

Open Scope Q_scope.

(** ** Binary64 rounding *)

Module Binary64.

Definition emin : Z := -1074.
Definition emax : Z := 1024.

Definition pow2 (e : Z) : Q := (2 # 1) ^ e.

(** Nearest integer, ties to the even one. *)
Definition round_half_even (y : Q) : Z :=
  let f := Qfloor y in
  match Qcompare (y - inject_Z f) (1 # 2) with
  | Lt => f
  | Gt => (f + 1)%Z
  | Eq => if Z.even f then f else (f + 1)%Z
  end.

(** [log2_floor x] is the integer [k] with [2^k <= x < 2^(k+1)], for [0 < x]. *)
Definition log2_floor (x : Q) : Z :=
  let k := (Z.log2 (Qnum x) - Z.log2 (Zpos (Qden x)))%Z in
  if Qle_bool (pow2 k) x then k else (k - 1)%Z.

(** Exponent of the last place of the 53-bit significand of [x]
    (bounded below: subnormal numbers share the exponent [emin]). *)
Definition ulp_exp (x : Q) : Z := Z.max (log2_floor (Qabs x) - 52) emin.

Inductive float : Type :=
| Finite (q : Q)
| PosInf
| NegInf
| NaN.

(** Rounding with an unbounded exponent range: the nearest multiple of the
    last place, ties to the even significand. *)
Definition round_unbounded (x : Q) : Q :=
  inject_Z (round_half_even (x / pow2 (ulp_exp x))) * pow2 (ulp_exp x).

(** Values of magnitude [2^emax] or more overflow to an infinity. *)
Definition overflow (v : Q) : float :=
  if Qle_bool (pow2 emax) v then PosInf
  else if Qle_bool v (- pow2 emax) then NegInf
  else Finite (Qred v).

(** Round to nearest, ties to even. *)
Definition rnd (x : Q) : float :=
  if Qeq_bool x 0 then Finite 0 else overflow (round_unbounded x).

(** The binary64 values are the fixed points of [rnd]. *)
Definition representable (x : float) : Prop :=
  match x with
  | Finite a => rnd a = Finite a
  | _ => True
  end.

(** A decimal literal [n/d] as Python reads it. *)
Definition lit (n : Z) (d : positive) : float := rnd (n # d).

(** *** Comparisons (any comparison with NaN is false, [!=] is true) *)

Definition fcompare (x y : float) : option comparison :=
  match x, y with
  | NaN, _ | _, NaN => None
  | Finite a, Finite b => Some (Qcompare a b)
  | NegInf, NegInf | PosInf, PosInf => Some Eq
  | NegInf, _ | _, PosInf => Some Lt
  | PosInf, _ | _, NegInf => Some Gt
  end.

Definition fltb (x y : float) : bool :=
  match fcompare x y with Some Lt => true | _ => false end.
Definition fleb (x y : float) : bool :=
  match fcompare x y with Some Lt | Some Eq => true | _ => false end.
Definition feqb (x y : float) : bool :=
  match fcompare x y with Some Eq => true | _ => false end.
Definition fgtb (x y : float) : bool := fltb y x.
Definition fgeb (x y : float) : bool := fleb y x.
Definition fneb (x y : float) : bool := negb (feqb x y).

Definition zero : float := Finite 0.

Definition is_finite (x : float) : bool :=
  match x with Finite _ => true | _ => false end.

(** *** Arithmetic *)

Definition inf_of_sign (c : comparison) : float :=
  match c with Gt => PosInf | Lt => NegInf | Eq => NaN end.

Definition fneg (x : float) : float :=
  match x with
  | Finite a => Finite (Qred (- a))
  | PosInf => NegInf
  | NegInf => PosInf
  | NaN => NaN
  end.

Definition fabs (x : float) : float :=
  match x with
  | Finite a => Finite (Qred (Qabs a))
  | PosInf | NegInf => PosInf
  | NaN => NaN
  end.

Definition fmul (x y : float) : float :=
  match x, y with
  | NaN, _ | _, NaN => NaN
  | Finite a, Finite b => rnd (a * b)
  | Finite a, PosInf | PosInf, Finite a => inf_of_sign (Qcompare a 0)
  | Finite a, NegInf | NegInf, Finite a => inf_of_sign (Qcompare 0 a)
  | PosInf, PosInf | NegInf, NegInf => PosInf
  | PosInf, NegInf | NegInf, PosInf => NegInf
  end.

Definition fadd (x y : float) : float :=
  match x, y with
  | NaN, _ | _, NaN => NaN
  | Finite a, Finite b => rnd (a + b)
  | PosInf, NegInf | NegInf, PosInf => NaN
  | PosInf, _ | _, PosInf => PosInf
  | NegInf, _ | _, NegInf => NegInf
  end.

Definition fsub (x y : float) : float :=
  match x, y with
  | NaN, _ | _, NaN => NaN
  | Finite a, Finite b => rnd (a - b)
  | PosInf, PosInf | NegInf, NegInf => NaN
  | PosInf, _ | _, NegInf => PosInf
  | NegInf, _ | _, PosInf => NegInf
  end.

End Binary64.

(** ** The Python runtime: exceptions and the float operations that raise *)

Module Py.
Import Binary64.

Inductive exn : Type :=
| BinanceAPIException (msg : string)
| ZeroDivisionError
| OverflowError
| ValueError
| TypeError
| OtherException (msg : string).

Inductive result (A : Type) : Type :=
| Ok (a : A)
| Raise (e : exn).
Arguments Ok {A} a.
Arguments Raise {A} e.

Definition is_api_exception (e : exn) : bool :=
  match e with BinanceAPIException _ => true | _ => false end.

(** [x / y]: Python raises on a zero divisor before anything else. *)
Definition fdiv (x y : float) : result float :=
  match y with
  | Finite b =>
      if Qeq_bool b 0 then Raise ZeroDivisionError
      else match x with
           | Finite a => Ok (rnd (a / b))
           | PosInf => Ok (inf_of_sign (Qcompare b 0))
           | NegInf => Ok (inf_of_sign (Qcompare 0 b))
           | NaN => Ok NaN
           end
  | NaN => Ok NaN
  | PosInf | NegInf =>
      match x with Finite _ => Ok zero | _ => Ok NaN end
  end.

(** [float(k)] for an [int]: correctly rounded, [OverflowError] when too large. *)
Definition of_int (k : Z) : result float :=
  match rnd (inject_Z k) with
  | Finite v => Ok (Finite v)
  | _ => Raise OverflowError
  end.

(** [x * k] and [k * x] with [k] an [int]. *)
Definition float_mul_int (x : float) (k : Z) : result float :=
  match of_int k with
  | Ok f => Ok (fmul x f)
  | Raise e => Raise e
  end.

Definition int_mul_float (k : Z) (x : float) : result float :=
  match of_int k with
  | Ok f => Ok (fmul f x)
  | Raise e => Raise e
  end.

(** [math.floor(x)] *)
Definition math_floor (x : float) : result Z :=
  match x with
  | Finite a => Ok (Qfloor a)
  | PosInf | NegInf => Raise OverflowError
  | NaN => Raise ValueError
  end.

(** [int(x)]: truncation toward zero. *)
Definition Qtrunc (a : Q) : Z := if Qle_bool 0 a then Qfloor a else Qceiling a.

Definition int_of_float (x : float) : result Z :=
  match x with
  | Finite a => Ok (Qtrunc a)
  | PosInf | NegInf => Raise OverflowError
  | NaN => Raise ValueError
  end.

(** [round(x, ndigits)]: the float nearest to the decimal with [ndigits]
    places nearest to [x] (ties to even); non-finite values and the extreme
    [ndigits] are special cases, as in CPython's [float.__round__]. *)
Definition NDIGITS_MAX : Z := 323.
Definition NDIGITS_MIN : Z := -308.

Definition pow10 (n : Z) : Q := (10 # 1) ^ n.

Definition round_decimal (a : Q) (ndigits : Z) : Q :=
  inject_Z (round_half_even (a * pow10 ndigits)) / pow10 ndigits.

Definition py_round (x : float) (ndigits : Z) : result float :=
  match x with
  | Finite a =>
      if (NDIGITS_MAX <? ndigits)%Z then Ok x
      else if (ndigits <? NDIGITS_MIN)%Z then Ok zero
      else match rnd (round_decimal a ndigits) with
           | Finite v => Ok (Finite v)
           | _ => Raise OverflowError
           end
  | _ => Ok x
  end.

End Py.

(** ** Data exchanged with the Binance client *)

Module Data.
Import Binary64 Py.

Inductive signal : Type := LONG | SHORT.

Inductive side : Type := SIDE_BUY | SIDE_SELL.

(** One kline row of the DataFrame; the numeric columns after [pd.to_numeric]. *)
Record candle : Type := {
  open_time : Z;
  open_ : float;
  high : float;
  low : float;
  close : float
}.

(** A DataFrame row once [calculate_ema] has added its two columns. *)
Record row : Type := {
  kline : candle;
  ema_fast : float;
  ema_slow : float
}.

(** An entry of [futures_account_balance()]; [availableBalance] is the value
    of [float(asset['availableBalance'])]. *)
Record asset_balance : Type := {
  asset : string;
  availableBalance : float
}.

(** A filter of the symbol information; [stepSize] is [float(f['stepSize'])]. *)
Record symbol_filter : Type := {
  filterType : string;
  stepSize : float
}.

(** [quantityPrecision] is [None] when the key is absent or the value null. *)
Record symbol_info : Type := {
  quantityPrecision : option Z;
  filters : list symbol_filter
}.

Record position : Type := {
  p_symbol : string;
  positionAmt : float
}.

(** An order as the exchange reports it. *)
Record order : Type := {
  o_type : string;
  orderId : Z;
  o_side : side
}.

(** The keyword arguments of [futures_create_order]. *)
Record order_request : Type := {
  rq_symbol : string;
  rq_side : side;
  rq_type : string;
  rq_quantity : float;
  rq_callbackRate : option float;
  rq_timeInForce : option string;
  rq_reduceOnly : bool
}.

(** The calls the bot makes on its client (and [time.sleep]). *)
Inductive call : Type :=
| CallClient (api_key api_secret : string)
| CallChangeLeverage (symbol : string) (leverage : Z)
| CallKlines (symbol interval : string) (limit : Z)
| CallAccountBalance
| CallSymbolInfo (symbol : string)
| CallCreateOrder (rq : order_request)
| CallOpenOrders (symbol : string)
| CallCancelOrder (symbol : string) (id : Z)
| CallPositionInformation (symbol : string)
| Sleep (seconds : Z).

(** The [details] column of a log row: the text of the f-string with the
    values it interpolates. *)
Inductive piece : Type :=
| Text (s : string)
| Num (x : float)
| Int (k : Z)
| OptInt (k : option Z)
| Sig (s : signal)
| Err (e : exn).

Record log_row : Type := {
  event : string;
  details : list piece
}.

(** The exchange session behind [self.client]: every call may change the
    session state and either returns or raises. *)
Class Exchange (W : Type) : Type := {
  Client : string -> string -> W -> result unit * W;
  futures_change_leverage : string -> Z -> W -> result unit * W;
  futures_klines : string -> string -> Z -> W -> result (list candle) * W;
  futures_account_balance : W -> result (list asset_balance) * W;
  get_symbol_info : string -> W -> result (option symbol_info) * W;
  futures_create_order : order_request -> W -> result order * W;
  futures_get_open_orders : string -> W -> result (list order) * W;
  futures_cancel_order : string -> Z -> W -> result unit * W;
  futures_position_information : string -> W -> result (list position) * W
}.

(** Library functions used by the bot: [Series.ewm(span, adjust=False).mean()]
    and [math.log(x, base)]. *)
Class PyLibs : Type := {
  ewm_mean : Z -> list float -> list float;
  math_log : float -> float -> result float
}.

(** The attributes set by [FuturesBot.__init__]. *)
Record FuturesBot : Type := {
  api_key : string;
  api_secret : string;
  symbol : string;
  leverage : Z;
  base_capital_pct : float;
  fast_ema_period : Z;
  slow_ema_period : Z;
  interval : string
}.

End Data.

(** ** State and exceptions *)

Module Monad.
Import Py Data.

Record state (W : Type) : Type := {
  session : W;
  journal : list call;
  csv : list log_row
}.
Arguments session {W} s.
Arguments journal {W} s.
Arguments csv {W} s.
Arguments Build_state {W} _ _ _.

Definition M (W A : Type) : Type := state W -> result A * state W.

Definition ret {W A} (a : A) : M W A := fun s => (Ok a, s).

Definition bind {W A B} (m : M W A) (k : A -> M W B) : M W B :=
  fun s => match m s with
           | (Ok a, s') => k a s'
           | (Raise e, s') => (Raise e, s')
           end.

Definition lift {W A} (r : result A) : M W A := fun s => (r, s).

(** [try: m  except Exception as e: h e] *)
Definition try_except {W A} (m : M W A) (h : exn -> M W A) : M W A :=
  fun s => match m s with
           | (Ok a, s') => (Ok a, s')
           | (Raise e, s') => h e s'
           end.

(** [try: m  except BinanceAPIException as e: h e] *)
Definition try_except_api {W A} (m : M W A) (h : exn -> M W A) : M W A :=
  fun s => match m s with
           | (Ok a, s') => (Ok a, s')
           | (Raise e, s') =>
               if is_api_exception e then h e s' else (Raise e, s')
           end.

(** A call on the client: recorded in the journal, run on the session. *)
Definition invoke {W A} (c : call) (f : W -> result A * W) : M W A :=
  fun s => let (r, w) := f (session s) in
           (r, Build_state w (journal s ++ [c]) (csv s)).

Definition sleep {W} (seconds : Z) : M W unit :=
  fun s => (Ok tt, Build_state (session s) (journal s ++ [Sleep seconds]) (csv s)).

(** [self.log(event, details)] appends one row to the CSV file and prints
    it.  The row is taken as written: an error of the file system or of the
    console, which [log] does not handle and which would leave the calling
    method as an exception, is not represented.  Every statement about the
    rows, and about a method that returns after logging, is a statement
    about the runs in which the rows could be written. *)
Definition log {W} (ev : string) (d : list piece) : M W unit :=
  fun s => (Ok tt, Build_state (session s) (journal s)
                     (csv s ++ [Build_log_row ev d])).

End Monad.

Declare Scope bot_scope.
Delimit Scope bot_scope with bot.
Notation "x <- m ;; k" := (Monad.bind m (fun x => k))
  (at level 61, m at next level, right associativity) : bot_scope.
Notation "m ;;; k" := (Monad.bind m (fun _ => k))
  (at level 61, right associativity) : bot_scope.

(** ** The methods of [FuturesBot] *)

Module Bot.
Import Binary64 Py Data Monad.
Local Open Scope string_scope.
Local Open Scope bot_scope.

Section Methods.

Context {W : Type} {exchange : Exchange W} {libs : PyLibs}.
Variable self : FuturesBot.

Local Abbreviation M := (Monad.M W).

(** [set_leverage] *)
Definition set_leverage : M unit :=
  try_except_api
    (_ <- invoke (CallChangeLeverage (symbol self) (leverage self))
            (futures_change_leverage (symbol self) (leverage self)) ;;
     log "Leverage set" [Text "Apalancamiento configurado a "; Int (leverage self)])
    (fun e => log "Error setting leverage" [Err e]).

(** [get_klines]: the DataFrame, or [None] after any exception. *)
Definition get_klines (limit : Z) : M (option (list candle)) :=
  try_except
    (klines <- invoke (CallKlines (symbol self) (interval self) limit)
                 (futures_klines (symbol self) (interval self) limit) ;;
     ret (Some klines))
    (fun e => log "Error fetching klines" [Err e] ;;; ret None).

(** [calculate_ema]: the two [ewm] columns are added to every row. *)
Definition calculate_ema (df : list candle) : list row :=
  let closes := map close df in
  let fast := ewm_mean (fast_ema_period self) closes in
  let slow := ewm_mean (slow_ema_period self) closes in
  map (fun '(c, (f, s)) => Build_row c f s) (combine df (combine fast slow)).

(** [determine_signal]: [df.iloc[-1]] and [df.iloc[-2]] are the first two
    rows of the reversed frame; fewer than two rows give [None]. *)
Definition determine_signal (df : list row) : option signal :=
  match rev df with
  | last_row :: prev_row :: _ =>
      let prev_diff := fsub (ema_fast prev_row) (ema_slow prev_row) in
      let current_diff := fsub (ema_fast last_row) (ema_slow last_row) in
      if fleb prev_diff zero && fgtb current_diff zero then Some LONG
      else if fgeb prev_diff zero && fltb current_diff zero then Some SHORT
      else None
  | _ => None
  end.

(** [get_available_balance] *)
Definition get_available_balance : M float :=
  try_except
    (balance_data <- invoke CallAccountBalance futures_account_balance ;;
     match find (fun a => asset a =? "USDT") balance_data with
     | Some a => ret (availableBalance a)
     | None => ret zero
     end)
    (fun e => log "Error fetching balance" [Err e] ;;; ret zero).

(** The first [LOT_SIZE] filter gives the step size. *)
Definition lot_step_size (info : symbol_info) : option float :=
  match find (fun f => filterType f =? "LOT_SIZE") (filters info) with
  | Some f => Some (stepSize f)
  | None => None
  end.

(** Lines 136-141: the symbol's [quantityPrecision], forced to 2 for
    SOLUSDT when the exchange gives none. *)
Definition symbol_precision (info : symbol_info) : option Z :=
  match quantityPrecision info with
  | Some p => Some p
  | None => if symbol self =? "SOLUSDT" then Some 2%Z else None
  end.

(** Lines 153-158: floor to the step size, then round. *)
Definition floor_to_step (quantity step_size : float)
    (quantity_precision : option Z) : result float :=
  match fdiv quantity step_size with
  | Raise e => Raise e
  | Ok ratio =>
  match math_floor ratio with
  | Raise e => Raise e
  | Ok k =>
  match int_mul_float k step_size with
  | Raise e => Raise e
  | Ok rounded_quantity =>
  match quantity_precision with
  | Some p => py_round rounded_quantity p
  | None =>
      match math_log step_size (lit 10 1) with
      | Raise e => Raise e
      | Ok l =>
      match py_round (fneg l) 0 with
      | Raise e => Raise e
      | Ok r =>
      match int_of_float r with
      | Raise e => Raise e
      | Ok precision => py_round rounded_quantity precision
      end end end
  end end end end.

(** [round_quantity] *)
Definition round_quantity (quantity : float) : M float :=
  try_except
    (symbol_info <- invoke (CallSymbolInfo (symbol self))
                      (get_symbol_info (symbol self)) ;;
     match symbol_info with
     | None => lift (Raise TypeError)
     | Some info =>
         let quantity_precision := symbol_precision info in
         match lot_step_size info with
         | None =>
             rounded <- lift (py_round quantity
                                (match quantity_precision with
                                 | Some p => p
                                 | None => 3%Z
                                 end)) ;;
             log "round_quantity"
                 [Text "Step size no encontrado; usando "; Num rounded] ;;;
             ret rounded
         | Some step_size =>
             final_quantity <-
               lift (floor_to_step quantity step_size quantity_precision) ;;
             log "round_quantity"
                 [Text "quantity: "; Num quantity;
                  Text ", step_size: "; Num step_size;
                  Text ", quantity_precision: "; OptInt quantity_precision;
                  Text ", final_quantity: "; Num final_quantity] ;;;
             ret final_quantity
         end
     end)
    (fun e => log "Error rounding quantity" [Err e] ;;;
              lift (py_round quantity 3)).

(** [calculate_order_quantity] *)
Definition calculate_order_quantity (entry_price : float) : M float :=
  balance <- get_available_balance ;;
  let capital_to_use := fmul balance (base_capital_pct self) in
  exposure <- lift (float_mul_int capital_to_use (leverage self)) ;;
  quantity <- lift (fdiv exposure entry_price) ;;
  round_quantity quantity.

Definition entry_side (sg : signal) : side :=
  match sg with LONG => SIDE_BUY | SHORT => SIDE_SELL end.

Definition exit_side (sg : signal) : side :=
  match sg with LONG => SIDE_SELL | SHORT => SIDE_BUY end.

Definition market_request (sg : signal) (quantity : float) : order_request :=
  {| rq_symbol := symbol self; rq_side := entry_side sg; rq_type := "MARKET";
     rq_quantity := quantity; rq_callbackRate := None;
     rq_timeInForce := None; rq_reduceOnly := false |}.

Definition trailing_request (sg : signal) (quantity callback : float)
    : order_request :=
  {| rq_symbol := symbol self; rq_side := exit_side sg;
     rq_type := "TRAILING_STOP_MARKET";
     rq_quantity := quantity; rq_callbackRate := Some callback;
     rq_timeInForce := Some "GTC"; rq_reduceOnly := true |}.

(** [place_order] *)
Definition place_order (sg : signal) (entry_price : float) : M (option order) :=
  quantity <- calculate_order_quantity entry_price ;;
  let rq := market_request sg quantity in
  try_except_api
    (order <- invoke (CallCreateOrder rq) (futures_create_order rq) ;;
     log "Order placed"
         [Text "Señal: "; Sig sg; Text ", Cantidad: "; Num quantity;
          Text ", Precio de entrada: "; Num entry_price] ;;;
     ret (Some order))
    (fun e => log "Error placing order" [Err e] ;;; ret None).

(** [place_trailing_stop] *)
Definition place_trailing_stop (sg : signal) (quantity : float)
    : M (option order) :=
  quantity <- round_quantity quantity ;;
  let first := trailing_request sg quantity (lit 1 1) in
  let second := trailing_request sg quantity (lit 5 10) in
  try_except_api
    (order <- invoke (CallCreateOrder first) (futures_create_order first) ;;
     log "Trailing stop placed"
         [Text "Callback Rate: 1.00%, Cantidad: "; Num quantity] ;;;
     ret (Some order))
    (fun e =>
       log "Error placing trailing stop" [Err e] ;;;
       try_except_api
         (log "Retrying trailing stop"
              [Text "Intento de reenvío con cantidad: "; Num quantity] ;;;
          order <- invoke (CallCreateOrder second) (futures_create_order second) ;;
          log "Trailing stop placed on retry"
              [Text "Callback Rate: 1.00%, Cantidad: "; Num quantity] ;;;
          ret (Some order))
         (fun e2 =>
            log "Error placing trailing stop on retry" [Err e2] ;;; ret None)).

Definition is_trailing (o : order) : bool := o_type o =? "TRAILING_STOP_MARKET".
Definition is_stop_market (o : order) : bool := o_type o =? "STOP_MARKET".

(** [check_and_place_trailing_stop] *)
Definition check_and_place_trailing_stop (sg : signal) (quantity : float)
    : M unit :=
  try_except_api
    (open_orders <- invoke (CallOpenOrders (symbol self))
                      (futures_get_open_orders (symbol self)) ;;
     let has_trailing := existsb is_trailing open_orders in
     if has_trailing then
       log "Trailing stop check"
           [Text "Ya existe una orden de trailing stop activa."]
     else
       log "Trailing stop check"
           [Text "No se encontró trailing stop. Colocando uno."] ;;;
       _ <- place_trailing_stop sg quantity ;;
       log "Trailing stop action" [Text "Trailing stop colocado exitosamente."])
    (fun e => log "Error checking trailing stop" [Err e]).

(** The loop of [manage_stop_orders]: one step per listed order; the last
    order of each type is kept. *)
Definition scan_step (found : option order * option order) (o : order)
    : option order * option order :=
  let '(stop_market_order, trailing_stop_order) := found in
  (if is_stop_market o then Some o else stop_market_order,
   if is_trailing o then Some o else trailing_stop_order).

Definition scan_stop_orders (open_orders : list order)
    : option order * option order :=
  fold_left scan_step open_orders (None, None).

(** [manage_stop_orders] *)
Definition manage_stop_orders (sg : signal) : M unit :=
  try_except_api
    (open_orders <- invoke (CallOpenOrders (symbol self))
                      (futures_get_open_orders (symbol self)) ;;
     match scan_stop_orders open_orders with
     | (Some stop_market_order, Some _) =>
         _ <- invoke (CallCancelOrder (symbol self) (orderId stop_market_order))
                (futures_cancel_order (symbol self) (orderId stop_market_order)) ;;
         log "Canceled stop loss order"
             [Text "Se canceló la orden STOP_MARKET debido a TRAILING_STOP_MARKET activa"]
     | _ => ret tt
     end)
    (fun e => log "Error managing stop orders" [Err e]).

(** [reconnect] *)
Definition reconnect : M unit :=
  log "Attempting reconnection" [Text "Reinicializando el cliente de Binance"] ;;;
  try_except
    (_ <- invoke (CallClient (api_key self) (api_secret self))
            (Client (api_key self) (api_secret self)) ;;
     set_leverage ;;;
     log "Reconnection successful" [Text "Cliente reinicializado exitosamente"])
    (fun e => log "Reconnection failed" [Err e]).

Definition open_positions (positions : list position) : list position :=
  filter (fun pos => (p_symbol pos =? symbol self)
                     && fneb (positionAmt pos) zero) positions.

(** How an iteration of the loop ends: at its bottom, or by [continue]. *)
Inductive flow : Type := Bottom | Continue.

(** The [try] block of the main loop. *)
Definition cycle : M flow :=
  df <- get_klines 100 ;;
  match df with
  | None => sleep 60 ;;; ret Continue
  | Some df =>
      let df := calculate_ema df in
      let sg := determine_signal df in
      positions <- invoke (CallPositionInformation (symbol self))
                     (futures_position_information (symbol self)) ;;
      match open_positions positions with
      | pos :: _ =>
          log "Position check" [Text "Posición abierta detectada."] ;;;
          let pos_qty := fabs (positionAmt pos) in
          pos_qty <- round_quantity pos_qty ;;
          let sg :=
            match sg with
            | Some s => s
            | None => if fgtb (positionAmt pos) zero then LONG else SHORT
            end in
          check_and_place_trailing_stop sg pos_qty ;;;
          ret Bottom
      | [] =>
          match sg with
          | Some s =>
              match rev df with
              | last_row :: _ =>
                  let entry_price := close (kline last_row) in
                  order <- place_order s entry_price ;;
                  match order with
                  | Some _ =>
                      quantity <- calculate_order_quantity entry_price ;;
                      _ <- place_trailing_stop s quantity ;;
                      manage_stop_orders s ;;;
                      ret Bottom
                  | None => ret Bottom
                  end
              | [] => lift (Raise (OtherException "IndexError"))
              end
          | None =>
              log "No signal" [Text "Sin señal de trading en este momento"] ;;;
              ret Bottom
          end
      end
  end.

(** One iteration of [while True]. *)
Definition iteration : M unit :=
  fl <- try_except cycle
          (fun e => log "Error in main loop" [Err e] ;;;
                    reconnect ;;; sleep 60 ;;; ret Bottom) ;;
  match fl with
  | Continue => ret tt
  | Bottom => sleep 60
  end.

(** [run], observed for [n] iterations. *)
Fixpoint run (n : nat) : M unit :=
  match n with
  | O => ret tt
  | S n' => iteration ;;; run n'
  end.

End Methods.

(** The submissions and the cancellations recorded in a journal. *)
Definition submissions (j : list call) : list order_request :=
  flat_map (fun c => match c with CallCreateOrder rq => [rq] | _ => [] end) j.

Definition cancellations (j : list call) : list Z :=
  flat_map (fun c => match c with CallCancelOrder _ id => [id] | _ => [] end) j.

End Bot.

(** ** What the sizing methods return, as functions of the exchange's answers *)

Module Sizing.
Import Binary64 Py Data Bot.
Local Open Scope string_scope.

Section Views.

Context {libs : PyLibs}.
Variable self : FuturesBot.

(** The [try] block of [round_quantity] once [get_symbol_info] has answered. *)
Definition rounding_attempt (info : option symbol_info) (quantity : float)
    : result float :=
  match info with
  | None => Raise TypeError
  | Some info =>
      match lot_step_size info with
      | None =>
          py_round quantity
            (match symbol_precision self info with Some p => p | None => 3%Z end)
      | Some step_size =>
          floor_to_step quantity step_size (symbol_precision self info)
      end
  end.

(** The value of [round_quantity]: the attempt, or [round(quantity, 3)]
    after any exception. *)
Definition normalized (answer : result (option symbol_info)) (quantity : float)
    : result float :=
  match answer with
  | Ok info =>
      match rounding_attempt info quantity with
      | Ok v => Ok v
      | Raise _ => py_round quantity 3
      end
  | Raise _ => py_round quantity 3
  end.

(** The USDT balance [get_available_balance] extracts from the answer. *)
Definition available (answer : result (list asset_balance)) : float :=
  match answer with
  | Ok balance_data =>
      match find (fun a => asset a =? "USDT") balance_data with
      | Some a => availableBalance a
      | None => zero
      end
  | Raise _ => zero
  end.

(** [(balance * base_capital_pct * leverage) / entry_price] *)
Definition raw_quantity (balance entry_price : float) : result float :=
  match float_mul_int (fmul balance (base_capital_pct self)) (leverage self) with
  | Ok exposure => fdiv exposure entry_price
  | Raise e => Raise e
  end.

(** The value of [calculate_order_quantity]. *)
Definition sized (balance : float) (answer : result (option symbol_info))
    (entry_price : float) : result float :=
  match raw_quantity balance entry_price with
  | Ok quantity => normalized answer quantity
  | Raise e => Raise e
  end.

End Views.

(** Symbol information carrying a [quantityPrecision] and one [LOT_SIZE] filter. *)
Definition lot_filters (step_size : float) (quantity_precision : Z) : symbol_info :=
  {| quantityPrecision := Some quantity_precision;
     filters := [ {| filterType := "LOT_SIZE"; stepSize := step_size |} ] |}.

End Sizing.

(** ** The sizing rule as the specification words it (§4.3) *)

Module Spec.
Import Binary64 Py.

(** raw = (balance × capital_fraction × leverage) / entry_price *)
Definition raw (entry_price balance capital_fraction : float) (leverage : Z)
    : result float :=
  match float_mul_int (fmul balance capital_fraction) leverage with
  | Ok exposure => fdiv exposure entry_price
  | Raise e => Raise e
  end.

(** Truncate toward zero to the nearest multiple of [step_size]. *)
Definition truncate_to_step (raw step_size : float) : result float :=
  match fdiv raw step_size with
  | Raise e => Raise e
  | Ok ratio =>
      match int_of_float ratio with
      | Raise e => Raise e
      | Ok k => int_mul_float k step_size
      end
  end.

(** Round down (toward minus infinity) to a multiple of [step_size]. *)
Definition floor_to_step (raw step_size : float) : result float :=
  match fdiv raw step_size with
  | Raise e => Raise e
  | Ok ratio =>
      match math_floor ratio with
      | Raise e => Raise e
      | Ok k => int_mul_float k step_size
      end
  end.

(** computeQuantity: truncate, then round to [quantity_precision] places. *)
Definition computeQuantity (entry_price balance capital_fraction : float)
    (leverage : Z) (step_size : float) (quantity_precision : Z) : result float :=
  match raw entry_price balance capital_fraction leverage with
  | Raise e => Raise e
  | Ok r =>
      match truncate_to_step r step_size with
      | Raise e => Raise e
      | Ok t => py_round t quantity_precision
      end
  end.

(** The same rule with rounding down in place of truncation. *)
Definition computeQuantity_floor (entry_price balance capital_fraction : float)
    (leverage : Z) (step_size : float) (quantity_precision : Z) : result float :=
  match raw entry_price balance capital_fraction leverage with
  | Raise e => Raise e
  | Ok r =>
      match floor_to_step r step_size with
      | Raise e => Raise e
      | Ok t => py_round t quantity_precision
      end
  end.


End Spec.

(** ** Vocabulary of the sizing statements *)

Module Facts.
Import Binary64 Py Data Monad Bot Sizing.


(** In state [s] the exchange reports the USDT balance [balance] and then
    answers the request for the symbol's information with [answer]. *)
Definition quotes {W : Type} {exchange : Exchange W} (self : FuturesBot)
    (s : state W) (balance : float) (answer : result (option symbol_info)) : Prop :=
  exists cash w1 w2,
    futures_account_balance (session s) = (cash, w1) /\
    available cash = balance /\
    get_symbol_info (symbol self) w1 = (answer, w2).

(** The filters are available: a precision and a [LOT_SIZE] step. *)
Definition has_filters (info : symbol_info) (step_size : float)
    (quantity_precision : Z) : Prop :=
  quantityPrecision info = Some quantity_precision /\
  lot_step_size info = Some step_size.



End Facts.

(** ** A scripted exchange, for running the bot on concrete scenarios *)

Module Desk.
Import Binary64 Py Data Monad.
Local Open Scope string_scope.

(** The exchange side of a scenario: what the account holds, the working
    orders, and which of the next order submissions are rejected. *)
Record desk : Type := {
  balances : list asset_balance;
  info : option symbol_info;
  klines : list candle;
  positions : list position;
  working : list order;
  faults : list (option exn);
  next_id : Z
}.

Definition accept (rq : order_request) (d : desk) : result order * desk :=
  let o := {| o_type := rq_type rq; orderId := next_id d; o_side := rq_side rq |} in
  (Ok o,
   {| balances := balances d; info := info d; klines := klines d;
      positions := positions d;
      working := if rq_type rq =? "MARKET" then working d else working d ++ [o];
      faults := tl (faults d); next_id := (next_id d + 1)%Z |}).

Definition reject (e : exn) (d : desk) : result order * desk :=
  (Raise e,
   {| balances := balances d; info := info d; klines := klines d;
      positions := positions d; working := working d;
      faults := tl (faults d); next_id := next_id d |}).

Definition create_order (rq : order_request) (d : desk) : result order * desk :=
  match faults d with
  | Some e :: _ => reject e d
  | _ => accept rq d
  end.

Definition cancel_order (id : Z) (d : desk) : result unit * desk :=
  if existsb (fun o => (orderId o =? id)%Z) (working d) then
    (Ok tt,
     {| balances := balances d; info := info d; klines := klines d;
        positions := positions d;
        working := filter (fun o => negb (orderId o =? id)%Z) (working d);
        faults := faults d; next_id := next_id d |})
  else (Raise (BinanceAPIException "Unknown order sent."), d).

#[export] Instance desk_exchange : Exchange desk := {
  Client := fun _ _ d => (Ok tt, d);
  futures_change_leverage := fun _ _ d => (Ok tt, d);
  futures_klines := fun _ _ _ d => (Ok (klines d), d);
  futures_account_balance := fun d => (Ok (balances d), d);
  get_symbol_info := fun _ d => (Ok (info d), d);
  futures_create_order := create_order;
  futures_get_open_orders := fun _ d => (Ok (working d), d);
  futures_cancel_order := fun _ id d => cancel_order id d;
  futures_position_information := fun _ d => (Ok (positions d), d)
}.

(** [Series.ewm(span=span, adjust=False).mean()], following the loop of
    pandas' [ewm] (pandas/_libs/window/aggregations.pyx) with its defaults
    [ignore_na=False] and no minimum number of observations:
    [alpha = 1 / (1 + com)] with [com = (span - 1) / 2]; the first value is
    kept; then, [old_wt] being 1 after every observation,
    [old_wt *= 1 - alpha] and, unless the average already equals the new
    value, [weighted = (old_wt * weighted + alpha * cur) / (old_wt + alpha)].
    A NaN is no observation: it leaves the average as it is and lets the
    old weight decay once more.  The division is the one of C, which does
    not raise.  pandas rejects a span below 1; the interface has no
    exception to give there and the loop is run all the same. *)
Definition is_nan (x : float) : bool :=
  match x with NaN => true | _ => false end.

Definition quotient (x y : float) : float :=
  match fdiv x y with Ok v => v | Raise _ => NaN end.

Fixpoint ewm_from (alpha weighted old_wt : float) (xs : list float) : list float :=
  match xs with
  | [] => []
  | cur :: rest =>
      let '(weighted', old_wt') :=
        if is_nan weighted then
          (if is_nan cur then weighted else cur, old_wt)
        else
          let old_wt := fmul old_wt (fsub (lit 1 1) alpha) in
          if is_nan cur then (weighted, old_wt)
          else
            (if feqb weighted cur then weighted
             else quotient (fadd (fmul old_wt weighted) (fmul alpha cur))
                           (fadd old_wt alpha),
             lit 1 1) in
      weighted' :: ewm_from alpha weighted' old_wt' rest
  end.

Definition ewm_recurrence (span : Z) (xs : list float) : list float :=
  let com := rnd (inject_Z (span - 1) / 2) in
  let alpha := quotient (lit 1 1) (fadd (lit 1 1) com) in
  match xs with
  | [] => []
  | x :: rest => x :: ewm_from alpha x (lit 1 1) rest
  end.

(** [math.log(x, base)] is a quotient of two logarithms of the C library
    and is not computed here.  The bot uses it in one place, under
    [round(., 0)] (line 157), with the base 10; the desk answers with the
    integer nearest to the logarithm, found by comparing [x * x] with the
    odd powers of the base, which leaves that rounding as Python has it.
    Outside a base above 1 and 660 orders of magnitude it has no answer. *)
Definition nearest_exponent (a b : Q) : option Z :=
  find (fun n => Qle_bool (b ^ (2 * n - 1)) (a * a)
                 && negb (Qle_bool (b ^ (2 * n + 1)) (a * a)))
       (map (fun n => (Z.of_nat n - 330)%Z) (seq 0 661)).

Definition rounded_log (x base : float) : result float :=
  match base, x with
  | Finite b, Finite a =>
      if Qle_bool b 1 || Qle_bool a 0 then Raise ValueError
      else match nearest_exponent a b with
           | Some n => of_int n
           | None => Raise ValueError
           end
  | Finite b, PosInf => if Qle_bool b 1 then Raise ValueError else Ok PosInf
  | Finite _, NaN => Ok NaN
  | _, _ => Raise ValueError
  end.

#[export] Instance desk_libs : PyLibs := {
  ewm_mean := ewm_recurrence;
  math_log := rounded_log
}.

(** The bot of [__main__], and the same bot on SOLUSDT. *)
Definition main_bot : FuturesBot :=
  {| api_key := "TU_API"; api_secret := "TU_API_KEY"; symbol := "ETHUSDT";
     leverage := 10; base_capital_pct := lit 95 100;
     fast_ema_period := 40; slow_ema_period := 99; interval := "5m" |}.

Definition sol_bot : FuturesBot :=
  {| api_key := "TU_API"; api_secret := "TU_API_KEY"; symbol := "SOLUSDT";
     leverage := 10; base_capital_pct := lit 95 100;
     fast_ema_period := 40; slow_ema_period := 99; interval := "5m" |}.

Definition usdt (amount : float) : list asset_balance :=
  [ {| asset := "USDT"; availableBalance := amount |} ].

Definition flat_candle (price : float) : candle :=
  {| open_time := 0; open_ := price; high := price; low := price; close := price |}.

Definition start (d : desk) : state desk :=
  {| session := d; journal := []; csv := [] |}.

(** An account with [amount] USDT, the given step size and precision, no
    position, no working order. *)
Definition account (amount step_size : float) (quantity_precision : Z) : desk :=
  {| balances := usdt amount;
     info := Some (Sizing.lot_filters step_size quantity_precision);
     klines := []; positions := []; working := []; faults := []; next_id := 1 |}.

(** The same account with a position of [amount] on ETHUSDT and two
    candles closing at 100. *)
Definition holding (amount step_size : float) (quantity_precision : Z) : desk :=
  {| balances := usdt (lit 1000 1);
     info := Some (Sizing.lot_filters step_size quantity_precision);
     klines := [flat_candle (lit 100 1); flat_candle (lit 100 1)];
     positions := [ {| p_symbol := "ETHUSDT"; positionAmt := amount |} ];
     working := []; faults := []; next_id := 1 |}.

(** A flat account whose last two candles close at [c1] and [c2]. *)
Definition watching (amount c1 c2 step_size : float) (quantity_precision : Z)
    : desk :=
  {| balances := usdt amount;
     info := Some (Sizing.lot_filters step_size quantity_precision);
     klines := [flat_candle c1; flat_candle c2];
     positions := []; working := []; faults := []; next_id := 1 |}.

Definition with_faults (d : desk) (script : list (option exn)) : desk :=
  {| balances := balances d; info := info d; klines := klines d;
     positions := positions d; working := working d;
     faults := script; next_id := next_id d |}.

Definition with_working (d : desk) (orders : list order) : desk :=
  {| balances := balances d; info := info d; klines := klines d;
     positions := positions d; working := orders;
     faults := faults d; next_id := next_id d |}.

Definition rejected : option exn :=
  Some (BinanceAPIException "APIError(code=-2021): Order would immediately trigger.").

Definition stop_market_7 : order :=
  {| o_type := "STOP_MARKET"; orderId := 7; o_side := SIDE_SELL |}.
Definition trailing_8 : order :=
  {| o_type := "TRAILING_STOP_MARKET"; orderId := 8; o_side := SIDE_SELL |}.

(** Two indicator points: the fast average 0.5 below, then 0.3 above. *)
Definition point (fast slow : float) : row :=
  {| kline := flat_candle slow; ema_fast := fast; ema_slow := slow |}.

End Desk.

(** ** The Standard Library's IEEE 754 arithmetic as a reference

    [SpecFloat] specifies binary floating-point arithmetic on sign,
    significand and exponent.  Its binary64 instance (53 bits of precision,
    exponents below 1024) is an independent reference for [Binary64]: the
    two are compared on the operands that occur in the sizing scenarios. *)

Module Reference.
Import Binary64 Py.

Definition to_spec (x : float) : SpecFloat.spec_float :=
  match x with
  | Finite (Qmake n d) =>
      match n with
      | Z0 => SpecFloat.S754_zero false
      | Zpos m => SpecFloat.S754_finite false m (- Z.log2 (Zpos d))
      | Zneg m => SpecFloat.S754_finite true m (- Z.log2 (Zpos d))
      end
  | PosInf => SpecFloat.S754_infinity false
  | NegInf => SpecFloat.S754_infinity true
  | NaN => SpecFloat.S754_nan
  end.

Definition of_spec (f : SpecFloat.spec_float) : float :=
  match f with
  | SpecFloat.S754_zero _ => Finite 0
  | SpecFloat.S754_infinity s => if s then NegInf else PosInf
  | SpecFloat.S754_nan => NaN
  | SpecFloat.S754_finite s m e =>
      Finite (Qred ((if s then -1 else 1) * inject_Z (Zpos m) * pow2 e))
  end.

Definition same (x y : float) : bool :=
  match x, y with
  | Finite a, Finite b => Qeq_bool a b
  | PosInf, PosInf | NegInf, NegInf | NaN, NaN => true
  | _, _ => false
  end.

(** The four operations agree on [x] and [y]; where Python raises
    [ZeroDivisionError] the divisor is zero. *)
Definition agree (x y : float) : bool :=
  same (of_spec (SpecFloat.SFmul 53 1024 (to_spec x) (to_spec y))) (fmul x y)
  && same (of_spec (SpecFloat.SFadd 53 1024 (to_spec x) (to_spec y))) (fadd x y)
  && same (of_spec (SpecFloat.SFsub 53 1024 (to_spec x) (to_spec y))) (fsub x y)
  && match fdiv x y with
     | Ok q => same (of_spec (SpecFloat.SFdiv 53 1024 (to_spec x) (to_spec y))) q
     | Raise _ => same y zero
     end.

Definition operands : list float :=
  [ zero; lit 1 10; lit 7 10; lit 6 10; lit 3 10; lit 95 100; lit 1 100;
    lit 95 1; lit 1000 1; lit 14 1; lit 200 1; lit (-1000) 1;
    Finite (Qred (pow2 (-1074))); Finite (Qred (pow2 1023)); PosInf; NaN ].

End Reference.

(** ** Vocabulary of the behavioural statements *)

Module Behaviour.
Import Binary64 Py Data Monad Bot.
Local Open Scope string_scope.
Local Open Scope list_scope.

(** A float that holds a number: neither an infinity nor NaN. *)
Definition number (x : float) : Prop :=
  is_finite x = true /\ representable x.

(** The largest float below 1. *)
Definition below_one : Q := 9007199254740991 # 9007199254740992.

(** The frame with its two average columns exchanged, and the opposite signal. *)
Definition swap_averages (r : row) : row :=
  {| kline := kline r; ema_fast := ema_slow r; ema_slow := ema_fast r |}.

Definition opposite (sg : signal) : signal :=
  match sg with LONG => SHORT | SHORT => LONG end.

(** The reasons for which the [try] block of [round_quantity] raises: the
    request fails, the symbol is unknown ([None] has no keys), the step size
    is zero, or the quantity is an infinity or NaN while a step size is
    given. *)
Inductive attempt_fails (quantity : float) : result (option symbol_info) -> Prop :=
| request_fails (e : exn) : attempt_fails quantity (Raise e)
| symbol_unknown : attempt_fails quantity (Ok None)
| step_is_zero (info : symbol_info) (step_size : float) :
    lot_step_size info = Some step_size -> feqb step_size zero = true ->
    attempt_fails quantity (Ok (Some info))
| quantity_not_number (info : symbol_info) (step_size : float) :
    lot_step_size info = Some step_size -> is_finite quantity = false ->
    attempt_fails quantity (Ok (Some info)).

(** No [BinanceAPIException] leaves the method. *)
Definition api_exception_free {W A : Type} (m : M W A) : Prop :=
  forall s e, fst (m s) = Raise e -> is_api_exception e = false.

(** The pauses recorded in a journal, and the requests made on the client. *)
Definition sleeps (j : list call) : list Z :=
  flat_map (fun c => match c with Sleep n => [n] | _ => [] end) j.

Definition is_request (c : call) : bool :=
  match c with Sleep _ => false | _ => true end.

Definition requests (j : list call) : list call := filter is_request j.

(** The two kinds of order the bot builds. *)
Definition entry_order (self : FuturesBot) (rq : order_request) : Prop :=
  rq_symbol rq = symbol self /\ rq_type rq = "MARKET" /\
  rq_reduceOnly rq = false /\ rq_callbackRate rq = None /\
  rq_timeInForce rq = None.

Definition protective_order (self : FuturesBot) (rq : order_request) : Prop :=
  rq_symbol rq = symbol self /\ rq_type rq = "TRAILING_STOP_MARKET" /\
  rq_reduceOnly rq = true /\ rq_timeInForce rq = Some "GTC" /\
  (rq_callbackRate rq = Some (lit 1 1) \/ rq_callbackRate rq = Some (lit 5 10)).

(** The calls of a bot that trades its own symbol only. *)
Definition expected (self : FuturesBot) (c : call) : Prop :=
  match c with
  | CallClient k s => k = api_key self /\ s = api_secret self
  | CallChangeLeverage sym l => sym = symbol self /\ l = leverage self
  | CallKlines sym itv limit =>
      sym = symbol self /\ itv = interval self /\ limit = 100%Z
  | CallAccountBalance => True
  | CallSymbolInfo sym => sym = symbol self
  | CallCreateOrder rq => entry_order self rq \/ protective_order self rq
  | CallOpenOrders sym => sym = symbol self
  | CallCancelOrder sym _ => sym = symbol self
  | CallPositionInformation sym => sym = symbol self
  | Sleep n => n = 60%Z
  end.

(** Running [m] appends to the journal calls that all satisfy [ok]. *)
Definition keeps {W A : Type} (ok : call -> Prop) (m : M W A) : Prop :=
  forall s, exists tail,
    journal (snd (m s)) = journal s ++ tail /\ Forall ok tail.

(** The same, from the state [s]. *)
Definition keeps_from {W A : Type} (ok : call -> Prop) (m : M W A) (s : state W)
    : Prop :=
  exists tail, journal (snd (m s)) = journal s ++ tail /\ Forall ok tail.

(** No entry order among the calls: every order is a protective one. *)
Definition no_entry (self : FuturesBot) (c : call) : Prop :=
  match c with
  | CallCreateOrder rq => protective_order self rq
  | _ => True
  end.

(** Running [m] only adds rows to the log. *)
Definition grows {W A : Type} (m : M W A) : Prop :=
  forall s, exists rows, csv (snd (m s)) = csv s ++ rows.

(** When [m] returns it has added at least one row to the log. *)
Definition writes {W A : Type} (m : M W A) : Prop :=
  forall s a, fst (m s) = Ok a ->
              exists r rows, csv (snd (m s)) = csv s ++ r :: rows.

(** Running [m] appends to the journal at most [n] calls that satisfy [f]. *)
Definition spends {W A : Type} (f : call -> bool) (m : M W A) (n : nat) : Prop :=
  forall s, exists tail,
    journal (snd (m s)) = journal s ++ tail /\ (List.length (filter f tail) <= n)%nat.

Definition weight (f : call -> bool) (c : call) : nat :=
  if f c then 1%nat else 0%nat.

(** A bound on the weight of a call by its kind: query, order submission,
    cancellation, pause. *)
Definition cap (query submission cancellation pause : nat) (c : call) : nat :=
  match c with
  | CallCreateOrder _ => submission
  | CallCancelOrder _ _ => cancellation
  | Sleep _ => pause
  | _ => query
  end.

Definition is_pause (c : call) : bool := negb (is_request c).

(** The values a computation may return. *)
Definition returns_only {W A : Type} (P : A -> Prop) (m : M W A) : Prop :=
  forall s a, fst (m s) = Ok a -> P a.

Definition is_submission (c : call) : bool :=
  match c with CallCreateOrder _ => true | _ => false end.

Definition is_cancellation (c : call) : bool :=
  match c with CallCancelOrder _ _ => true | _ => false end.

End Behaviour.

(** ** Construction of the bot and its log file *)

Module Startup.
Import Binary64 Py Data Monad Bot.
Local Open Scope string_scope.
Local Open Scope list_scope.

(** A row of [trading_log.csv].  The first column of a logged row, the
    timestamp, is read from the clock and is not represented; the header is
    the row of the three column names. *)
Inductive file_row : Type :=
| Header
| Logged (r : log_row).

(** The file on disk: [None] while it does not exist. *)
Definition log_file : Type := option (list file_row).

(** [setup_csv]: the header is written only when the file does not exist. *)
Definition setup_csv (f : log_file) : log_file :=
  match f with
  | None => Some [Header]
  | Some rows => Some rows
  end.

(** The file part of [log]: the file is opened in append mode, which
    creates it when it does not exist. *)
Definition append_row (f : log_file) (r : log_row) : log_file :=
  Some (match f with None => [] | Some rows => rows end ++ [Logged r]).

(** The file after the rows of a run have been logged, one call of [log]
    after the other. *)
Definition written (f : log_file) (rows : list log_row) : log_file :=
  fold_left append_row rows f.

Section Construction.

Context {W : Type} {exchange : Exchange W} {libs : PyLibs}.
Variable self : FuturesBot.

(** [FuturesBot.__init__], the attributes being those of [self]: build the
    client, set up the log file, set the leverage.  Its value is the
    outcome, the state of the new bot and the log file. *)
Definition init (f : log_file) (w : W) : result unit * state W * log_file :=
  let s0 := {| session := w; journal := []; csv := [] |} in
  match invoke (CallClient (api_key self) (api_secret self))
               (Client (api_key self) (api_secret self)) s0 with
  | (Raise e, s1) => (Raise e, s1, f)
  | (Ok _, s1) =>
      let f1 := setup_csv f in
      let (r, s2) := set_leverage self s1 in
      (r, s2, written f1 (csv s2))
  end.


End Construction.

End Startup.

(** ** The scripted exchange with requests that fail *)

Module Outage.
Import Binary64 Py Data Monad Desk.
Local Open Scope string_scope.

(** A desk behind a line on which the requests for candles, for positions
    and for the balance, and the construction of the client, may fail. *)
Record line : Type := {
  behind : desk;
  client_fails : option exn;
  leverage_fails : option exn;
  candles_fail : option exn;
  positions_fail : option exn;
  balance_fails : option exn
}.

Definition through {A : Type} (l : line) (answer : result A * desk)
    : result A * line :=
  (fst answer,
   {| behind := snd answer; client_fails := client_fails l;
      leverage_fails := leverage_fails l; candles_fail := candles_fail l;
      positions_fail := positions_fail l; balance_fails := balance_fails l |}).

Definition unless {A : Type} (fault : option exn) (l : line)
    (answer : result A * desk) : result A * line :=
  match fault with
  | Some e => (Raise e, l)
  | None => through l answer
  end.

#[export] Instance line_exchange : Exchange line := {
  Client := fun k s l => unless (client_fails l) l (Client k s (behind l));
  futures_change_leverage := fun sym lev l =>
    unless (leverage_fails l) l (futures_change_leverage sym lev (behind l));
  futures_klines := fun sym itv limit l =>
    unless (candles_fail l) l (futures_klines sym itv limit (behind l));
  futures_account_balance := fun l =>
    unless (balance_fails l) l (futures_account_balance (behind l));
  get_symbol_info := fun sym l => through l (get_symbol_info sym (behind l));
  futures_create_order := fun rq l => through l (futures_create_order rq (behind l));
  futures_get_open_orders := fun sym l =>
    through l (futures_get_open_orders sym (behind l));
  futures_cancel_order := fun sym id l =>
    through l (futures_cancel_order sym id (behind l));
  futures_position_information := fun sym l =>
    unless (positions_fail l) l (futures_position_information sym (behind l))
}.

Definition open_line (l : line) : state line :=
  {| session := l; journal := []; csv := [] |}.

Definition read_timeout : exn := OtherException "ReadTimeout".

(** The account of a symbol the exchange does not list. *)
Definition unlisted (amount : float) : desk :=
  {| balances := usdt amount; info := None; klines := []; positions := [];
     working := []; faults := []; next_id := 1 |}.

Definition stop_market_9 : order :=
  {| o_type := "STOP_MARKET"; orderId := 9; o_side := SIDE_SELL |}.

(** Three rows of averages: the fast one below, then above twice. *)
Definition crossing : list row :=
  [ point (lit 995 10) (lit 100 1); point (lit 1003 10) (lit 100 1);
    point (lit 1010 10) (lit 100 1) ].

End Outage.

(** * Proofs *)

(** ** Facts about rounding to an integer *)

Section RoundHalfEven.
Import Binary64.

Lemma round_half_even_wd (x y : Q) :
  x == y -> round_half_even x = round_half_even y.
Proof.
  intros H. unfold round_half_even.
  rewrite (Qfloor_comp _ _ H).
  assert (E : Qcompare (x - inject_Z (Qfloor y)) (1 # 2)
              = Qcompare (y - inject_Z (Qfloor y)) (1 # 2)).
  { apply Qcompare_comp; [rewrite H; reflexivity | reflexivity]. }
  rewrite E. reflexivity.
Qed.

Lemma floor_frac (y : Q) :
  0 <= y - inject_Z (Qfloor y) /\ y - inject_Z (Qfloor y) < 1.
Proof.
  pose proof (Qfloor_le y) as H1. pose proof (Qlt_floor y) as H2.
  rewrite inject_Z_plus in H2. change (inject_Z 1) with 1 in H2. split; lra.
Qed.

Lemma round_half_even_cases (y : Q) :
  round_half_even y = Qfloor y \/ round_half_even y = (Qfloor y + 1)%Z.
Proof.
  unfold round_half_even.
  destruct (Qcompare _ _); [destruct (Z.even _) | |]; auto.
Qed.

Lemma round_half_even_near (y : Q) :
  y - (1 # 2) <= inject_Z (round_half_even y) <= y + (1 # 2).
Proof.
  unfold round_half_even. pose proof (floor_frac y) as [H0 H1].
  destruct (Qcompare_spec (y - inject_Z (Qfloor y)) (1 # 2)) as [E | E | E].
  - destruct (Z.even (Qfloor y)); rewrite ?inject_Z_plus; change (inject_Z 1) with 1; split; lra.
  - split; lra.
  - rewrite inject_Z_plus. change (inject_Z 1) with 1. split; lra.
Qed.

Lemma round_half_even_Z (n : Z) : round_half_even (inject_Z n) = n.
Proof.
  unfold round_half_even. rewrite Qfloor_Z.
  assert (E : Qcompare (inject_Z n - inject_Z n) (1 # 2) = Lt).
  { rewrite <- Qlt_alt. lra. }
  rewrite E. reflexivity.
Qed.

Lemma round_half_even_mono (x y : Q) :
  x <= y -> (round_half_even x <= round_half_even y)%Z.
Proof.
  intros H. pose proof (Qfloor_resp_le _ _ H) as Hf.
  destruct (Z.eq_dec (Qfloor x) (Qfloor y)) as [E | NE].
  - unfold round_half_even. rewrite E.
    destruct (Qcompare_spec (x - inject_Z (Qfloor y)) (1 # 2)) as [E1 | E1 | E1];
      destruct (Qcompare_spec (y - inject_Z (Qfloor y)) (1 # 2)) as [E2 | E2 | E2];
      try (destruct (Z.even (Qfloor y))); try lia; exfalso; lra.
  - destruct (round_half_even_cases x) as [Hx | Hx];
      destruct (round_half_even_cases y) as [Hy | Hy]; lia.
Qed.

Lemma round_half_even_le_Z (x : Q) (n : Z) :
  x <= inject_Z n -> (round_half_even x <= n)%Z.
Proof.
  intros H. rewrite <- (round_half_even_Z n). now apply round_half_even_mono.
Qed.

Lemma round_half_even_ge_Z (x : Q) (n : Z) :
  inject_Z n <= x -> (n <= round_half_even x)%Z.
Proof.
  intros H. rewrite <- (round_half_even_Z n). now apply round_half_even_mono.
Qed.

Lemma Qfloor_opp_nonint (y : Q) :
  ~ y == inject_Z (Qfloor y) -> Qfloor (- y) = (- Qfloor y - 1)%Z.
Proof.
  intros NI. pose proof (floor_frac y) as [H0 H1].
  assert (Hlt : inject_Z (Qfloor y) < y).
  { apply Qle_lt_or_eq in H0. destruct H0 as [H0 | H0]; [lra |].
    exfalso. apply NI. lra. }
  pose proof (Qfloor_le (- y)) as A. pose proof (Qlt_floor (- y)) as B.
  rewrite inject_Z_plus in B. change (inject_Z 1) with 1 in B.
  assert (L : (Qfloor (- y) < - Qfloor y)%Z).
  { rewrite Zlt_Qlt. rewrite inject_Z_opp. lra. }
  assert (U : (- Qfloor y - 2 < Qfloor (- y))%Z).
  { replace (- Qfloor y - 2)%Z with (- (Qfloor y + 2))%Z by lia.
    rewrite Zlt_Qlt, inject_Z_opp, inject_Z_plus. change (inject_Z 2) with 2. lra. }
  lia.
Qed.

Lemma round_half_even_opp (y : Q) :
  round_half_even (- y) = (- round_half_even y)%Z.
Proof.
  destruct (Qeq_dec y (inject_Z (Qfloor y))) as [I | NI].
  - rewrite (round_half_even_wd y _ I).
    assert (E : - y == inject_Z (- Qfloor y)) by (rewrite inject_Z_opp, <- I; reflexivity).
    rewrite (round_half_even_wd _ _ E). now rewrite !round_half_even_Z.
  - pose proof (Qfloor_opp_nonint y NI) as F.
    pose proof (floor_frac y) as [H0 H1].
    unfold round_half_even. rewrite F.
    assert (G : - y - inject_Z (- Qfloor y - 1) == 1 - (y - inject_Z (Qfloor y))).
    { replace (- Qfloor y - 1)%Z with (- (Qfloor y + 1))%Z by lia.
      rewrite inject_Z_opp, inject_Z_plus. change (inject_Z 1) with 1. ring. }
    destruct (Qcompare_spec (y - inject_Z (Qfloor y)) (1 # 2)) as [E1 | E1 | E1];
      destruct (Qcompare_spec (- y - inject_Z (- Qfloor y - 1)) (1 # 2)) as [E2 | E2 | E2];
      try (exfalso; lra).
    + replace (- Qfloor y - 1)%Z with (- (Qfloor y + 1))%Z by lia.
      rewrite Z.even_opp, Z.even_add. simpl.
      destruct (Z.even (Qfloor y)); simpl; lia.
    + lia.
    + lia.
Qed.

End RoundHalfEven.

(** ** Powers of two and the exponent of the last place *)

Section Exponent.
Import Binary64.

Lemma pow2_pos (e : Z) : 0 < pow2 e.
Proof. apply Qpower_0_lt. reflexivity. Qed.

Lemma pow2_add (a b : Z) : pow2 (a + b) == pow2 a * pow2 b.
Proof. apply Qpower_plus. discriminate. Qed.

Lemma pow2_le (a b : Z) : (a <= b)%Z -> pow2 a <= pow2 b.
Proof. intros H. apply Qpower_le_compat_l; [exact H | discriminate]. Qed.

Lemma pow2_lt (a b : Z) : (a < b)%Z -> pow2 a < pow2 b.
Proof. intros H. apply Qpower_lt_compat_l; [exact H | reflexivity]. Qed.

Lemma pow2_Z (n : Z) : (0 <= n)%Z -> inject_Z (2 ^ n) == pow2 n.
Proof. intros H. unfold pow2. now rewrite Zpower_Qpower. Qed.

Lemma pow2_succ (a : Z) : pow2 (a + 1) == 2 * pow2 a.
Proof. rewrite pow2_add. change (pow2 1) with 2. ring. Qed.

Lemma Z_log2_Q (n : Z) :
  (0 < n)%Z ->
  pow2 (Z.log2 n) <= inject_Z n /\ inject_Z n < pow2 (Z.log2 n + 1).
Proof.
  intros H. destruct (Z.log2_spec n H) as [L U].
  pose proof (Z.log2_nonneg n) as NN.
  rewrite <- !pow2_Z by lia. rewrite <- Zle_Qle, <- Zlt_Qlt.
  unfold Z.succ in U. split; assumption.
Qed.

Lemma log2_floor_spec (x : Q) :
  0 < x -> pow2 (log2_floor x) <= x /\ x < pow2 (log2_floor x + 1).
Proof.
  intros Hx. destruct x as [n d]. unfold log2_floor. simpl Qnum. simpl Qden.
  assert (Hn : (0 < n)%Z).
  { unfold Qlt in Hx. simpl in Hx. lia. }
  destruct (Z_log2_Q n Hn) as [Ln Un].
  destruct (Z_log2_Q (Zpos d) eq_refl) as [Ld Ud].
  set (ln := Z.log2 n) in *. set (ld := Z.log2 (Zpos d)) in *.
  assert (XD : (n # d) * inject_Z (Zpos d) == inject_Z n).
  { rewrite (Qmake_Qdiv n d). field. discriminate. }
  assert (Dpos : 0 < inject_Z (Zpos d)) by reflexivity.
  assert (Up : (n # d) < pow2 (ln - ld + 1)).
  { apply Qnot_le_lt. intros C.
    assert (E : pow2 (ln + 1) == pow2 (ln - ld + 1) * pow2 ld).
    { rewrite <- pow2_add. replace (ln - ld + 1 + ld)%Z with (ln + 1)%Z by lia. reflexivity. }
    pose proof (pow2_pos (ln - ld + 1)) as P.
    assert (pow2 (ln - ld + 1) * pow2 ld <= pow2 (ln - ld + 1) * inject_Z (Zpos d)).
    { apply Qmult_le_l; assumption. }
    assert (pow2 (ln - ld + 1) * inject_Z (Zpos d) <= (n # d) * inject_Z (Zpos d)).
    { apply Qmult_le_r; assumption. }
    lra. }
  assert (Lo : pow2 (ln - ld - 1) <= (n # d)).
  { apply Qnot_lt_le. intros C.
    assert (E : pow2 ln == pow2 (ln - ld - 1) * pow2 (ld + 1)).
    { rewrite <- pow2_add. replace (ln - ld - 1 + (ld + 1))%Z with ln by lia. reflexivity. }
    pose proof (pow2_pos (ln - ld - 1)) as P.
    assert (pow2 (ln - ld - 1) * inject_Z (Zpos d) < pow2 (ln - ld - 1) * pow2 (ld + 1)).
    { apply Qmult_lt_l; assumption. }
    assert ((n # d) * inject_Z (Zpos d) < pow2 (ln - ld - 1) * inject_Z (Zpos d)).
    { apply Qmult_lt_r; assumption. }
    lra. }
  destruct (Qle_bool (pow2 (ln - ld)) (n # d)) eqn:T.
  - apply Qle_bool_iff in T. split; assumption.
  - assert (T' : (n # d) < pow2 (ln - ld)).
    { apply Qnot_le_lt. intros C. apply Qle_bool_iff in C. congruence. }
    replace (ln - ld - 1 + 1)%Z with (ln - ld)%Z by lia. split; assumption.
Qed.

Lemma log2_floor_unique (x : Q) (k : Z) :
  pow2 k <= x -> x < pow2 (k + 1) -> log2_floor x = k.
Proof.
  intros L U.
  assert (Hx : 0 < x) by (pose proof (pow2_pos k); lra).
  destruct (log2_floor_spec x Hx) as [L' U'].
  destruct (Z.lt_trichotomy (log2_floor x) k) as [C | [C | C]]; [exfalso | exact C | exfalso].
  - assert (pow2 (log2_floor x + 1) <= pow2 k) by (apply pow2_le; lia). lra.
  - assert (pow2 (k + 1) <= pow2 (log2_floor x)) by (apply pow2_le; lia). lra.
Qed.

Lemma log2_floor_wd (x y : Q) : 0 < x -> x == y -> log2_floor x = log2_floor y.
Proof.
  intros Hx E. destruct (log2_floor_spec x Hx) as [L U].
  symmetry. apply log2_floor_unique; rewrite <- E; assumption.
Qed.

Lemma Qabs_nonzero (x : Q) : ~ x == 0 -> 0 < Qabs x.
Proof.
  intros NZ. apply Qabs_case; intros H.
  - apply Qle_lt_or_eq in H. destruct H as [H | H]; [exact H |].
    exfalso. apply NZ. now symmetry.
  - apply Qle_lt_or_eq in H. destruct H as [H | H]; [lra |].
    exfalso. now apply NZ.
Qed.

Lemma ulp_exp_wd (x y : Q) : ~ x == 0 -> x == y -> ulp_exp x = ulp_exp y.
Proof.
  intros NZ E. unfold ulp_exp. f_equal. f_equal.
  apply log2_floor_wd; [now apply Qabs_nonzero | now rewrite E].
Qed.

Lemma Qabs_opp_eq (x : Q) : Qabs (- x) = Qabs x.
Proof. destruct x as [n d]. unfold Qabs, Qopp. simpl. now rewrite Z.abs_opp. Qed.

Lemma ulp_exp_opp (x : Q) : ulp_exp (- x) = ulp_exp x.
Proof. unfold ulp_exp. now rewrite Qabs_opp_eq. Qed.

Lemma ulp_exp_min (x : Q) : (emin <= ulp_exp x)%Z.
Proof. unfold ulp_exp. lia. Qed.

Lemma ulp_exp_upper (x : Q) : ~ x == 0 -> Qabs x < pow2 (ulp_exp x + 53).
Proof.
  intros NZ. destruct (log2_floor_spec _ (Qabs_nonzero x NZ)) as [L U].
  eapply Qlt_le_trans; [exact U |]. apply pow2_le. unfold ulp_exp. lia.
Qed.

Lemma ulp_exp_lower (x : Q) :
  ~ x == 0 -> ulp_exp x = emin \/ pow2 (ulp_exp x + 52) <= Qabs x.
Proof.
  intros NZ. destruct (log2_floor_spec _ (Qabs_nonzero x NZ)) as [L U].
  unfold ulp_exp.
  destruct (Z.max_spec (log2_floor (Qabs x) - 52) emin) as [[A B] | [A B]]; rewrite B.
  - now left.
  - right. replace (log2_floor (Qabs x) - 52 + 52)%Z with (log2_floor (Qabs x)) by lia.
    exact L.
Qed.

End Exponent.

(** ** Rounding to binary64 is monotone *)

Section RoundingMonotone.
Import Binary64.

Lemma Qdiv_le_pos (x y p : Q) : 0 < p -> x <= y -> x / p <= y / p.
Proof.
  intros Hp H. unfold Qdiv. apply Qmult_le_compat_r; [exact H |].
  apply Qlt_le_weak, Qinv_lt_0_compat, Hp.
Qed.

Lemma Qdiv_lt_bound (x p b : Q) : 0 < p -> x < b * p -> x / p < b.
Proof.
  intros Hp H. apply Qlt_shift_div_r; assumption.
Qed.

Lemma Qdiv_ge_bound (x p b : Q) : 0 < p -> b * p <= x -> b <= x / p.
Proof.
  intros Hp H. apply Qle_shift_div_l; assumption.
Qed.

Lemma round_unbounded_nonneg (x : Q) : 0 <= x -> 0 <= round_unbounded x.
Proof.
  intros H. unfold round_unbounded.
  apply Qmult_le_0_compat; [| apply Qlt_le_weak, pow2_pos].
  change 0 with (inject_Z 0). rewrite <- Zle_Qle.
  apply round_half_even_ge_Z. change (inject_Z 0) with 0.
  apply Qle_shift_div_l; [apply pow2_pos | lra].
Qed.

Lemma round_unbounded_opp (x : Q) : round_unbounded (- x) == - round_unbounded x.
Proof.
  unfold round_unbounded. rewrite ulp_exp_opp.
  assert (E : - x / pow2 (ulp_exp x) == - (x / pow2 (ulp_exp x))).
  { unfold Qdiv. ring. }
  rewrite (round_half_even_wd _ _ E), round_half_even_opp, inject_Z_opp. ring.
Qed.

Lemma round_unbounded_upper (x : Q) :
  0 < x -> round_unbounded x <= pow2 (ulp_exp x + 53).
Proof.
  intros Hx. assert (NZ : ~ x == 0) by lra.
  pose proof (ulp_exp_upper x NZ) as U. rewrite Qabs_pos in U by lra.
  unfold round_unbounded. rewrite Z.add_comm, pow2_add.
  apply Qmult_le_compat_r; [| apply Qlt_le_weak, pow2_pos].
  rewrite <- (pow2_Z 53) by lia. rewrite <- Zle_Qle.
  apply round_half_even_le_Z. rewrite (pow2_Z 53) by lia.
  apply Qlt_le_weak, Qdiv_lt_bound; [apply pow2_pos |].
  rewrite <- pow2_add. now rewrite Z.add_comm.
Qed.

Lemma round_unbounded_lower (x : Q) :
  0 < x -> pow2 (ulp_exp x + 52) <= x -> pow2 (ulp_exp x + 52) <= round_unbounded x.
Proof.
  intros Hx L. unfold round_unbounded. rewrite Z.add_comm, pow2_add.
  apply Qmult_le_compat_r; [| apply Qlt_le_weak, pow2_pos].
  rewrite <- (pow2_Z 52) by lia. rewrite <- Zle_Qle.
  apply round_half_even_ge_Z. rewrite (pow2_Z 52) by lia.
  apply Qdiv_ge_bound; [apply pow2_pos |].
  rewrite <- pow2_add. now rewrite Z.add_comm.
Qed.

Lemma round_unbounded_mono_pos (x y : Q) :
  0 < x -> x <= y -> round_unbounded x <= round_unbounded y.
Proof.
  intros Hx Hxy. assert (Hy : 0 < y) by lra.
  assert (NZx : ~ x == 0) by lra. assert (NZy : ~ y == 0) by lra.
  pose proof (ulp_exp_upper x NZx) as Ux. pose proof (ulp_exp_upper y NZy) as Uy.
  rewrite Qabs_pos in Ux, Uy by lra.
  destruct (Z.lt_trichotomy (ulp_exp x) (ulp_exp y)) as [C | [C | C]].
  - (* x lies in a lower binade *)
    destruct (ulp_exp_lower y NZy) as [A | A].
    { pose proof (ulp_exp_min x). lia. }
    rewrite Qabs_pos in A by lra.
    eapply Qle_trans; [apply round_unbounded_upper; exact Hx |].
    eapply Qle_trans; [| apply round_unbounded_lower; assumption].
    apply pow2_le. lia.
  - unfold round_unbounded. rewrite C.
    apply Qmult_le_compat_r; [| apply Qlt_le_weak, pow2_pos].
    rewrite <- Zle_Qle. apply round_half_even_mono.
    apply Qdiv_le_pos; [apply pow2_pos | exact Hxy].
  - exfalso. destruct (ulp_exp_lower x NZx) as [A | A].
    { pose proof (ulp_exp_min y). lia. }
    rewrite Qabs_pos in A by lra.
    assert (pow2 (ulp_exp y + 53) <= pow2 (ulp_exp x + 52)) by (apply pow2_le; lia).
    lra.
Qed.

(** Rounding with the zero case made explicit, as [rnd] has it. *)
Lemma round_unbounded_zero (x : Q) : x == 0 -> round_unbounded x == 0.
Proof.
  intros E. unfold round_unbounded.
  assert (E' : x / pow2 (ulp_exp x) == inject_Z 0).
  { unfold Qdiv. transitivity (0 * / pow2 (ulp_exp x)).
    - apply Qmult_comp; [exact E | reflexivity].
    - change (inject_Z 0) with 0. ring. }
  rewrite (round_half_even_wd _ _ E'), round_half_even_Z. change (inject_Z 0) with 0. ring.
Qed.

Lemma round_unbounded_mono (x y : Q) :
  x <= y -> round_unbounded x <= round_unbounded y.
Proof.
  intros H.
  destruct (Qlt_le_dec 0 x) as [Px | Nx].
  - now apply round_unbounded_mono_pos.
  - destruct (Qlt_le_dec y 0) as [Ny | Py].
    + (* both negative: mirror the positive case *)
      assert (A : round_unbounded (- y) <= round_unbounded (- x)).
      { apply round_unbounded_mono_pos; lra. }
      rewrite !round_unbounded_opp in A. lra.
    + assert (A : 0 <= round_unbounded (- x)) by (apply round_unbounded_nonneg; lra).
      rewrite round_unbounded_opp in A.
      pose proof (round_unbounded_nonneg y Py). lra.
Qed.

Lemma overflow_mono (v w : Q) : v <= w -> fleb (overflow v) (overflow w) = true.
Proof.
  intros H. unfold overflow.
  pose proof (pow2_pos emax) as P.
  destruct (Qle_bool (pow2 emax) v) eqn:T1;
    destruct (Qle_bool (pow2 emax) w) eqn:T2;
    destruct (Qle_bool v (- pow2 emax)) eqn:T3;
    destruct (Qle_bool w (- pow2 emax)) eqn:T4;
    try reflexivity;
    repeat match goal with
           | T : Qle_bool _ _ = true |- _ => apply Qle_bool_iff in T
           | T : Qle_bool ?a ?b = false |- _ =>
               assert (b < a) by (apply Qnot_le_lt; intros C; apply Qle_bool_iff in C; congruence);
               clear T
           end;
    try (exfalso; lra).
  unfold fleb, fcompare. rewrite !Qred_correct.
  destruct (Qcompare_spec v w); try reflexivity. exfalso; lra.
Qed.

Lemma overflow_wd (v w : Q) : v == w -> overflow v = overflow w.
Proof.
  intros E. unfold overflow.
  assert (A : Qle_bool (pow2 emax) v = Qle_bool (pow2 emax) w).
  { apply eq_true_iff_eq. rewrite !Qle_bool_iff. now rewrite E. }
  assert (B : Qle_bool v (- pow2 emax) = Qle_bool w (- pow2 emax)).
  { apply eq_true_iff_eq. rewrite !Qle_bool_iff. now rewrite E. }
  rewrite A, B, (Qred_complete _ _ E). reflexivity.
Qed.

Lemma rnd_overflow (x : Q) : rnd x = overflow (round_unbounded x).
Proof.
  unfold rnd. destruct (Qeq_bool x 0) eqn:T; [| reflexivity].
  apply Qeq_bool_iff in T.
  rewrite (overflow_wd _ 0 (round_unbounded_zero x T)). reflexivity.
Qed.

Theorem rnd_mono (x y : Q) : x <= y -> fleb (rnd x) (rnd y) = true.
Proof.
  intros H. rewrite !rnd_overflow. now apply overflow_mono, round_unbounded_mono.
Qed.

Lemma rnd_wd (x y : Q) : x == y -> rnd x = rnd y.
Proof.
  intros E. rewrite !rnd_overflow. apply overflow_wd.
  apply Qle_antisym; apply round_unbounded_mono; rewrite E; apply Qle_refl.
Qed.

Lemma rnd_not_nan (x : Q) : rnd x <> NaN.
Proof.
  rewrite rnd_overflow. unfold overflow.
  destruct (Qle_bool _ _); [discriminate |]. destruct (Qle_bool _ _); discriminate.
Qed.

End RoundingMonotone.

(** ** Rounded values are representable *)

Section Representable.
Import Binary64.

Lemma round_unbounded_fix (v : Q) (k : Z) :
  v == inject_Z k * pow2 (ulp_exp v) -> round_unbounded v == v.
Proof.
  intros E. unfold round_unbounded.
  assert (D : v / pow2 (ulp_exp v) == inject_Z k).
  { apply Qle_antisym.
    - apply Qle_shift_div_r; [apply pow2_pos | rewrite <- E; apply Qle_refl].
    - apply Qle_shift_div_l; [apply pow2_pos | rewrite <- E; apply Qle_refl]. }
  rewrite (round_half_even_wd _ _ D), round_half_even_Z. now symmetry.
Qed.

Lemma significand_bounds (x : Q) :
  0 < x ->
  (0 <= round_half_even (x / pow2 (ulp_exp x)) <= 2 ^ 53)%Z.
Proof.
  intros Hx. assert (NZ : ~ x == 0) by lra.
  pose proof (ulp_exp_upper x NZ) as U. rewrite Qabs_pos in U by lra. split.
  - apply round_half_even_ge_Z. change (inject_Z 0) with 0.
    apply Qle_shift_div_l; [apply pow2_pos | lra].
  - apply round_half_even_le_Z. rewrite (pow2_Z 53) by lia.
    apply Qlt_le_weak, Qdiv_lt_bound; [apply pow2_pos |].
    rewrite <- pow2_add. now rewrite Z.add_comm.
Qed.

Lemma ulp_exp_of_small (v : Q) (e : Z) :
  (emin <= e)%Z -> 0 < v -> v < pow2 (e + 53) -> (ulp_exp v <= e)%Z.
Proof.
  intros He Hv U. assert (NZ : ~ v == 0) by lra.
  destruct (ulp_exp_lower v NZ) as [A | A]; [lia |].
  rewrite Qabs_pos in A by lra.
  destruct (Z.le_gt_cases (ulp_exp v) e) as [C | C]; [exact C | exfalso].
  assert (pow2 (e + 53) <= pow2 (ulp_exp v + 52)) by (apply pow2_le; lia). lra.
Qed.

Lemma ulp_exp_of_pow2 (v : Q) (e : Z) :
  (emin <= e)%Z -> v == pow2 (e + 53) -> ulp_exp v = (e + 1)%Z.
Proof.
  intros He E. unfold ulp_exp.
  assert (Hv : 0 < v) by (rewrite E; apply pow2_pos).
  rewrite (log2_floor_unique (Qabs v) (e + 53)).
  - lia.
  - rewrite Qabs_pos by lra. rewrite E. apply Qle_refl.
  - rewrite Qabs_pos by lra. rewrite E. apply pow2_lt. lia.
Qed.

Lemma round_unbounded_idem_pos (x : Q) :
  0 < x -> round_unbounded (round_unbounded x) == round_unbounded x.
Proof.
  intros Hx. destruct (significand_bounds x Hx) as [L U].
  pose proof (ulp_exp_min x) as He.
  set (v := round_unbounded x).
  assert (Ev : v == inject_Z (round_half_even (x / pow2 (ulp_exp x))) * pow2 (ulp_exp x))
    by reflexivity.
  set (m := round_half_even (x / pow2 (ulp_exp x))) in *.
  set (e := ulp_exp x) in *.
  pose proof (pow2_pos e) as Pe.
  destruct (Z.eq_dec m 0) as [M0 | M0].
  { assert (V0 : v == 0) by (rewrite Ev, M0; change (inject_Z 0) with 0; ring).
    transitivity 0; [now apply round_unbounded_zero | now symmetry]. }
  assert (Hv : 0 < v).
  { rewrite Ev. apply Qmult_lt_0_compat; [| exact Pe].
    change 0 with (inject_Z 0). rewrite <- Zlt_Qlt. lia. }
  destruct (Z.eq_dec m (2 ^ 53)) as [M | M].
  - assert (E : v == pow2 (e + 53)).
    { rewrite Ev, M, (pow2_Z 53) by lia. rewrite <- pow2_add. now rewrite Z.add_comm. }
    pose proof (ulp_exp_of_pow2 v e He E) as E'.
    apply (round_unbounded_fix v (2 ^ 52)). rewrite E', E, (pow2_Z 52) by lia.
    rewrite <- pow2_add. replace (52 + (e + 1))%Z with (e + 53)%Z by lia. reflexivity.
  - assert (Uv : v < pow2 (e + 53)).
    { rewrite Ev, Z.add_comm, pow2_add. apply Qmult_lt_compat_r; [exact Pe |].
      rewrite <- (pow2_Z 53) by lia. rewrite <- Zlt_Qlt. lia. }
    pose proof (ulp_exp_of_small v e He Hv Uv) as C.
    apply (round_unbounded_fix v (m * 2 ^ (e - ulp_exp v))).
    rewrite inject_Z_mult, (pow2_Z (e - ulp_exp v)) by lia.
    rewrite <- Qmult_assoc, <- pow2_add.
    replace (e - ulp_exp v + ulp_exp v)%Z with e by lia. exact Ev.
Qed.

Lemma round_unbounded_idem (x : Q) :
  round_unbounded (round_unbounded x) == round_unbounded x.
Proof.
  destruct (Qlt_le_dec 0 x) as [P | N].
  - now apply round_unbounded_idem_pos.
  - destruct (Qeq_dec x 0) as [Z0 | NZ].
    + pose proof (round_unbounded_zero x Z0) as V0.
      transitivity 0; [now apply round_unbounded_zero | now symmetry].
    + assert (P : 0 < - x).
      { apply Qle_lt_or_eq in N. destruct N as [N | N]; [lra | contradiction]. }
      pose proof (round_unbounded_idem_pos (- x) P) as A.
      assert (B : round_unbounded (round_unbounded (- x))
                  == - round_unbounded (round_unbounded x)).
      { rewrite <- round_unbounded_opp.
        apply Qle_antisym; apply round_unbounded_mono;
          rewrite round_unbounded_opp; apply Qle_refl. }
      rewrite B, round_unbounded_opp in A. lra.
Qed.

Lemma overflow_finite (v a : Q) : overflow v = Finite a -> a = Qred v.
Proof.
  unfold overflow. destruct (Qle_bool _ _); [discriminate |].
  destruct (Qle_bool _ _); [discriminate |]. now intros [= <-].
Qed.

Theorem rnd_representable (x : Q) : representable (rnd x).
Proof.
  destruct (rnd x) as [a | | |] eqn:E; simpl; trivial.
  rewrite rnd_overflow in E. pose proof (overflow_finite _ _ E) as A.
  rewrite rnd_overflow. rewrite <- E. apply overflow_wd.
  rewrite A.
  transitivity (round_unbounded (round_unbounded x)).
  - apply Qle_antisym; apply round_unbounded_mono; rewrite Qred_correct; apply Qle_refl.
  - apply round_unbounded_idem.
Qed.

Lemma representable_round (a : Q) : representable (Finite a) -> a == round_unbounded a.
Proof.
  simpl. rewrite rnd_overflow. intros E.
  apply overflow_finite in E. rewrite E at 1. apply Qred_correct.
Qed.

End Representable.

(** ** The float operations on representable values *)

Section FloatOps.
Import Binary64 Py.

#[local] Arguments Qred : simpl never.
#[local] Arguments rnd : simpl never.

Lemma rnd_zero : rnd 0 = Finite 0.
Proof. reflexivity. Qed.

Lemma fleb_finite (a b : Q) : fleb (Finite a) (Finite b) = true <-> a <= b.
Proof.
  unfold fleb, fcompare. destruct (Qcompare_spec a b) as [E | E | E]; split; intros H;
    try reflexivity; try discriminate; try lra.
Qed.

Lemma fltb_finite (a b : Q) : fltb (Finite a) (Finite b) = true <-> a < b.
Proof.
  unfold fltb, fcompare. destruct (Qcompare_spec a b) as [E | E | E]; split; intros H;
    try reflexivity; try discriminate; try lra.
Qed.

Lemma feqb_finite (a b : Q) : feqb (Finite a) (Finite b) = true <-> a == b.
Proof.
  unfold feqb, fcompare. destruct (Qcompare_spec a b) as [E | E | E]; split; intros H;
    try reflexivity; try discriminate; try lra.
Qed.

Lemma rnd_between (lo hi x : Q) :
  lo <= x -> x <= hi ->
  is_finite (rnd lo) = true -> is_finite (rnd hi) = true ->
  is_finite (rnd x) = true.
Proof.
  intros L U Fl Fh.
  pose proof (rnd_mono _ _ L) as A. pose proof (rnd_mono _ _ U) as B.
  pose proof (rnd_not_nan x) as N.
  destruct (rnd lo), (rnd hi), (rnd x); try discriminate; try reflexivity; congruence.
Qed.

Lemma overflow_opp (v : Q) : overflow (- v) = fneg (overflow v).
Proof.
  unfold overflow. pose proof (pow2_pos emax) as P.
  destruct (Qle_bool (pow2 emax) v) eqn:T1;
    destruct (Qle_bool v (- pow2 emax)) eqn:T2;
    destruct (Qle_bool (pow2 emax) (- v)) eqn:T3;
    destruct (Qle_bool (- v) (- pow2 emax)) eqn:T4;
    repeat match goal with
           | T : Qle_bool _ _ = true |- _ => apply Qle_bool_iff in T
           | T : Qle_bool ?a ?b = false |- _ =>
               assert (b < a) by (apply Qnot_le_lt; intros C; apply Qle_bool_iff in C; congruence);
               clear T
           end;
    try (exfalso; lra); try reflexivity.
  unfold fneg. f_equal. apply Qred_complete. now rewrite Qred_correct.
Qed.

Lemma rnd_opp (x : Q) : rnd (- x) = fneg (rnd x).
Proof.
  rewrite !rnd_overflow, <- overflow_opp. apply overflow_wd, round_unbounded_opp.
Qed.

Lemma representable_reduced (a : Q) : representable (Finite a) -> Qred a = a.
Proof.
  simpl. rewrite rnd_overflow. intros E. apply overflow_finite in E.
  rewrite E. apply Qred_complete, Qred_correct.
Qed.

Lemma representable_zero : representable zero.
Proof. reflexivity. Qed.

Lemma fneg_representable (x : float) : representable x -> representable (fneg x).
Proof.
  destruct x as [a | | |]; simpl; trivial. intros E.
  rewrite (rnd_wd _ (- a)) by apply Qred_correct.
  rewrite rnd_opp, E. reflexivity.
Qed.

Lemma fabs_representable (x : float) : representable x -> representable (fabs x).
Proof.
  destruct x as [a | | |]; simpl; trivial. intros E.
  destruct (Qlt_le_dec a 0) as [N | P].
  - assert (A : Qabs a == - a) by (apply Qabs_neg; lra).
    rewrite (Qred_complete _ _ A).
    apply (fneg_representable (Finite a) E).
  - assert (A : Qabs a == a) by (apply Qabs_pos; lra).
    rewrite (Qred_complete _ _ A), (representable_reduced a E). exact E.
Qed.

Lemma inf_of_sign_representable (c : comparison) : representable (inf_of_sign c).
Proof. destruct c; exact I. Qed.

Lemma fmul_representable (x y : float) : representable (fmul x y).
Proof.
  destruct x, y; simpl; trivial;
    try apply rnd_representable; try apply inf_of_sign_representable.
Qed.

Lemma fsub_representable (x y : float) : representable (fsub x y).
Proof. destruct x, y; simpl; trivial; apply rnd_representable. Qed.

Lemma fdiv_representable (x y v : float) : fdiv x y = Ok v -> representable v.
Proof.
  unfold fdiv. destruct y as [b | | |].
  - destruct (Qeq_bool b 0); [discriminate |].
    destruct x; intros [= <-]; try apply rnd_representable;
      try apply inf_of_sign_representable; exact I.
  - destruct x; intros [= <-]; try exact I; reflexivity.
  - destruct x; intros [= <-]; try exact I; reflexivity.
  - intros [= <-]. exact I.
Qed.

Lemma rnd_result_representable (x : Q) (v : Q) :
  rnd x = Finite v -> representable (Finite v).
Proof. intros E. rewrite <- E. apply rnd_representable. Qed.

Lemma of_int_representable (k : Z) (v : float) : of_int k = Ok v -> representable v.
Proof.
  unfold of_int. destruct (rnd (inject_Z k)) eqn:E; try discriminate.
  intros [= <-]. eapply rnd_result_representable; eassumption.
Qed.

Lemma int_mul_float_representable (k : Z) (x v : float) :
  int_mul_float k x = Ok v -> representable v.
Proof.
  unfold int_mul_float. destruct (of_int k); [| discriminate].
  intros [= <-]. apply fmul_representable.
Qed.

Lemma py_round_representable (x : float) (n : Z) (v : float) :
  representable x -> py_round x n = Ok v -> representable v.
Proof.
  intros R. unfold py_round. destruct x as [a | | |]; try (intros [= <-]; exact I).
  destruct (NDIGITS_MAX <? n)%Z; [intros [= <-]; exact R |].
  destruct (n <? NDIGITS_MIN)%Z; [intros [= <-]; reflexivity |].
  destruct (rnd (round_decimal a n)) eqn:E; try discriminate.
  intros [= <-]. eapply rnd_result_representable; eassumption.
Qed.

(** *** [round(x, ndigits)] with [0 <= ndigits] never overflows *)

Lemma pow10_pos (n : Z) : 0 < pow10 n.
Proof. apply Qpower_0_lt. reflexivity. Qed.

Lemma pow10_Z (n : Z) : (0 <= n)%Z -> inject_Z (10 ^ n) == pow10 n.
Proof. intros H. unfold pow10. now rewrite Zpower_Qpower. Qed.

Lemma pow10_ge_1 (n : Z) : (0 <= n)%Z -> 1 <= pow10 n.
Proof.
  intros H. change 1 with (pow10 0). apply Qpower_le_compat_l; [exact H | discriminate].
Qed.

Lemma round_decimal_near (a : Q) (n : Z) :
  Qabs (round_decimal a n - a) <= (1 # 2) / pow10 n.
Proof.
  unfold round_decimal. pose proof (pow10_pos n) as P.
  pose proof (round_half_even_near (a * pow10 n)) as [L U].
  set (m := inject_Z (round_half_even (a * pow10 n))) in *.
  assert (E : m / pow10 n - a == (m - a * pow10 n) / pow10 n).
  { field. lra. }
  rewrite E. apply Qabs_case; intros _.
  - apply Qdiv_le_pos; [exact P | lra].
  - setoid_replace (- ((m - a * pow10 n) / pow10 n)) with ((a * pow10 n - m) / pow10 n)
      by (field; lra).
    apply Qdiv_le_pos; [exact P | lra].
Qed.

Lemma round_decimal_integer (k n : Z) :
  (0 <= n)%Z -> round_decimal (inject_Z k) n == inject_Z k.
Proof.
  intros H. unfold round_decimal. pose proof (pow10_pos n) as P.
  assert (E : inject_Z k * pow10 n == inject_Z (k * 10 ^ n)).
  { rewrite inject_Z_mult, pow10_Z by exact H. reflexivity. }
  rewrite (round_half_even_wd _ _ E), round_half_even_Z, inject_Z_mult, pow10_Z by exact H.
  field. lra.
Qed.

Lemma round_decimal_wd (a b : Q) (n : Z) : a == b -> round_decimal a n == round_decimal b n.
Proof.
  intros E. unfold round_decimal.
  assert (E' : a * pow10 n == b * pow10 n) by (now rewrite E).
  now rewrite (round_half_even_wd _ _ E').
Qed.

(** A representable value of magnitude at least [2^53] is an integer. *)
Lemma representable_large_integer (a : Q) :
  representable (Finite a) -> pow2 53 <= Qabs a -> exists k, a == inject_Z k.
Proof.
  intros R L. pose proof (representable_round a R) as E.
  assert (NZ : ~ a == 0).
  { intros Z0. rewrite Z0 in L. pose proof (pow2_pos 53). simpl in L. lra. }
  pose proof (ulp_exp_upper a NZ) as U.
  assert (He : (0 <= ulp_exp a)%Z).
  { destruct (Z.le_gt_cases 0 (ulp_exp a)) as [C | C]; [exact C | exfalso].
    assert (pow2 (ulp_exp a + 53) <= pow2 53) by (apply pow2_le; lia). lra. }
  exists (round_half_even (a / pow2 (ulp_exp a)) * 2 ^ ulp_exp a)%Z.
  rewrite inject_Z_mult, pow2_Z by exact He. exact E.
Qed.

Lemma py_round_returns (x : float) (n : Z) :
  representable x -> (0 <= n)%Z -> exists v, py_round x n = Ok v.
Proof.
  intros R Hn. unfold py_round. destruct x as [a | | |]; try (eexists; reflexivity).
  destruct (NDIGITS_MAX <? n)%Z; [eexists; reflexivity |].
  destruct (n <? NDIGITS_MIN)%Z; [eexists; reflexivity |].
  assert (F : is_finite (rnd (round_decimal a n)) = true).
  { destruct (Qlt_le_dec (Qabs a) (pow2 53)) as [S | L].
    - pose proof (round_decimal_near a n) as N.
      assert (B : (1 # 2) / pow10 n <= 1 # 2).
      { apply Qle_shift_div_r; [apply pow10_pos |].
        pose proof (pow10_ge_1 n Hn). lra. }
      assert (D : Qabs (round_decimal a n - a) <= 1 # 2) by lra.
      apply Qabs_Qle_condition in D. destruct D as [D1 D2].
      assert (A : - pow2 53 < a /\ a < pow2 53).
      { apply Qabs_Qlt_condition. exact S. }
      destruct A as [A1 A2].
      apply (rnd_between (- pow2 54) (pow2 54)); try reflexivity.
      + change (pow2 54) with (2 * pow2 53).
        pose proof (pow2_le 0 53 ltac:(lia)) as P1. change (pow2 0) with 1 in P1. lra.
      + change (pow2 54) with (2 * pow2 53).
        pose proof (pow2_le 0 53 ltac:(lia)) as P1. change (pow2 0) with 1 in P1. lra.
    - destruct (representable_large_integer a R L) as [k E].
      assert (E' : round_decimal a n == a).
      { rewrite (round_decimal_wd _ _ n E), round_decimal_integer by exact Hn.
        now symmetry. }
      rewrite (rnd_wd _ _ E'). simpl in R. rewrite R. reflexivity. }
  destruct (rnd (round_decimal a n)); try discriminate. eexists; reflexivity.
Qed.

End FloatOps.

(** ** Signs and monotonicity of the float operations *)

Section Order.
Import Binary64 Py Facts.

#[local] Arguments Qred : simpl never.
#[local] Arguments rnd : simpl never.

Lemma fcompare_antisym (x y : float) :
  fcompare y x = match fcompare x y with Some c => Some (CompOpp c) | None => None end.
Proof.
  destruct x as [a | | |], y as [b | | |]; simpl; try reflexivity.
  now rewrite (Qcompare_antisym a b).
Qed.

Lemma above_not_below (x y : float) : fltb x y = true -> fltb y x = false.
Proof.
  unfold fltb. rewrite (fcompare_antisym x y).
  destruct (fcompare x y) as [[| |] |]; simpl; congruence.
Qed.

Lemma equal_not_below (x y : float) : feqb x y = true -> fltb x y = false /\ fltb y x = false.
Proof.
  unfold feqb, fltb. rewrite (fcompare_antisym x y).
  destruct (fcompare x y) as [[| |] |]; simpl; split; congruence.
Qed.

Lemma fleb_not_fltb (x y : float) : fleb x y = true -> fltb y x = false.
Proof.
  unfold fleb, fltb. rewrite (fcompare_antisym x y).
  destruct (fcompare x y) as [[| |] |]; simpl; congruence.
Qed.

Lemma not_fltb_fleb (x y : float) :
  x <> NaN -> y <> NaN -> fltb y x = false -> fleb x y = true.
Proof.
  unfold fleb, fltb. rewrite (fcompare_antisym x y). intros Nx Ny.
  destruct x, y; simpl in *; try congruence;
    destruct (Qcompare _ _); simpl; congruence.
Qed.


Lemma rnd_nonneg (x : Q) : 0 <= x -> fleb zero (rnd x) = true.
Proof. intros H. unfold zero. rewrite <- rnd_zero. now apply rnd_mono. Qed.

Lemma rnd_nonpos (x : Q) : x <= 0 -> fleb (rnd x) zero = true.
Proof. intros H. unfold zero. rewrite <- rnd_zero. now apply rnd_mono. Qed.

Lemma rnd_of_zero (x : Q) : x == 0 -> rnd x = zero.
Proof. intros E. rewrite (rnd_wd _ _ E). reflexivity. Qed.

Lemma fltb_zero_finite (a : Q) : fltb (Finite a) zero = false <-> 0 <= a.
Proof.
  unfold fltb, zero, fcompare. destruct (Qcompare_spec a 0); split; intros;
    try reflexivity; try discriminate; try lra.
Qed.

Lemma fltb_zero_pos (a : Q) : fltb zero (Finite a) = true <-> 0 < a.
Proof. apply fltb_finite. Qed.


(** *** Signs *)

Lemma fmul_not_negative (x y : float) :
  fltb x zero = false -> fltb y zero = false -> fltb (fmul x y) zero = false.
Proof.
  destruct x as [a | | |], y as [b | | |]; simpl; intros Hx Hy;
    try reflexivity; try discriminate.
  - apply fltb_zero_finite in Hx, Hy. apply fleb_not_fltb, rnd_nonneg.
    now apply Qmult_le_0_compat.
  - apply fltb_zero_finite in Hx. destruct (Qcompare_spec a 0); try reflexivity. lra.
  - apply fltb_zero_finite in Hy. destruct (Qcompare_spec b 0); try reflexivity. lra.
Qed.

Lemma of_int_not_negative (k : Z) (f : float) :
  (0 <= k)%Z -> of_int k = Ok f -> fltb f zero = false.
Proof.
  intros Hk. unfold of_int.
  assert (A : fleb zero (rnd (inject_Z k)) = true).
  { apply rnd_nonneg. change 0 with (inject_Z 0). now rewrite <- Zle_Qle. }
  destruct (rnd (inject_Z k)); try discriminate. intros [= <-].
  now apply fleb_not_fltb.
Qed.

Lemma of_int_returns (k : Z) :
  (- 2 ^ 1023 <= k <= 2 ^ 1023)%Z -> exists f, of_int k = Ok f.
Proof.
  intros [L U]. unfold of_int.
  assert (F : is_finite (rnd (inject_Z k)) = true).
  { apply (rnd_between (inject_Z (- 2 ^ 1023)) (inject_Z (2 ^ 1023))).
    - now rewrite <- Zle_Qle.
    - now rewrite <- Zle_Qle.
    - vm_compute. reflexivity.
    - vm_compute. reflexivity. }
  destruct (rnd (inject_Z k)); try discriminate. eexists; reflexivity.
Qed.

Lemma fdiv_not_negative (x y v : float) :
  fltb x zero = false -> fltb zero y = true -> fdiv x y = Ok v ->
  fltb v zero = false.
Proof.
  unfold fdiv. destruct y as [b | | |]; intros Hx Hy; try discriminate.
  - apply fltb_zero_pos in Hy.
    destruct (Qeq_bool b 0); [discriminate |].
    destruct x as [a | | |]; intros [= <-]; try reflexivity; try discriminate.
    + apply fltb_zero_finite in Hx. apply fleb_not_fltb, rnd_nonneg.
      apply Qle_shift_div_l; [exact Hy | lra].
    + simpl. destruct (Qcompare_spec b 0); try reflexivity. lra.
  - destruct x; intros [= <-]; reflexivity.
Qed.

Lemma fdiv_returns (x y : float) : feqb y zero = false -> exists v, fdiv x y = Ok v.
Proof.
  unfold fdiv. destruct y as [b | | |]; intros H.
  - assert (NZ : Qeq_bool b 0 = false).
    { destruct (Qeq_bool b 0) eqn:E; [| reflexivity].
      apply Qeq_bool_iff in E. apply feqb_finite in E. unfold zero in H. congruence. }
    rewrite NZ. destruct x; eexists; reflexivity.
  - destruct x; eexists; reflexivity.
  - destruct x; eexists; reflexivity.
  - eexists; reflexivity.
Qed.

Lemma round_decimal_nonneg (a : Q) (n : Z) : 0 <= a -> 0 <= round_decimal a n.
Proof.
  intros H. unfold round_decimal. pose proof (pow10_pos n) as P.
  apply Qle_shift_div_l; [exact P |]. rewrite Qmult_0_l.
  change 0 with (inject_Z 0). rewrite <- Zle_Qle.
  apply round_half_even_ge_Z. change (inject_Z 0) with 0.
  apply Qmult_le_0_compat; lra.
Qed.


Lemma py_round_not_negative (x : float) (n : Z) (v : float) :
  fltb x zero = false -> py_round x n = Ok v -> fltb v zero = false.
Proof.
  intros Hx. unfold py_round. destruct x as [a | | |]; try (intros [= <-]; exact Hx).
  destruct (NDIGITS_MAX <? n)%Z; [intros [= <-]; exact Hx |].
  destruct (n <? NDIGITS_MIN)%Z; [intros [= <-]; reflexivity |].
  apply fltb_zero_finite in Hx.
  pose proof (rnd_nonneg _ (round_decimal_nonneg a n Hx)) as A.
  destruct (rnd (round_decimal a n)); try discriminate. intros [= <-].
  now apply fleb_not_fltb.
Qed.

Lemma py_round_zero (n : Z) : py_round zero n = Ok zero.
Proof.
  unfold py_round, zero.
  destruct (NDIGITS_MAX <? n)%Z; [reflexivity |].
  destruct (n <? NDIGITS_MIN)%Z; [reflexivity |].
  assert (E : round_decimal 0 n == 0).
  { unfold round_decimal.
    assert (E0 : 0 * pow10 n == inject_Z 0) by (change (inject_Z 0) with 0; ring).
    rewrite (round_half_even_wd _ _ E0), round_half_even_Z.
    unfold Qdiv. change (inject_Z 0) with 0. ring. }
  rewrite (rnd_of_zero _ E). reflexivity.
Qed.

(** *** Monotonicity *)




















End Order.

(** ** Rounding returns a nearest binary64 value *)

Section Nearest.
Import Binary64 Py.

#[local] Arguments Qred : simpl never.
#[local] Arguments rnd : simpl never.

Lemma round_half_even_nearest (y : Q) (k : Z) :
  Qabs (y - inject_Z (round_half_even y)) <= Qabs (y - inject_Z k).
Proof.
  pose proof (round_half_even_near y) as [L U].
  set (m := round_half_even y) in *.
  destruct (Z.eq_dec k m) as [-> | NE]; [apply Qle_refl |].
  assert (A : Qabs (y - inject_Z m) <= 1 # 2).
  { apply Qabs_Qle_condition. split; lra. }
  assert (B : 1 # 2 <= Qabs (y - inject_Z k)).
  { destruct (Z.lt_trichotomy k m) as [C | [C | C]]; [| contradiction |].
    - assert (D : inject_Z k + 1 <= inject_Z m).
      { change 1 with (inject_Z 1). rewrite <- inject_Z_plus, <- Zle_Qle. lia. }
      eapply Qle_trans; [| apply Qle_Qabs]. lra.
    - assert (D : inject_Z m + 1 <= inject_Z k).
      { change 1 with (inject_Z 1). rewrite <- inject_Z_plus, <- Zle_Qle. lia. }
      rewrite <- Qabs_opp. eapply Qle_trans; [| apply Qle_Qabs]. lra. }
  lra.
Qed.

(** Among the multiples of the last place, the rounded value is nearest. *)
Lemma round_unbounded_nearest_multiple (x : Q) (k : Z) :
  Qabs (x - round_unbounded x) <= Qabs (x - inject_Z k * pow2 (ulp_exp x)).
Proof.
  unfold round_unbounded. set (e := ulp_exp x). pose proof (pow2_pos e) as P.
  set (m := round_half_even (x / pow2 e)).
  assert (E : forall j : Z,
             x - inject_Z j * pow2 e == (x / pow2 e - inject_Z j) * pow2 e).
  { intros j. field. lra. }
  rewrite (E m), (E k), !Qabs_Qmult, (Qabs_pos (pow2 e)) by lra.
  apply Qmult_le_compat_r; [| lra]. apply round_half_even_nearest.
Qed.

(** A representable value in the binade of [x] or above is a multiple of
    the last place of [x]. *)
Lemma representable_multiple (w : Q) (e : Z) :
  representable (Finite w) -> (e <= ulp_exp w)%Z ->
  exists k, w == inject_Z k * pow2 e.
Proof.
  intros R H. pose proof (representable_round w R) as E.
  exists (round_half_even (w / pow2 (ulp_exp w)) * 2 ^ (ulp_exp w - e))%Z.
  rewrite inject_Z_mult, (pow2_Z (ulp_exp w - e)) by lia.
  rewrite <- Qmult_assoc, <- pow2_add.
  replace (ulp_exp w - e + e)%Z with (ulp_exp w) by lia. exact E.
Qed.

Lemma round_unbounded_nearest_pos (x w : Q) :
  0 < x -> representable (Finite w) ->
  Qabs (x - round_unbounded x) <= Qabs (x - w).
Proof.
  intros Hx R. assert (NZ : ~ x == 0) by lra.
  destruct (Z.le_gt_cases (ulp_exp x) (ulp_exp w)) as [C | C].
  - destruct (representable_multiple w (ulp_exp x) R C) as [k E].
    rewrite E. apply round_unbounded_nearest_multiple.
  - (* [w] lies below the binade of [x] *)
    destruct (ulp_exp_lower x NZ) as [A | A].
    { pose proof (ulp_exp_min w). lia. }
    rewrite Qabs_pos in A by lra.
    assert (B : Qabs w < pow2 (ulp_exp x + 52)).
    { destruct (Qeq_dec w 0) as [Z0 | NZw].
      - rewrite Z0. apply pow2_pos.
      - eapply Qlt_le_trans; [apply ulp_exp_upper; exact NZw |].
        apply pow2_le. lia. }
    assert (B' : w < pow2 (ulp_exp x + 52)).
    { eapply Qle_lt_trans; [apply Qle_Qabs | exact B]. }
    eapply Qle_trans.
    + apply (round_unbounded_nearest_multiple x (2 ^ 52)).
    + rewrite (pow2_Z 52), <- pow2_add by lia.
      replace (52 + ulp_exp x)%Z with (ulp_exp x + 52)%Z by lia.
      rewrite (Qabs_pos (x - pow2 (ulp_exp x + 52))) by lra.
      eapply Qle_trans; [| apply Qle_Qabs]. lra.
Qed.

(** No binary64 value is nearer to [x] than the value [x] rounds to. *)
Theorem round_unbounded_nearest (x w : Q) :
  representable (Finite w) -> Qabs (x - round_unbounded x) <= Qabs (x - w).
Proof.
  intros R. destruct (Qlt_le_dec 0 x) as [P | N].
  - now apply round_unbounded_nearest_pos.
  - destruct (Qeq_dec x 0) as [Z0 | NZ].
    + rewrite (Qabs_wd _ 0); [apply Qabs_nonneg |].
      rewrite (round_unbounded_zero x Z0), Z0. ring.
    + assert (P : 0 < - x).
      { apply Qle_lt_or_eq in N. destruct N as [N | N]; [lra | contradiction]. }
      pose proof (fneg_representable (Finite w) R) as R'. simpl in R'.
      pose proof (round_unbounded_nearest_pos (- x) (Qred (- w)) P R') as A.
      rewrite round_unbounded_opp, Qred_correct in A.
      rewrite <- (Qabs_opp (x - round_unbounded x)), <- (Qabs_opp (x - w)).
      setoid_replace (- (x - round_unbounded x)) with (- x - - round_unbounded x) by ring.
      setoid_replace (- (x - w)) with (- x - - w) by ring. exact A.
Qed.

Theorem rnd_nearest (x v w : Q) :
  rnd x = Finite v -> representable (Finite w) -> Qabs (x - v) <= Qabs (x - w).
Proof.
  intros E R. rewrite rnd_overflow in E. apply overflow_finite in E.
  rewrite E, Qred_correct. now apply round_unbounded_nearest.
Qed.

End Nearest.

(** ** Agreement with the Standard Library's IEEE 754 arithmetic *)

Section ReferenceArithmetic.
Import Binary64 Py Reference.

(** Product, sum, difference and quotient of any two of the scenario
    operands are the values [SpecFloat] computes in binary64. *)
Example binary64_agrees_with_SpecFloat :
  forallb (fun x => forallb (agree x) operands) operands = true.
Proof. vm_compute. reflexivity. Qed.

(** Familiar values: 0.7 / 0.1 is below 7, and [round] works on the
    binary value of its argument. *)
Example seven_tenths_by_one_tenth :
  fdiv (lit 7 10) (lit 1 10) = Ok (Finite (7881299347898367 # 1125899906842624)).
Proof. vm_compute. reflexivity. Qed.

Example round_2675_to_cents : py_round (lit 2675 1000) 2 = Ok (lit 267 100).
Proof. vm_compute. reflexivity. Qed.

Example round_half_to_even : py_round (lit 125 1000) 2 = Ok (lit 12 100).
Proof. vm_compute. reflexivity. Qed.

End ReferenceArithmetic.

(** ** Running the sizing methods *)

Section SizingRuns.
Import Binary64 Py Data Monad Bot Sizing.

Context {W : Type} {exchange : Exchange W} {libs : PyLibs}.
Variable self : FuturesBot.

#[local] Arguments Qred : simpl never.
#[local] Arguments rnd : simpl never.
#[local] Arguments py_round : simpl never.
#[local] Arguments String.eqb : simpl never.

Lemma floor_to_step_representable (quantity step_size : float) (p : option Z) (v : float) :
  floor_to_step quantity step_size p = Ok v -> representable v.
Proof.
  unfold floor_to_step.
  destruct (fdiv quantity step_size) as [ratio |]; [| discriminate].
  destruct (math_floor ratio) as [k |]; [| discriminate].
  destruct (int_mul_float k step_size) as [r |] eqn:E; [| discriminate].
  pose proof (int_mul_float_representable _ _ _ E) as R.
  destruct p as [p |].
  - apply py_round_representable, R.
  - destruct (math_log step_size (lit 10 1)) as [l |]; [| discriminate].
    destruct (py_round (fneg l) 0) as [r0 |]; [| discriminate].
    destruct (int_of_float r0) as [precision |]; [| discriminate].
    apply py_round_representable, R.
Qed.

Lemma rounding_attempt_representable (info : option symbol_info) (quantity v : float) :
  representable quantity -> rounding_attempt self info quantity = Ok v -> representable v.
Proof.
  intros R. unfold rounding_attempt. destruct info as [info |]; [| discriminate].
  destruct (lot_step_size info) as [step_size |].
  - apply floor_to_step_representable.
  - apply py_round_representable, R.
Qed.

Lemma normalized_returns (answer : result (option symbol_info)) (quantity : float) :
  representable quantity ->
  exists v, normalized self answer quantity = Ok v /\ representable v.
Proof.
  intros R. destruct (py_round_returns quantity 3 R ltac:(lia)) as [v3 E3].
  pose proof (py_round_representable _ _ _ R E3) as R3.
  unfold normalized. destruct answer as [info | e].
  - destruct (rounding_attempt self info quantity) as [v | e] eqn:E.
    + exists v. split; [reflexivity |].
      exact (rounding_attempt_representable info quantity v R E).
    + exists v3. now split.
  - exists v3. now split.
Qed.

(** [round_quantity] makes one call and writes one row; its value is
    [normalized] at the exchange's answer. *)
Lemma round_quantity_run (quantity : float) (s : state W)
    (answer : result (option symbol_info)) (w : W) :
  get_symbol_info (symbol self) (session s) = (answer, w) ->
  exists r,
    round_quantity self quantity s =
      (normalized self answer quantity,
       {| session := w;
          journal := journal s ++ [CallSymbolInfo (symbol self)];
          csv := csv s ++ [r] |}).
Proof.
  intros A. unfold round_quantity, try_except, bind, invoke, normalized, rounding_attempt.
  rewrite A. destruct answer as [[info |] | e]; simpl.
  - destruct (lot_step_size info) as [step_size |]; unfold lift, bind, log, ret; simpl.
    + destruct (floor_to_step quantity step_size (symbol_precision self info)) as [v | e];
        simpl; [eexists; reflexivity |].
      destruct (py_round quantity 3); eexists; reflexivity.
    + destruct (py_round quantity
                  match symbol_precision self info with Some p => p | None => 3%Z end)
        as [v | e]; simpl; [eexists; reflexivity |].
      destruct (py_round quantity 3); eexists; reflexivity.
  - unfold lift, bind, log, ret; simpl. destruct (py_round quantity 3); eexists; reflexivity.
  - unfold lift, bind, log, ret; simpl. destruct (py_round quantity 3); eexists; reflexivity.
Qed.

Lemma round_quantity_returns (quantity : float) (s : state W) :
  representable quantity ->
  exists v r,
    round_quantity self quantity s =
      (Ok v,
       {| session := snd (get_symbol_info (symbol self) (session s));
          journal := journal s ++ [CallSymbolInfo (symbol self)];
          csv := csv s ++ [r] |})
    /\ normalized self (fst (get_symbol_info (symbol self) (session s))) quantity = Ok v
    /\ representable v.
Proof.
  intros R.
  destruct (get_symbol_info (symbol self) (session s)) as [answer w] eqn:A.
  destruct (round_quantity_run quantity s answer w A) as [r E].
  destruct (normalized_returns answer quantity R) as [v [N Rv]].
  exists v, r. simpl. rewrite E, N. auto.
Qed.

Lemma get_available_balance_run (s : state W)
    (answer : result (list asset_balance)) (w : W) :
  futures_account_balance (session s) = (answer, w) ->
  exists rows,
    get_available_balance s =
      (Ok (available answer),
       {| session := w; journal := journal s ++ [CallAccountBalance];
          csv := csv s ++ rows |}).
Proof.
  intros A. unfold get_available_balance, try_except, bind, invoke, available.
  rewrite A. destruct answer as [data | e]; simpl.
  - exists []. rewrite app_nil_r.
    destruct (find _ data); reflexivity.
  - eexists. unfold log, ret. simpl. reflexivity.
Qed.

(** [calculate_order_quantity] returns [sized] at the exchange's answers. *)
Lemma calculate_order_quantity_value (entry_price : float) (s : state W)
    (cash : result (list asset_balance)) (w1 : W)
    (answer : result (option symbol_info)) (w2 : W) :
  futures_account_balance (session s) = (cash, w1) ->
  get_symbol_info (symbol self) w1 = (answer, w2) ->
  fst (calculate_order_quantity self entry_price s)
  = sized self (available cash) answer entry_price.
Proof.
  intros A B. unfold calculate_order_quantity, bind.
  destruct (get_available_balance_run s cash w1 A) as [rows E]. rewrite E.
  unfold sized, raw_quantity, lift.
  destruct (float_mul_int _ _) as [exposure |]; [| reflexivity].
  destruct (fdiv exposure entry_price) as [quantity |]; [| reflexivity].
  match goal with |- context [round_quantity self quantity ?s1] =>
    destruct (round_quantity_run quantity s1 answer w2 B) as [r E'] end.
  rewrite E'. reflexivity.
Qed.

Lemma calculate_order_quantity_run (entry_price : float) (s : state W) :
  exists s',
    calculate_order_quantity self entry_price s =
      (sized self
         (available (fst (futures_account_balance (session s))))
         (fst (get_symbol_info (symbol self) (snd (futures_account_balance (session s)))))
         entry_price, s')
    /\ submissions (journal s') = submissions (journal s)
    /\ cancellations (journal s') = cancellations (journal s).
Proof.
  destruct (futures_account_balance (session s)) as [cash w1] eqn:A.
  destruct (get_symbol_info (symbol self) w1) as [answer w2] eqn:B.
  unfold calculate_order_quantity, bind.
  destruct (get_available_balance_run s cash w1 A) as [rows E]. rewrite E.
  unfold sized, raw_quantity, lift. simpl fst. simpl snd. rewrite B. simpl fst.
  destruct (float_mul_int _ _) as [exposure |].
  - destruct (fdiv exposure entry_price) as [quantity |].
    + match goal with |- context [round_quantity self quantity ?s1] =>
        destruct (round_quantity_run quantity s1 answer w2 B) as [r E'] end.
      rewrite E'. eexists. split; [reflexivity |]. simpl.
      unfold submissions, cancellations. rewrite !flat_map_app. simpl.
      rewrite !app_nil_r. auto.
    + eexists. split; [reflexivity |]. simpl.
      unfold submissions, cancellations. rewrite !flat_map_app. simpl.
      rewrite !app_nil_r. auto.
  - eexists. split; [reflexivity |]. simpl.
    unfold submissions, cancellations. rewrite !flat_map_app. simpl.
    rewrite !app_nil_r. auto.
Qed.

End SizingRuns.

(** ** Protective orders and conflicting stop orders *)

Lemma submissions_app (j1 j2 : list Data.call) :
  Bot.submissions (j1 ++ j2) = Bot.submissions j1 ++ Bot.submissions j2.
Proof. apply flat_map_app. Qed.

Lemma cancellations_app (j1 j2 : list Data.call) :
  Bot.cancellations (j1 ++ j2) = Bot.cancellations j1 ++ Bot.cancellations j2.
Proof. apply flat_map_app. Qed.

Ltac journal_solve :=
  simpl; rewrite ?submissions_app, ?cancellations_app; simpl;
  rewrite ?app_nil_r, <- ?app_assoc; simpl; rewrite ?app_nil_r; reflexivity.

Section Orders.
Import Binary64 Py Data Monad Bot Sizing.
Local Open Scope string_scope.
Local Open Scope list_scope.

Context {W : Type} {exchange : Exchange W} {libs : PyLibs}.
Variable self : FuturesBot.

#[local] Arguments Qred : simpl never.
#[local] Arguments rnd : simpl never.
#[local] Arguments py_round : simpl never.
#[local] Arguments String.eqb : simpl never.
#[local] Arguments lit : simpl never.

Lemma callback_rates_decrease : fltb (lit 5 10) (lit 1 1) = true.
Proof. vm_compute. reflexivity. Qed.

(** C6. [place_trailing_stop] submits once when the first submission is
    accepted; after a first rejection (a [BinanceAPIException]) it retries
    exactly once, with the smaller callback rate 0.5 instead of 1.0, and
    returns the second order when that one is accepted; when both are
    rejected it returns [None] after exactly two submissions. *)
Theorem place_trailing_stop_retries_once (sg : signal) (quantity : float) (s : state W) :
  representable quantity ->
  exists (q : float) (s1 : state W),
    round_quantity self quantity s = (Ok q, s1) /\
    submissions (journal s1) = submissions (journal s) /\
    let first := trailing_request self sg q (lit 1 1) in
    let second := trailing_request self sg q (lit 5 10) in
    (exists c1 c2, rq_callbackRate first = Some c1 /\ rq_callbackRate second = Some c2
                   /\ fltb c2 c1 = true) /\
    (forall o w,
        futures_create_order first (session s1) = (Ok o, w) ->
        exists s', place_trailing_stop self sg quantity s = (Ok (Some o), s') /\
                   submissions (journal s') = submissions (journal s) ++ [first]) /\
    (forall m w o2 w2,
        futures_create_order first (session s1) = (Raise (BinanceAPIException m), w) ->
        futures_create_order second w = (Ok o2, w2) ->
        exists s', place_trailing_stop self sg quantity s = (Ok (Some o2), s') /\
                   submissions (journal s') = submissions (journal s) ++ [first; second]) /\
    (forall m w m2 w2,
        futures_create_order first (session s1) = (Raise (BinanceAPIException m), w) ->
        futures_create_order second w = (Raise (BinanceAPIException m2), w2) ->
        exists s', place_trailing_stop self sg quantity s = (Ok None, s') /\
                   submissions (journal s') = submissions (journal s) ++ [first; second]).
Proof.
  intros R. destruct (round_quantity_returns self quantity s R) as (q & r & E & _ & _).
  eexists q, _. split; [exact E |]. split.
  { journal_solve. }
  split; [| split; [| split]].
  - exists (lit 1 1), (lit 5 10).
    split; [reflexivity | split; [reflexivity | exact callback_rates_decrease]].
  - intros o w A. simpl in A.
    unfold place_trailing_stop, bind. rewrite E.
    unfold try_except_api, bind, invoke, log, ret. simpl. rewrite A. simpl.
    eexists. split; [reflexivity | journal_solve].
  - intros m w o2 w2 A B. simpl in A.
    unfold place_trailing_stop, bind. rewrite E.
    unfold try_except_api, bind, invoke, log, ret. simpl. rewrite A. simpl. rewrite B. simpl.
    eexists. split; [reflexivity | journal_solve].
  - intros m w m2 w2 A B. simpl in A.
    unfold place_trailing_stop, bind. rewrite E.
    unfold try_except_api, bind, invoke, log, ret. simpl. rewrite A. simpl. rewrite B. simpl.
    eexists. split; [reflexivity | journal_solve].
Qed.

Lemma py_round_raises (x : float) (n : Z) (e : exn) :
  py_round x n = Raise e -> e = OverflowError.
Proof.
  unfold py_round. destruct x as [a | | |]; try discriminate.
  destruct (NDIGITS_MAX <? n)%Z; [discriminate |].
  destruct (n <? NDIGITS_MIN)%Z; [discriminate |].
  destruct (rnd (round_decimal a n)); try discriminate; now intros [= <-].
Qed.

Lemma round_quantity_raises (quantity : float) (s : state W) (e : exn) :
  fst (round_quantity self quantity s) = Raise e -> e = OverflowError.
Proof.
  destruct (get_symbol_info (symbol self) (session s)) as [answer w] eqn:A.
  destruct (round_quantity_run self quantity s answer w A) as [r E]. rewrite E. simpl.
  unfold normalized. destruct answer as [info | e0].
  - destruct (rounding_attempt self info quantity); [discriminate |]. apply py_round_raises.
  - apply py_round_raises.
Qed.

(** What [place_trailing_stop] raises is no [BinanceAPIException]. *)
Lemma place_trailing_stop_raises (sg : signal) (quantity : float) (s s2 : state W)
    (e : exn) :
  place_trailing_stop self sg quantity s = (Raise e, s2) -> is_api_exception e = false.
Proof.
  unfold place_trailing_stop, bind.
  destruct (round_quantity self quantity s) as [[v | e0] s1] eqn:R.
  - unfold try_except_api, bind, invoke, log, ret.
    destruct (futures_create_order (trailing_request self sg v (lit 1 1)) (session s1))
      as [[o | e1] w1]; simpl; [discriminate |].
    destruct (is_api_exception e1) eqn:A1; simpl; [| now intros [= <- _]].
    destruct (futures_create_order (trailing_request self sg v (lit 5 10)) w1)
      as [[o | e2] w2]; simpl; [discriminate |].
    destruct (is_api_exception e2) eqn:A2; simpl; [discriminate | now intros [= <- _]].
  - intros [= <- _].
    pose proof (round_quantity_raises quantity s e0) as H. rewrite R in H.
    now rewrite (H eq_refl).
Qed.

(** C10 (amended). With no trailing order listed, the row "Trailing stop
    action / Trailing stop colocado exitosamente." is written exactly when
    [place_trailing_stop] returns, right after it and whatever it returns:
    also when both submissions were rejected by the API and it returned
    [None].  When [place_trailing_stop] raises, which it does for any
    exception of a submission that is not a [BinanceAPIException], the
    exception leaves [check_and_place_trailing_stop] and no row follows. *)
Theorem success_row_follows_every_return (sg : signal) (quantity : float)
    (s : state W) (orders : list order) (w : W) :
  futures_get_open_orders (symbol self) (session s) = (Ok orders, w) ->
  existsb is_trailing orders = false ->
  let checked :=
    {| session := w;
       journal := journal s ++ [CallOpenOrders (symbol self)];
       csv := csv s ++ [ {| event := "Trailing stop check";
                            details := [Text "No se encontró trailing stop. Colocando uno."] |} ] |} in
  let success := {| event := "Trailing stop action";
                    details := [Text "Trailing stop colocado exitosamente."] |} in
  (forall placed s2,
      place_trailing_stop self sg quantity checked = (Ok placed, s2) ->
      check_and_place_trailing_stop self sg quantity s =
        (Ok tt, {| session := session s2; journal := journal s2;
                   csv := csv s2 ++ [success] |})) /\
  (forall e s2,
      place_trailing_stop self sg quantity checked = (Raise e, s2) ->
      is_api_exception e = false /\
      check_and_place_trailing_stop self sg quantity s = (Raise e, s2)) /\
  (forall q s1,
      round_quantity self quantity checked = (Ok q, s1) ->
      let first := trailing_request self sg q (lit 1 1) in
      let second := trailing_request self sg q (lit 5 10) in
      let retrying := {| event := "Retrying trailing stop";
                         details := [Text "Intento de reenvío con cantidad: "; Num q] |} in
      (forall e1 w1 e2 w2,
          futures_create_order first (session s1) = (Raise e1, w1) ->
          is_api_exception e1 = true ->
          futures_create_order second w1 = (Raise e2, w2) ->
          is_api_exception e2 = true ->
          check_and_place_trailing_stop self sg quantity s =
            (Ok tt,
             {| session := w2;
                journal := journal s1 ++ [CallCreateOrder first; CallCreateOrder second];
                csv := csv s1 ++ [ {| event := "Error placing trailing stop";
                                      details := [Err e1] |};
                                   retrying;
                                   {| event := "Error placing trailing stop on retry";
                                      details := [Err e2] |};
                                   success ] |})) /\
      (forall e1 w1,
          futures_create_order first (session s1) = (Raise e1, w1) ->
          is_api_exception e1 = false ->
          check_and_place_trailing_stop self sg quantity s =
            (Raise e1,
             {| session := w1;
                journal := journal s1 ++ [CallCreateOrder first];
                csv := csv s1 |})) /\
      (forall e1 w1 e2 w2,
          futures_create_order first (session s1) = (Raise e1, w1) ->
          is_api_exception e1 = true ->
          futures_create_order second w1 = (Raise e2, w2) ->
          is_api_exception e2 = false ->
          check_and_place_trailing_stop self sg quantity s =
            (Raise e2,
             {| session := w2;
                journal := journal s1 ++ [CallCreateOrder first; CallCreateOrder second];
                csv := csv s1 ++ [ {| event := "Error placing trailing stop";
                                      details := [Err e1] |};
                                   retrying ] |}))).
Proof.
  intros A T checked success.
  assert (Run : check_and_place_trailing_stop self sg quantity s =
                match place_trailing_stop self sg quantity checked with
                | (Ok _, s2) =>
                    (Ok tt, {| session := session s2; journal := journal s2;
                               csv := csv s2 ++ [success] |})
                | (Raise e, s2) =>
                    if is_api_exception e then
                      (Ok tt, {| session := session s2; journal := journal s2;
                                 csv := csv s2 ++ [ {| event := "Error checking trailing stop";
                                                       details := [Err e] |} ] |})
                    else (Raise e, s2)
                end).
  { unfold check_and_place_trailing_stop, try_except_api, bind, invoke.
    rewrite A. simpl. rewrite T. unfold log at 1. simpl. fold checked.
    destruct (place_trailing_stop self sg quantity checked) as [[placed | e] s2];
      [reflexivity |].
    simpl. destruct (is_api_exception e); reflexivity. }
  split; [| split].
  - intros placed s2 P. rewrite Run, P. reflexivity.
  - intros e s2 P. pose proof (place_trailing_stop_raises _ _ _ _ _ P) as X.
    split; [exact X |]. rewrite Run, P, X. reflexivity.
  - intros q s1 E first second retrying. rewrite Run.
    unfold place_trailing_stop, bind. rewrite E.
    unfold try_except_api, bind, invoke, log, ret.
    split; [| split].
    + intros e1 w1 e2 w2 A1 X1 A2 X2. fold first. rewrite A1. simpl. rewrite X1. simpl.
      fold second. rewrite A2. simpl. rewrite X2. simpl.
      now rewrite <- !app_assoc.
    + intros e1 w1 A1 X1. fold first. rewrite A1. simpl. rewrite X1. simpl.
      now rewrite X1.
    + intros e1 w1 e2 w2 A1 X1 A2 X2. fold first. rewrite A1. simpl. rewrite X1. simpl.
      fold second. rewrite A2. simpl. rewrite X2. simpl. rewrite X2.
      now rewrite <- !app_assoc.
Qed.

(** *** The scan of [manage_stop_orders] *)

Lemma scan_none (orders : list order) (a b : option order) :
  (existsb is_stop_market orders = false ->
   fst (fold_left scan_step orders (a, b)) = a) /\
  (existsb is_trailing orders = false ->
   snd (fold_left scan_step orders (a, b)) = b).
Proof.
  revert a b. induction orders as [| o rest IH]; intros a b; simpl; [auto |].
  split; intros H; apply orb_false_iff in H; destruct H as [H1 H2];
    rewrite H1; now apply IH.
Qed.

Lemma scan_some (orders : list order) (a b : option order) :
  (existsb is_stop_market orders = true ->
   exists o, fst (fold_left scan_step orders (a, b)) = Some o
             /\ In o orders /\ is_stop_market o = true) /\
  (existsb is_trailing orders = true ->
   exists o, snd (fold_left scan_step orders (a, b)) = Some o
             /\ In o orders /\ is_trailing o = true).
Proof.
  revert a b. induction orders as [| o rest IH]; intros a b; simpl.
  { split; discriminate. }
  split; intros H.
  - destruct (existsb is_stop_market rest) eqn:Er.
    + destruct (proj1 (IH (if is_stop_market o then Some o else a)
                          (if is_trailing o then Some o else b)) eq_refl)
        as (x & Hx & Hin & Hs).
      exists x. auto.
    + rewrite orb_false_r in H. exists o. rewrite H.
      rewrite (proj1 (scan_none rest _ _) Er). auto.
  - destruct (existsb is_trailing rest) eqn:Er.
    + destruct (proj2 (IH (if is_stop_market o then Some o else a)
                          (if is_trailing o then Some o else b)) eq_refl)
        as (x & Hx & Hin & Hs).
      exists x. auto.
    + rewrite orb_false_r in H. exists o. rewrite H.
      rewrite (proj2 (scan_none rest _ _) Er). auto.
Qed.

Lemma stop_market_not_trailing (o : order) :
  is_stop_market o = true -> is_trailing o = false.
Proof.
  unfold is_stop_market, is_trailing. intros H.
  apply String.eqb_eq in H. rewrite H. reflexivity.
Qed.

Lemma existsb_none (A : Type) (f : A -> bool) (l : list A) :
  (forall x, In x l -> f x = false) -> existsb f l = false.
Proof.
  intros N. induction l as [| x l IH]; simpl; [reflexivity |].
  rewrite (N x (or_introl eq_refl)). apply IH. intros y Hy. apply N. now right.
Qed.

Lemma existsb_nowhere (A : Type) (f : A -> bool) (l : list A) :
  existsb f l = false -> forall x, In x l -> f x = false.
Proof.
  intros H x Hx. destruct (f x) eqn:Fx; [| reflexivity].
  rewrite <- H. symmetry. apply existsb_exists. now exists x.
Qed.

(** The scan keeps the last order of each type. *)
Lemma scan_keeps_last_stop_market (pre post : list order) (o : order) :
  is_stop_market o = true ->
  (forall x, In x post -> is_stop_market x = false) ->
  fst (scan_stop_orders (pre ++ o :: post)) = Some o.
Proof.
  intros H N. unfold scan_stop_orders. rewrite fold_left_app. simpl.
  destruct (fold_left scan_step pre (None, None)) as [a b]. simpl. rewrite H.
  apply (proj1 (scan_none post _ _)). now apply existsb_none.
Qed.

(** A listing with a STOP_MARKET order has a last one. *)
Lemma last_stop_market (orders : list order) :
  existsb is_stop_market orders = true ->
  exists pre o post,
    orders = pre ++ o :: post /\ is_stop_market o = true /\
    forall x, In x post -> is_stop_market x = false.
Proof.
  induction orders as [| a rest IH]; simpl; [discriminate |]. intros H.
  destruct (existsb is_stop_market rest) eqn:Er.
  - destruct (IH eq_refl) as (pre & o & post & E & S & N).
    exists (a :: pre), o, post. rewrite E. auto.
  - rewrite orb_false_r in H. exists [], a, rest.
    split; [reflexivity |]. split; [exact H |]. now apply existsb_nowhere.
Qed.

(** A run over a listing in which one of the two types is missing. *)
Lemma manage_stop_orders_quiet (sg : signal) (s : state W) (orders : list order)
    (w : W) :
  futures_get_open_orders (symbol self) (session s) = (Ok orders, w) ->
  existsb is_stop_market orders && existsb is_trailing orders = false ->
  manage_stop_orders self sg s =
    (Ok tt, {| session := w;
               journal := journal s ++ [CallOpenOrders (symbol self)];
               csv := csv s |}).
Proof.
  intros A H.
  unfold manage_stop_orders, try_except_api, bind, invoke. rewrite A. simpl.
  unfold scan_stop_orders.
  destruct (fold_left scan_step orders (None, None)) as [a b] eqn:F.
  apply andb_false_iff in H. destruct H as [H | H].
  - pose proof (proj1 (scan_none orders None None) H) as N. rewrite F in N.
    simpl in N. subst a. reflexivity.
  - pose proof (proj2 (scan_none orders None None) H) as N. rewrite F in N.
    simpl in N. subst b. destruct a; reflexivity.
Qed.

(** A run over a listing with both types: the calls it makes. *)
Lemma manage_stop_orders_cancels (sg : signal) (s : state W) (pre post : list order)
    (o : order) (w : W) :
  futures_get_open_orders (symbol self) (session s) = (Ok (pre ++ o :: post), w) ->
  is_stop_market o = true ->
  (forall x, In x post -> is_stop_market x = false) ->
  existsb is_trailing (pre ++ o :: post) = true ->
  journal (snd (manage_stop_orders self sg s))
  = journal s ++ [CallOpenOrders (symbol self);
                  CallCancelOrder (symbol self) (orderId o)].
Proof.
  intros A H N T.
  pose proof (scan_keeps_last_stop_market pre post o H N) as F.
  destruct (proj2 (scan_some (pre ++ o :: post) None None) T) as (t & Ft & _ & _).
  unfold manage_stop_orders, try_except_api, bind, invoke. rewrite A. simpl.
  unfold scan_stop_orders in *.
  destruct (fold_left scan_step (pre ++ o :: post) (None, None)) as [a b].
  simpl in F, Ft. subst a b. simpl.
  destruct (futures_cancel_order (symbol self) (orderId o) w) as [[[] | e] w3]; simpl.
  - now rewrite <- app_assoc.
  - destruct (is_api_exception e); simpl; now rewrite <- app_assoc.
Qed.

(** C7 (amended). With the open orders listed, [manage_stop_orders] sends a
    cancellation exactly when a STOP_MARKET and a TRAILING_STOP_MARKET order
    are both listed.  It then sends one cancellation, for the STOP_MARKET
    order listed last, never for a trailing order, and submits nothing;
    STOP_MARKET orders listed earlier are not cancelled.  A second run,
    when the exchange no longer lists the cancelled order, cancels nothing
    if that was the only STOP_MARKET order, and otherwise cancels the last
    of those that remain; when the exchange lists the same orders again
    it sends the same cancellation again.  When one of the two types is
    missing the run only lists the orders, so a second run over the same
    listing cancels nothing either. *)
Theorem manage_stop_orders_cancels_on_conflict (sg : signal) (s : state W)
    (orders : list order) (w : W) :
  futures_get_open_orders (symbol self) (session s) = (Ok orders, w) ->
  let once := snd (manage_stop_orders self sg s) in
  let again := snd (manage_stop_orders self sg once) in
  (existsb is_stop_market orders && existsb is_trailing orders = true ->
   exists pre o post,
     orders = pre ++ o :: post /\
     is_stop_market o = true /\ is_trailing o = false /\
     (forall x, In x post -> is_stop_market x = false) /\
     journal once = journal s ++ [CallOpenOrders (symbol self);
                                  CallCancelOrder (symbol self) (orderId o)] /\
     cancellations (journal once) = cancellations (journal s) ++ [orderId o] /\
     submissions (journal once) = submissions (journal s) /\
     (forall w2,
         futures_get_open_orders (symbol self) (session once) = (Ok (pre ++ post), w2) ->
         (existsb is_stop_market pre = false ->
          journal again = journal once ++ [CallOpenOrders (symbol self)]) /\
         (existsb is_stop_market pre = true ->
          exists pre2 o2 post2,
            pre = pre2 ++ o2 :: post2 /\ is_stop_market o2 = true /\
            (forall x, In x post2 -> is_stop_market x = false) /\
            journal again = journal once ++ [CallOpenOrders (symbol self);
                                             CallCancelOrder (symbol self) (orderId o2)])) /\
     (forall w2,
         futures_get_open_orders (symbol self) (session once) = (Ok orders, w2) ->
         journal again = journal once ++ [CallOpenOrders (symbol self);
                                          CallCancelOrder (symbol self) (orderId o)])) /\
  (existsb is_stop_market orders && existsb is_trailing orders = false ->
   manage_stop_orders self sg s =
     (Ok tt, {| session := w;
                journal := journal s ++ [CallOpenOrders (symbol self)];
                csv := csv s |}) /\
   forall w',
     futures_get_open_orders (symbol self) w = (Ok orders, w') ->
     manage_stop_orders self sg once =
       (Ok tt, {| session := w';
                  journal := journal s ++ [CallOpenOrders (symbol self);
                                           CallOpenOrders (symbol self)];
                  csv := csv s |})).
Proof.
  intros A once again. split.
  - intros H. apply andb_true_iff in H. destruct H as [H1 H2].
    destruct (last_stop_market orders H1) as (pre & o & post & E & So & N).
    pose proof (stop_market_not_trailing o So) as To.
    exists pre, o, post. subst orders.
    pose proof (manage_stop_orders_cancels sg s pre post o w A So N H2) as J.
    fold once in J.
    split; [reflexivity |]. split; [exact So |]. split; [exact To |].
    split; [exact N |]. split; [exact J |].
    split; [rewrite J; journal_solve |]. split; [rewrite J; journal_solve |].
    assert (T2 : existsb is_trailing (pre ++ post) = true).
    { rewrite existsb_app in H2 |- *. simpl in H2. now rewrite To in H2. }
    split.
    + intros w2 A2. split; intros P.
      * assert (Q : existsb is_stop_market (pre ++ post) && existsb is_trailing (pre ++ post)
                    = false).
        { rewrite existsb_app, P, (existsb_none _ _ post N). reflexivity. }
        unfold again. now rewrite (manage_stop_orders_quiet sg once _ w2 A2 Q).
      * destruct (last_stop_market pre P) as (pre2 & o2 & post2 & E2 & S2 & N2).
        exists pre2, o2, post2. split; [exact E2 |]. split; [exact S2 |].
        split; [exact N2 |]. subst pre. rewrite <- app_assoc in A2, T2. simpl in A2, T2.
        apply (manage_stop_orders_cancels sg once pre2 (post2 ++ post) o2 w2 A2 S2);
          [| exact T2].
        intros x Hx. apply in_app_or in Hx. destruct Hx; auto.
    + intros w2 A2.
      exact (manage_stop_orders_cancels sg once pre post o w2 A2 So N H2).
  - intros H. pose proof (manage_stop_orders_quiet sg s orders w A H) as Q.
    split; [exact Q |]. intros w' A'. unfold once. rewrite Q. simpl.
    rewrite (manage_stop_orders_quiet sg
               {| session := w;
                  journal := journal s ++ [CallOpenOrders (symbol self)];
                  csv := csv s |} orders w' A' H).
    simpl. now rewrite <- app_assoc.
Qed.

(** When the listing itself fails, nothing has been cancelled or submitted
    by the time the exception is handled or propagates. *)
Lemma manage_stop_orders_listing_fails (sg : signal) (s : state W) (e : exn) (w : W) :
  futures_get_open_orders (symbol self) (session s) = (Raise e, w) ->
  cancellations (journal (snd (manage_stop_orders self sg s)))
  = cancellations (journal s)
  /\ submissions (journal (snd (manage_stop_orders self sg s)))
     = submissions (journal s).
Proof.
  intros A.
  unfold manage_stop_orders, try_except_api, bind, invoke. rewrite A. simpl.
  destruct (is_api_exception e); split; journal_solve.
Qed.

End Orders.

(** ** The signal detector *)

Section Signal.
Import Binary64 Py Data Monad Bot.

(** C1. On the last two rows, with [d_prev] and [d_last] the differences
    [ema_fast - ema_slow], the detector emits LONG exactly when
    [d_prev <= 0] and [d_last > 0], SHORT exactly when [d_prev >= 0] and
    [d_last < 0], and nothing in every other case, in particular when both
    differences are zero; it never emits both signals. *)
Theorem determine_signal_crossover (df : list row) (prev last : row) :
  let d_prev := fsub (ema_fast prev) (ema_slow prev) in
  let d_last := fsub (ema_fast last) (ema_slow last) in
  let emitted := determine_signal (df ++ [prev; last]) in
  (emitted = Some LONG <-> fleb d_prev zero = true /\ fgtb d_last zero = true) /\
  (emitted = Some SHORT <-> fgeb d_prev zero = true /\ fltb d_last zero = true) /\
  (emitted = None <->
     ~ (fleb d_prev zero = true /\ fgtb d_last zero = true) /\
     ~ (fgeb d_prev zero = true /\ fltb d_last zero = true)) /\
  (feqb d_prev zero = true /\ feqb d_last zero = true -> emitted = None) /\
  ~ (emitted = Some LONG /\ emitted = Some SHORT).
Proof.
  intros d_prev d_last emitted.
  assert (E : emitted =
              if fleb d_prev zero && fgtb d_last zero then Some LONG
              else if fgeb d_prev zero && fltb d_last zero then Some SHORT
              else None).
  { unfold emitted, determine_signal. rewrite rev_app_distr. reflexivity. }
  assert (X : fgtb d_last zero = true -> fltb d_last zero = false).
  { unfold fgtb. apply above_not_below. }
  destruct (fleb d_prev zero) eqn:A, (fgtb d_last zero) eqn:B,
    (fgeb d_prev zero) eqn:C, (fltb d_last zero) eqn:D;
    simpl in E; rewrite E;
    try (specialize (X eq_refl); discriminate);
    repeat split; try tauto; try congruence;
    try (intros [? ?]; congruence);
    try (intros [H1 H2]; apply equal_not_below in H2; destruct H2;
         unfold fgtb in *; congruence).
Qed.

End Signal.

(** ** One cycle of the main loop *)

Section Cycle.
Import Binary64 Py Data Monad Bot Sizing.
Local Open Scope string_scope.
Local Open Scope list_scope.

Context {W : Type} {exchange : Exchange W} {libs : PyLibs}.
Variable self : FuturesBot.

#[local] Arguments Qred : simpl never.
#[local] Arguments rnd : simpl never.
#[local] Arguments py_round : simpl never.
#[local] Arguments String.eqb : simpl never.
#[local] Arguments lit : simpl never.
#[local] Arguments round_quantity : simpl never.
#[local] Arguments place_trailing_stop : simpl never.
#[local] Arguments check_and_place_trailing_stop : simpl never.
#[local] Arguments manage_stop_orders : simpl never.
#[local] Arguments calculate_order_quantity : simpl never.
#[local] Arguments place_order : simpl never.
#[local] Arguments get_klines : simpl never.
#[local] Arguments determine_signal : simpl never.
#[local] Arguments calculate_ema : simpl never.
#[local] Arguments open_positions : simpl never.
#[local] Arguments fabs : simpl never.

Lemma get_klines_journal (limit : Z) (s s1 : state W) (r : result (option (list candle))) :
  get_klines self limit s = (r, s1) ->
  journal s1 = journal s ++ [CallKlines (symbol self) (interval self) limit].
Proof.
  unfold get_klines, try_except, bind, invoke.
  destruct (futures_klines (symbol self) (interval self) limit (session s)) as [[k | e] w];
    simpl; intros [= <- <-]; reflexivity.
Qed.

(** Every outcome of [place_trailing_stop]: one or two submissions, both for
    the quantity [round_quantity] returned, and no cancellation. *)
Lemma place_trailing_stop_journal (sg : signal) (quantity : float) (s : state W) :
  representable quantity ->
  exists q s1 extra,
    round_quantity self quantity s = (Ok q, s1) /\
    normalized self (fst (get_symbol_info (symbol self) (session s))) quantity = Ok q /\
    representable q /\
    submissions (journal (snd (place_trailing_stop self sg quantity s)))
    = submissions (journal s) ++ trailing_request self sg q (lit 1 1) :: extra /\
    (extra = [] \/ extra = [trailing_request self sg q (lit 5 10)]) /\
    cancellations (journal (snd (place_trailing_stop self sg quantity s)))
    = cancellations (journal s).
Proof.
  intros R. destruct (round_quantity_returns self quantity s R) as (q & r & E & N & Rq).
  eexists q, _. 
  unfold place_trailing_stop, bind. rewrite E.
  unfold try_except_api, bind, invoke, log, ret. simpl.
  destruct (futures_create_order (trailing_request self sg q (lit 1 1))
              (snd (get_symbol_info (symbol self) (session s)))) as [[o | e] w]; simpl.
  - exists []. repeat split; auto; journal_solve.
  - destruct (is_api_exception e); simpl.
    + destruct (futures_create_order (trailing_request self sg q (lit 5 10)) w)
        as [[o2 | e2] w2]; simpl.
      * eexists [_]. repeat split; auto; journal_solve.
      * destruct (is_api_exception e2); simpl;
          eexists [_]; repeat split; auto; journal_solve.
    + exists []. repeat split; auto; journal_solve.
Qed.

Lemma check_and_place_submissions (sg : signal) (quantity : float) (s : state W)
    (orders : list order) (w : W) :
  futures_get_open_orders (symbol self) (session s) = (Ok orders, w) ->
  (existsb is_trailing orders = true ->
   submissions (journal (snd (check_and_place_trailing_stop self sg quantity s)))
   = submissions (journal s)) /\
  (existsb is_trailing orders = false ->
   submissions (journal (snd (check_and_place_trailing_stop self sg quantity s)))
   = submissions (journal (snd (place_trailing_stop self sg quantity
       {| session := w;
          journal := journal s ++ [CallOpenOrders (symbol self)];
          csv := csv s ++ [ {| event := "Trailing stop check";
                               details := [Text "No se encontró trailing stop. Colocando uno."] |} ] |})))).
Proof.
  intros A. unfold check_and_place_trailing_stop, try_except_api, bind, invoke.
  rewrite A. split; intros T; rewrite T; unfold log at 1; simpl.
  - journal_solve.
  - match goal with |- context [place_trailing_stop self sg quantity ?st] =>
      destruct (place_trailing_stop self sg quantity st) as [[placed | e] s6] end.
    + reflexivity.
    + destruct (is_api_exception e); reflexivity.
Qed.

(** C8 (amended). In a cycle that fetched its candles and found an open
    position: the side is the fresh signal if there is one, otherwise LONG
    for a positive and SHORT for a negative position amount; once the open
    orders are listed, a reduce-only trailing-stop order is submitted exactly
    when no TRAILING_STOP_MARKET order is listed, and nothing is submitted
    when one is.  The order closes the inferred side and its quantity is the
    absolute position amount passed through [round_quantity] twice: once in
    [run] and once more inside [place_trailing_stop]. *)
Theorem open_position_cycle (s0 s1 : state W) (candles : list candle)
    (positions : list position) (w2 : W) (pos : position) (others : list position) :
  get_klines self 100 s0 = (Ok (Some candles), s1) ->
  futures_position_information (symbol self) (session s1) = (Ok positions, w2) ->
  open_positions self positions = pos :: others ->
  representable (positionAmt pos) ->
  exists (sg : signal) (q1 : float) (s3 : state W),
    (forall fresh, determine_signal (calculate_ema self candles) = Some fresh -> sg = fresh) /\
    (determine_signal (calculate_ema self candles) = None ->
     (fltb zero (positionAmt pos) = true -> sg = LONG) /\
     (fltb (positionAmt pos) zero = true -> sg = SHORT)) /\
    round_quantity self (fabs (positionAmt pos))
      {| session := w2;
         journal := journal s1 ++ [CallPositionInformation (symbol self)];
         csv := csv s1 ++ [ {| event := "Position check";
                               details := [Text "Posición abierta detectada."] |} ] |}
    = (Ok q1, s3) /\
    forall (orders : list order) (w4 : W),
      futures_get_open_orders (symbol self) (session s3) = (Ok orders, w4) ->
      (existsb is_trailing orders = true ->
       submissions (journal (snd (cycle self s0))) = submissions (journal s0)) /\
      (existsb is_trailing orders = false ->
       exists (q2 : float) (extra : list order_request),
         normalized self (fst (get_symbol_info (symbol self) w4)) q1 = Ok q2 /\
         submissions (journal (snd (cycle self s0)))
         = submissions (journal s0) ++ trailing_request self sg q2 (lit 1 1) :: extra /\
         (extra = [] \/ extra = [trailing_request self sg q2 (lit 5 10)])).
Proof.
  intros K P O R.
  pose proof (get_klines_journal _ _ _ _ K) as J1.
  set (sg := match determine_signal (calculate_ema self candles) with
             | Some s => s
             | None => if fgtb (positionAmt pos) zero then LONG else SHORT
             end).
  set (s2 := {| session := w2;
                journal := journal s1 ++ [CallPositionInformation (symbol self)];
                csv := csv s1 ++ [ {| event := "Position check";
                                      details := [Text "Posición abierta detectada."] |} ] |}).
  destruct (round_quantity_returns self (fabs (positionAmt pos)) s2
              (fabs_representable _ R)) as (q1 & r & E & N & R1).
  exists sg, q1. eexists. split; [| split; [| split; [exact E |]]].
  - intros fresh F. unfold sg. now rewrite F.
  - intros F. unfold sg. rewrite F. split; intros H.
    + unfold fgtb. now rewrite H.
    + unfold fgtb. now rewrite (above_not_below _ _ H).
  - intros orders w4 A. simpl in A.
    assert (C : cycle self s0 =
                bind (check_and_place_trailing_stop self sg q1) (fun _ => ret Bottom)
                  {| session := snd (get_symbol_info (symbol self) w2);
                     journal := journal s2 ++ [CallSymbolInfo (symbol self)];
                     csv := csv s2 ++ [r] |}).
    { unfold cycle, bind. rewrite K. unfold invoke. rewrite P, O.
      unfold log. simpl. subst s2. simpl in E. rewrite E. reflexivity. }
    destruct (check_and_place_submissions sg q1
                {| session := snd (get_symbol_info (symbol self) w2);
                   journal := journal s2 ++ [CallSymbolInfo (symbol self)];
                   csv := csv s2 ++ [r] |} orders w4 A) as [Listed Missing].
    assert (S : submissions (journal (snd (cycle self s0)))
                = submissions (journal (snd (check_and_place_trailing_stop self sg q1
                    {| session := snd (get_symbol_info (symbol self) w2);
                       journal := journal s2 ++ [CallSymbolInfo (symbol self)];
                       csv := csv s2 ++ [r] |})))).
    { rewrite C. unfold bind.
      destruct (check_and_place_trailing_stop self sg q1 _) as [[[] | e] s9]; reflexivity. }
    rewrite S. split; intros T.
    + rewrite (Listed T). subst s2. rewrite J1. journal_solve.
    + rewrite (Missing T).
      match goal with |- context [place_trailing_stop self sg q1 ?st] =>
        destruct (place_trailing_stop_journal sg q1 st R1)
          as (q2 & s5 & extra & E2 & N2 & R2 & S2 & X & _)
      end.
      exists q2, extra. split; [exact N2 |]. split; [| exact X].
      rewrite S2. subst s2. rewrite J1. journal_solve.
Qed.

End Cycle.

Section Entry.
Import Binary64 Py Data Monad Bot Sizing.
Local Open Scope string_scope.
Local Open Scope list_scope.

Context {W : Type} {exchange : Exchange W} {libs : PyLibs}.
Variable self : FuturesBot.

#[local] Arguments Qred : simpl never.
#[local] Arguments rnd : simpl never.
#[local] Arguments py_round : simpl never.
#[local] Arguments String.eqb : simpl never.
#[local] Arguments lit : simpl never.
#[local] Arguments round_quantity : simpl never.
#[local] Arguments place_trailing_stop : simpl never.
#[local] Arguments check_and_place_trailing_stop : simpl never.
#[local] Arguments manage_stop_orders : simpl never.
#[local] Arguments calculate_order_quantity : simpl never.
#[local] Arguments place_order : simpl never.
#[local] Arguments get_klines : simpl never.
#[local] Arguments determine_signal : simpl never.
#[local] Arguments calculate_ema : simpl never.
#[local] Arguments open_positions : simpl never.
#[local] Arguments fabs : simpl never.
#[local] Arguments cycle : simpl never.
#[local] Arguments reconnect : simpl never.

(** The exception handler of the loop submits and cancels nothing. *)
Lemma set_leverage_journal (s : state W) :
  journal (snd (set_leverage self s))
  = journal s ++ [CallChangeLeverage (symbol self) (leverage self)].
Proof.
  unfold set_leverage, try_except_api, bind, invoke, log.
  destruct (futures_change_leverage (symbol self) (leverage self) (session s))
    as [[[] | e] w]; simpl; [reflexivity |].
  destruct (is_api_exception e); reflexivity.
Qed.

Lemma reconnect_quiet (s : state W) :
  submissions (journal (snd (reconnect self s))) = submissions (journal s) /\
  cancellations (journal (snd (reconnect self s))) = cancellations (journal s).
Proof.
  unfold reconnect, bind, try_except, invoke, log at 1. simpl.
  destruct (Client (api_key self) (api_secret self) (session s)) as [[[] | e] w]; simpl.
  - match goal with |- context [set_leverage self ?st] =>
      pose proof (set_leverage_journal st) as J;
      destruct (set_leverage self st) as [[[] | e] s2] end; simpl in *.
    + rewrite J. split; journal_solve.
    + rewrite J. split; journal_solve.
  - split; journal_solve.
Qed.

Lemma iteration_quiet (s : state W) :
  submissions (journal (snd (iteration self s)))
  = submissions (journal (snd (cycle self s))) /\
  cancellations (journal (snd (iteration self s)))
  = cancellations (journal (snd (cycle self s))).
Proof.
  unfold iteration, bind, try_except.
  destruct (cycle self s) as [[[] | e] s1]; simpl.
  - split; journal_solve.
  - split; reflexivity.
  - match goal with |- context [reconnect self ?st] =>
      destruct (reconnect_quiet st) as [A B];
      destruct (reconnect self st) as [[[] | e2] s2] end; simpl in *.
    + rewrite <- A, <- B. split; journal_solve.
    + rewrite <- A, <- B. split; reflexivity.
Qed.

(** The loop never stops on an exception: an iteration always returns. *)
Lemma reconnect_returns (s : state W) : fst (reconnect self s) = Ok tt.
Proof.
  unfold reconnect, bind, try_except, invoke, log at 1. simpl.
  destruct (Client (api_key self) (api_secret self) (session s)) as [[[] | e] w]; simpl.
  - unfold set_leverage, try_except_api, bind, invoke. simpl.
    destruct (futures_change_leverage (symbol self) (leverage self) w) as [[[] | e] w3];
      simpl; [reflexivity |].
    destruct (is_api_exception e); reflexivity.
  - reflexivity.
Qed.

Lemma iteration_returns (s : state W) : fst (iteration self s) = Ok tt.
Proof.
  unfold iteration, bind, try_except.
  destruct (cycle self s) as [[[] | e] s1]; simpl; try reflexivity.
  match goal with |- context [reconnect self ?st] =>
    pose proof (reconnect_returns st) as A;
    destruct (reconnect self st) as [r2 s2] end.
  simpl in A. subst r2. reflexivity.
Qed.

Lemma manage_stop_orders_journal (sg : signal) (s : state W) :
  submissions (journal (snd (manage_stop_orders self sg s))) = submissions (journal s) /\
  exists tail,
    journal (snd (manage_stop_orders self sg s))
    = journal s ++ CallOpenOrders (symbol self) :: tail.
Proof.
  unfold manage_stop_orders, try_except_api, bind, invoke.
  destruct (futures_get_open_orders (symbol self) (session s)) as [[orders | e] w]; simpl.
  - destruct (scan_stop_orders orders) as [[stop |] [trailing |]]; simpl;
      try (split; [journal_solve | exists []; reflexivity]).
    destruct (futures_cancel_order (symbol self) (orderId stop) w) as [[[] | e] w3]; simpl.
    + split; [journal_solve | eexists [_]; now rewrite <- app_assoc].
    + destruct (is_api_exception e); simpl;
        (split; [journal_solve | eexists [_]; now rewrite <- app_assoc]).
  - destruct (is_api_exception e); simpl;
      (split; [journal_solve | exists []; reflexivity]).
Qed.

Lemma sized_returns_again (b1 b2 : float) (a1 a2 : result (option symbol_info))
    (entry_price q : float) :
  sized self b1 a1 entry_price = Ok q ->
  exists q2, sized self b2 a2 entry_price = Ok q2 /\ representable q2.
Proof.
  unfold sized, raw_quantity, float_mul_int.
  destruct (of_int (leverage self)) as [f |]; [| discriminate].
  destruct (fdiv (fmul (fmul b1 (base_capital_pct self)) f) entry_price) as [x1 |] eqn:D1;
    [| discriminate].
  intros _.
  assert (D2 : exists x2, fdiv (fmul (fmul b2 (base_capital_pct self)) f) entry_price = Ok x2).
  { unfold fdiv in *. destruct entry_price as [p | | |].
    - destruct (Qeq_bool p 0); [discriminate |].
      destruct (fmul (fmul b2 (base_capital_pct self)) f); eexists; reflexivity.
    - destruct (fmul (fmul b2 (base_capital_pct self)) f); eexists; reflexivity.
    - destruct (fmul (fmul b2 (base_capital_pct self)) f); eexists; reflexivity.
    - eexists; reflexivity. }
  destruct D2 as [x2 D2]. rewrite D2.
  apply normalized_returns. eapply fdiv_representable; eassumption.
Qed.

(** C9 (amended). In a cycle that fetched its candles, found no open
    position and has a signal, once the sizing at the last row's close price
    has returned a quantity, the bot submits the market entry for that
    quantity.  If the entry is acknowledged it sizes again, submits the
    trailing stop for the re-queried quantity passed once more through
    [round_quantity] (the retry, if any, for the same quantity), and when
    the placement returns it then runs [manage_stop_orders]; nothing else is
    submitted.  If the entry raises, the entry is the only submission of the
    iteration. *)
Theorem flat_entry_cycle (s0 s1 : state W) (candles : list candle)
    (positions : list position) (w2 : W) (sg : signal)
    (earlier : list row) (last_row : row) (q : float) (s3 : state W) :
  get_klines self 100 s0 = (Ok (Some candles), s1) ->
  futures_position_information (symbol self) (session s1) = (Ok positions, w2) ->
  open_positions self positions = [] ->
  determine_signal (calculate_ema self candles) = Some sg ->
  calculate_ema self candles = earlier ++ [last_row] ->
  calculate_order_quantity self (close (kline last_row))
    {| session := w2;
       journal := journal s1 ++ [CallPositionInformation (symbol self)];
       csv := csv s1 |} = (Ok q, s3) ->
  let entry_price := close (kline last_row) in
  let entry := market_request self sg q in
  (forall (o : order) (w4 : W),
      futures_create_order entry (session s3) = (Ok o, w4) ->
      exists (q2 : float) (s5 : state W) (q3 : float) (extra : list order_request),
        calculate_order_quantity self entry_price
          {| session := w4;
             journal := journal s3 ++ [CallCreateOrder entry];
             csv := csv s3 ++ [ {| event := "Order placed";
                                   details := [Text "Señal: "; Sig sg;
                                               Text ", Cantidad: "; Num q;
                                               Text ", Precio de entrada: ";
                                               Num entry_price] |} ] |}
        = (Ok q2, s5) /\
        normalized self (fst (get_symbol_info (symbol self) (session s5))) q2 = Ok q3 /\
        submissions (journal (snd (iteration self s0)))
        = submissions (journal s0)
          ++ entry :: trailing_request self sg q3 (lit 1 1) :: extra /\
        (extra = [] \/ extra = [trailing_request self sg q3 (lit 5 10)]) /\
        (forall placed s6,
            place_trailing_stop self sg q2 s5 = (Ok placed, s6) ->
            snd (cycle self s0) = snd (manage_stop_orders self sg s6) /\
            exists tail,
              journal (snd (cycle self s0))
              = journal s6 ++ CallOpenOrders (symbol self) :: tail)) /\
  (forall (e : exn) (w4 : W),
      futures_create_order entry (session s3) = (Raise e, w4) ->
      submissions (journal (snd (iteration self s0)))
      = submissions (journal s0) ++ [entry] /\
      (is_api_exception e = true -> fst (cycle self s0) = Ok Bottom)).
Proof.
  intros K P O S L Q entry_price entry. subst entry_price.
  pose proof (get_klines_journal self _ _ _ _ K) as J1.
  set (s2 := {| session := w2;
                journal := journal s1 ++ [CallPositionInformation (symbol self)];
                csv := csv s1 |}) in *.
  destruct (calculate_order_quantity_run self (close (kline last_row)) s2)
    as (s3' & Q' & Sub3 & _).
  rewrite Q in Q'. injection Q' as Sz <-.
  assert (C : cycle self s0 =
              bind (place_order self sg (close (kline last_row)))
                (fun order =>
                   match order with
                   | Some _ =>
                       bind (calculate_order_quantity self (close (kline last_row)))
                         (fun quantity =>
                            bind (place_trailing_stop self sg quantity)
                              (fun _ => bind (manage_stop_orders self sg)
                                          (fun _ => ret Bottom)))
                   | None => ret Bottom
                   end) s2).
  { unfold cycle. unfold bind at 1. rewrite K. unfold bind at 1, invoke. rewrite P, O, S, L.
    rewrite rev_app_distr. reflexivity. }
  destruct (iteration_quiet s0) as [IQ _]. rewrite IQ. clear IQ.
  split.
  - intros o w4 A.
    match goal with |- context [calculate_order_quantity self (close (kline last_row)) ?st] =>
      set (s4 := st) end.
    destruct (calculate_order_quantity_run self (close (kline last_row)) s4) as (s5 & Q2 & Sub5 & _).
    destruct (sized_returns_again _
                (available (fst (futures_account_balance (session s4)))) _
                (fst (get_symbol_info (symbol self)
                        (snd (futures_account_balance (session s4))))) _ _ (eq_sym Sz))
      as (q2 & Sz2 & R2).
    rewrite Sz2 in Q2.
    destruct (place_trailing_stop_journal self sg q2 s5 R2)
      as (q3 & s5' & extra & E3 & N3 & R3 & Sub6 & X & _).
    exists q2, s5, q3, extra. split; [exact Q2 |]. split; [exact N3 |].
    assert (PO : place_order self sg (close (kline last_row)) s2 = (Ok (Some o), s4)).
    { unfold place_order, bind. rewrite Q.
      unfold try_except_api, bind, invoke. fold entry. rewrite A. reflexivity. }
    assert (C' : cycle self s0 =
                 bind (place_trailing_stop self sg q2)
                   (fun _ => bind (manage_stop_orders self sg) (fun _ => ret Bottom)) s5).
    { rewrite C. unfold bind at 1. rewrite PO. unfold bind at 1. rewrite Q2. reflexivity. }
    assert (Base : submissions (journal s5) = submissions (journal s0) ++ [entry]).
    { rewrite Sub5. subst s4. simpl. rewrite submissions_app, Sub3. subst s2. simpl.
      rewrite J1. journal_solve. }
    split; [| split; [exact X |]].
    + rewrite C'. unfold bind at 1.
      destruct (place_trailing_stop self sg q2 s5) as [[placed | e] s6] eqn:PT;
        simpl in Sub6.
      * unfold bind. destruct (manage_stop_orders_journal sg s6) as [M _].
        destruct (manage_stop_orders self sg s6) as [[[] | e] s7]; simpl in *;
          rewrite M, Sub6, Base; now rewrite <- app_assoc.
      * simpl. rewrite Sub6, Base. now rewrite <- app_assoc.
    + intros placed s6 PT. rewrite C'. unfold bind. rewrite PT.
      destruct (manage_stop_orders_journal sg s6) as [_ [tail T]].
      destruct (manage_stop_orders self sg s6) as [[[] | e] s7]; simpl in *;
        (split; [reflexivity | exists tail; exact T]).
  - intros e w4 A.
    assert (CE : exists r rows,
               cycle self s0 =
                 (r, {| session := w4;
                        journal := journal s3 ++ [CallCreateOrder entry];
                        csv := csv s3 ++ rows |})
               /\ (is_api_exception e = true -> r = Ok Bottom)).
    { rewrite C. unfold bind, place_order, bind. rewrite Q.
      unfold try_except_api, bind, invoke. fold entry. rewrite A. simpl.
      destruct (is_api_exception e); simpl.
      - eexists _, [_]. split; [reflexivity | reflexivity].
      - eexists _, []. rewrite app_nil_r. split; [reflexivity | discriminate]. }
    destruct CE as (r & rows & CE & RA). rewrite CE. simpl. split; [| exact RA].
    rewrite submissions_app, Sub3. subst s2. simpl. rewrite J1. journal_solve.
Qed.

End Entry.

(** ** The sizing rule *)

Section SizingRule.
Import Binary64 Py Data Monad Bot Sizing Facts.
Local Open Scope string_scope.
Local Open Scope list_scope.

Context {W : Type} {exchange : Exchange W} {libs : PyLibs}.
Variable self : FuturesBot.

#[local] Arguments Qred : simpl never.
#[local] Arguments rnd : simpl never.
#[local] Arguments py_round : simpl never.
#[local] Arguments String.eqb : simpl never.
#[local] Arguments lit : simpl never.

Lemma quotes_value (s : state W) (balance : float)
    (answer : result (option symbol_info)) (entry_price : float) :
  quotes self s balance answer ->
  fst (calculate_order_quantity self entry_price s)
  = sized self balance answer entry_price.
Proof.
  intros (cash & w1 & w2 & A & B & C). subst balance.
  eapply calculate_order_quantity_value; eassumption.
Qed.

Lemma raw_quantity_spec (balance entry_price : float) :
  raw_quantity self balance entry_price
  = Spec.raw entry_price balance (base_capital_pct self) (leverage self).
Proof. reflexivity. Qed.

Lemma floor_to_step_spec (quantity step_size : float) (p : Z) :
  Bot.floor_to_step quantity step_size (Some p)
  = match Spec.floor_to_step quantity step_size with
    | Ok t => py_round t p
    | Raise e => Raise e
    end.
Proof.
  unfold Bot.floor_to_step, Spec.floor_to_step.
  destruct (fdiv quantity step_size) as [ratio |]; [| reflexivity].
  destruct (math_floor ratio) as [k |]; [| reflexivity].
  destruct (int_mul_float k step_size); reflexivity.
Qed.

Lemma normalized_with_filters (info : symbol_info) (step_size : float) (p : Z)
    (quantity : float) :
  has_filters info step_size p ->
  normalized self (Ok (Some info)) quantity
  = match Bot.floor_to_step quantity step_size (Some p) with
    | Ok v => Ok v
    | Raise _ => py_round quantity 3
    end.
Proof.
  intros [P S]. unfold normalized, rounding_attempt, symbol_precision.
  rewrite S, P. reflexivity.
Qed.

Lemma sized_floor_rule (info : symbol_info) (step_size : float) (p : Z)
    (balance entry_price q : float) :
  has_filters info step_size p ->
  Spec.computeQuantity_floor entry_price balance (base_capital_pct self)
    (leverage self) step_size p = Ok q ->
  sized self balance (Ok (Some info)) entry_price = Ok q.
Proof.
  intros F. unfold Spec.computeQuantity_floor, sized. rewrite raw_quantity_spec.
  destruct (Spec.raw _ _ _ _) as [r |]; [| discriminate].
  rewrite (normalized_with_filters info step_size p r F), floor_to_step_spec.
  destruct (Spec.floor_to_step r step_size) as [t |]; [| discriminate].
  intros E. now rewrite E.
Qed.

(** The raw quantity is not negative for non-negative inputs. *)
Lemma raw_not_negative (balance entry_price r : float) :
  fltb balance zero = false -> fltb (base_capital_pct self) zero = false ->
  (0 <= leverage self)%Z -> fltb zero entry_price = true ->
  raw_quantity self balance entry_price = Ok r -> fltb r zero = false.
Proof.
  intros Hb Hp Hl He. unfold raw_quantity, float_mul_int.
  destruct (of_int (leverage self)) as [f |] eqn:F; [| discriminate].
  apply fdiv_not_negative; [| exact He].
  apply fmul_not_negative; [now apply fmul_not_negative |].
  eapply of_int_not_negative; eassumption.
Qed.

Lemma truncate_is_floor (r step_size : float) :
  fltb r zero = false -> fltb zero step_size = true ->
  Spec.truncate_to_step r step_size = Spec.floor_to_step r step_size.
Proof.
  intros Hr Hs. unfold Spec.truncate_to_step, Spec.floor_to_step.
  destruct (fdiv r step_size) as [ratio |] eqn:D; [| reflexivity].
  pose proof (fdiv_not_negative _ _ _ Hr Hs D) as N.
  destruct ratio as [a | | |]; try reflexivity.
  apply fltb_zero_finite in N. simpl. unfold Qtrunc.
  assert (T : Qle_bool 0 a = true) by (now apply Qle_bool_iff).
  now rewrite T.
Qed.

(** With the filters available, the quantity is the value of the floor
    rule whenever that rule raises no arithmetic error. *)
Lemma floor_rule_value (s : state W) (balance : float) (info : symbol_info)
    (step_size : float) (quantity_precision : Z) (entry_price q : float) :
  quotes self s balance (Ok (Some info)) ->
  has_filters info step_size quantity_precision ->
  Spec.computeQuantity_floor entry_price balance (base_capital_pct self)
    (leverage self) step_size quantity_precision = Ok q ->
  fst (calculate_order_quantity self entry_price s) = Ok q.
Proof.
  intros Q F E. rewrite (quotes_value s balance _ entry_price Q).
  exact (sized_floor_rule info step_size quantity_precision balance entry_price q F E).
Qed.

(** On a raw value that is not negative, the specification's rule and the
    floor rule agree. *)
Lemma truncation_rule_is_floor_rule (balance entry_price step_size : float) (p : Z) :
  fltb balance zero = false ->
  fltb (base_capital_pct self) zero = false ->
  (0 <= leverage self)%Z ->
  fltb zero entry_price = true ->
  fltb zero step_size = true ->
  Spec.computeQuantity entry_price balance (base_capital_pct self)
    (leverage self) step_size p
  = Spec.computeQuantity_floor entry_price balance (base_capital_pct self)
      (leverage self) step_size p.
Proof.
  intros Hb Hp Hl He Hs.
  unfold Spec.computeQuantity, Spec.computeQuantity_floor.
  destruct (Spec.raw entry_price balance (base_capital_pct self) (leverage self))
    as [r |] eqn:R; [| reflexivity].
  rewrite truncate_is_floor; [reflexivity | | exact Hs].
  apply (raw_not_negative balance entry_price r Hb Hp Hl He).
  rewrite raw_quantity_spec. exact R.
Qed.

(** C3 (amended). With the filters available, the quantity is the raw value
    [(balance * capital_fraction * leverage) / entry_price] rounded down
    (toward minus infinity, [math.floor]) to a multiple of [step_size] and
    then rounded to [quantity_precision] places, whenever that computation
    raises no arithmetic error; for a non-negative balance, capital fraction
    and leverage and a positive entry price and step size, rounding down is
    truncation toward zero, and the quantity is the one the specification
    describes. *)
Theorem sizing_rounds_down (s : state W) (balance : float) (info : symbol_info)
    (step_size : float) (quantity_precision : Z) (entry_price : float) :
  quotes self s balance (Ok (Some info)) ->
  has_filters info step_size quantity_precision ->
  (forall q,
      Spec.computeQuantity_floor entry_price balance (base_capital_pct self)
        (leverage self) step_size quantity_precision = Ok q ->
      fst (calculate_order_quantity self entry_price s) = Ok q) /\
  (fltb balance zero = false ->
   fltb (base_capital_pct self) zero = false ->
   (0 <= leverage self)%Z ->
   fltb zero entry_price = true ->
   fltb zero step_size = true ->
   forall q,
     Spec.computeQuantity entry_price balance (base_capital_pct self)
       (leverage self) step_size quantity_precision = Ok q ->
     fst (calculate_order_quantity self entry_price s) = Ok q).
Proof.
  intros Q F. split.
  - intros q E. exact (floor_rule_value s balance info step_size quantity_precision
                         entry_price q Q F E).
  - intros Hb Hp Hl He Hs q E.
    apply (floor_rule_value s balance info step_size quantity_precision
             entry_price q Q F).
    rewrite <- E. symmetry. now apply truncation_rule_is_floor_rule.
Qed.

(** C4 (amended). Balance 1000, capital fraction 0.95, leverage 10, entry
    price 100, step size 0.01, precision 2: the quantity is 95.0
    (1000 * 0.95 * 10 / 100 = 95). *)
Theorem scenario_A_quantity (s : state W) (info : symbol_info) :
  base_capital_pct self = lit 95 100 ->
  leverage self = 10%Z ->
  quotes self s (lit 1000 1) (Ok (Some info)) ->
  has_filters info (lit 1 100) 2 ->
  fst (calculate_order_quantity self (lit 100 1) s) = Ok (lit 95 1).
Proof.
  intros Hp Hl Q F.
  apply (floor_rule_value s (lit 1000 1) info (lit 1 100) 2 (lit 100 1) _ Q F).
  rewrite Hp, Hl. vm_compute. reflexivity.
Qed.

End SizingRule.

Section SizingSign.
Import Binary64 Py Data Monad Bot Sizing Facts.
Local Open Scope string_scope.
Local Open Scope list_scope.

Context {W : Type} {exchange : Exchange W} {libs : PyLibs}.
Variable self : FuturesBot.

#[local] Arguments Qred : simpl never.
#[local] Arguments rnd : simpl never.
#[local] Arguments py_round : simpl never.
#[local] Arguments String.eqb : simpl never.
#[local] Arguments lit : simpl never.

(** The product of the floored ratio and the step is not negative,
    whatever the sign of the step. *)
Lemma floored_multiple_not_negative (quantity step_size ratio f : float) (k : Z) :
  fltb quantity zero = false ->
  fdiv quantity step_size = Ok ratio -> math_floor ratio = Ok k ->
  of_int k = Ok f -> fltb (fmul f step_size) zero = false.
Proof.
  intros Hq. unfold fdiv.
  destruct step_size as [b | | |].
  - destruct (Qeq_bool b 0) eqn:Z0; [discriminate |].
    assert (NZ : ~ b == 0).
    { intros E. apply Qeq_bool_iff in E. congruence. }
    destruct quantity as [a | | |]; intros [= <-]; simpl;
      try (destruct (Qcompare _ _); discriminate); try discriminate.
    apply fltb_zero_finite in Hq. unfold of_int.
    destruct (Qlt_le_dec 0 b) as [Pb | Nb].
    + assert (A : fleb zero (rnd (a / b)) = true).
      { apply rnd_nonneg. apply Qle_shift_div_l; [exact Pb | lra]. }
      destruct (rnd (a / b)) as [c | | |]; try discriminate. intros [= <-].
      apply fleb_finite in A.
      assert (B : fleb zero (rnd (inject_Z (Qfloor c))) = true).
      { apply rnd_nonneg. change 0 with (inject_Z 0). rewrite <- Zle_Qle.
        change 0%Z with (Qfloor 0). now apply Qfloor_resp_le. }
      destruct (rnd (inject_Z (Qfloor c))) as [g | | |]; try discriminate.
      intros [= <-]. apply fleb_finite in B. simpl.
      apply fleb_not_fltb, rnd_nonneg. apply Qmult_le_0_compat; lra.
    + assert (Nb' : b < 0).
      { apply Qle_lt_or_eq in Nb. destruct Nb as [Nb | Nb]; [exact Nb | contradiction]. }
      assert (A : fleb (rnd (a / b)) zero = true).
      { apply rnd_nonpos.
        assert (E : a / b == - (a / - b)) by (field; lra).
        assert (0 <= a / - b) by (apply Qle_shift_div_l; lra).
        rewrite E. lra. }
      destruct (rnd (a / b)) as [c | | |]; try discriminate. intros [= <-].
      apply fleb_finite in A.
      assert (B : fleb (rnd (inject_Z (Qfloor c))) zero = true).
      { apply rnd_nonpos. change 0 with (inject_Z 0). rewrite <- Zle_Qle.
        change 0%Z with (Qfloor 0). now apply Qfloor_resp_le. }
      destruct (rnd (inject_Z (Qfloor c))) as [g | | |]; try discriminate.
      intros [= <-]. apply fleb_finite in B. simpl.
      apply fleb_not_fltb, rnd_nonneg.
      setoid_replace (g * b) with ((- g) * (- b)) by ring.
      apply Qmult_le_0_compat; lra.
  - destruct quantity; intros [= <-]; try discriminate.
    simpl. intros [= <-]. vm_compute of_int. intros [= <-]. reflexivity.
  - destruct quantity; intros [= <-]; try discriminate.
    simpl. intros [= <-]. vm_compute of_int. intros [= <-]. reflexivity.
  - intros [= <-]. discriminate.
Qed.

Lemma floor_to_step_not_negative (quantity step_size : float) (p : option Z) (v : float) :
  fltb quantity zero = false ->
  Bot.floor_to_step quantity step_size p = Ok v -> fltb v zero = false.
Proof.
  intros Hq. unfold Bot.floor_to_step.
  destruct (fdiv quantity step_size) as [ratio |] eqn:D; [| discriminate].
  destruct (math_floor ratio) as [k |] eqn:F; [| discriminate].
  unfold int_mul_float. destruct (of_int k) as [f |] eqn:I; [| discriminate].
  pose proof (floored_multiple_not_negative _ _ _ _ _ Hq D F I) as N.
  destruct p as [p |].
  - now apply py_round_not_negative.
  - destruct (math_log step_size (lit 10 1)) as [l |]; [| discriminate].
    destruct (py_round (fneg l) 0) as [r0 |]; [| discriminate].
    destruct (int_of_float r0) as [precision |]; [| discriminate].
    now apply py_round_not_negative.
Qed.

Lemma normalized_not_negative (answer : result (option symbol_info))
    (quantity v : float) :
  fltb quantity zero = false ->
  normalized self answer quantity = Ok v -> fltb v zero = false.
Proof.
  intros Hq. unfold normalized, rounding_attempt.
  destruct answer as [[info |] | e]; try apply (py_round_not_negative _ _ _ Hq).
  destruct (lot_step_size info) as [step_size |].
  - destruct (Bot.floor_to_step quantity step_size (symbol_precision self info))
      as [t |] eqn:E.
    + intros [= <-]. eapply floor_to_step_not_negative; eassumption.
    + apply (py_round_not_negative _ _ _ Hq).
  - destruct (py_round quantity _) as [t |] eqn:E.
    + intros [= <-]. eapply py_round_not_negative; eassumption.
    + apply (py_round_not_negative _ _ _ Hq).
Qed.

(** A zero quantity stays zero through the normalization. *)
Lemma floor_to_step_zero (step_size : float) (p : option Z) (v : float) :
  is_finite step_size = true ->
  Bot.floor_to_step zero step_size p = Ok v -> v = zero.
Proof.
  intros Fs. destruct step_size as [b | | |]; try discriminate.
  unfold Bot.floor_to_step, fdiv, zero.
  destruct (Qeq_bool b 0); [discriminate |].
  assert (E : rnd (0 / b) = Finite 0) by (apply rnd_of_zero; unfold Qdiv; ring).
  rewrite E. simpl math_floor.
  unfold int_mul_float. change (of_int (0 / 1)) with (Ok (Finite 0)).
  cbv iota beta. simpl fmul.
  assert (E2 : rnd (0 * b) = Finite 0) by (apply rnd_of_zero; ring).
  rewrite E2. fold zero. destruct p as [p |].
  - rewrite py_round_zero. now intros [= <-].
  - destruct (math_log (Finite b) (lit 10 1)) as [l |]; [| discriminate].
    destruct (py_round (fneg l) 0) as [r0 |]; [| discriminate].
    destruct (int_of_float r0) as [precision |]; [| discriminate].
    rewrite py_round_zero. now intros [= <-].
Qed.

Lemma normalized_zero (answer : result (option symbol_info)) (v : float) :
  (forall info step_size,
      answer = Ok (Some info) -> lot_step_size info = Some step_size ->
      is_finite step_size = true) ->
  normalized self answer zero = Ok v -> v = zero.
Proof.
  intros Fin. unfold normalized, rounding_attempt.
  destruct answer as [[info |] | e];
    try (rewrite py_round_zero; now intros [= <-]).
  destruct (lot_step_size info) as [step_size |] eqn:L.
  - destruct (Bot.floor_to_step zero step_size (symbol_precision self info))
      as [t |] eqn:E.
    + intros [= <-]. eapply floor_to_step_zero; [| exact E].
      eapply Fin; [reflexivity | exact L].
    + rewrite py_round_zero. now intros [= <-].
  - rewrite !py_round_zero. now intros [= <-].
Qed.

Lemma raw_of_zero_balance (balance entry_price r : float) :
  feqb balance zero = true -> is_finite (base_capital_pct self) = true ->
  raw_quantity self balance entry_price = Ok r ->
  fltb zero entry_price = true -> r = zero.
Proof.
  intros Hb Fp. unfold raw_quantity, float_mul_int, of_int.
  destruct balance as [b | | |]; try discriminate.
  apply feqb_finite in Hb.
  destruct (base_capital_pct self) as [c | | |]; try discriminate.
  simpl fmul at 2.
  assert (E : rnd (b * c) = Finite 0) by (apply rnd_of_zero; rewrite Hb; ring).
  rewrite E.
  destruct (rnd (inject_Z (leverage self))) as [f | | |]; try discriminate.
  simpl fmul.
  assert (E2 : rnd (0 * f) = Finite 0) by (apply rnd_of_zero; ring).
  rewrite E2. unfold fdiv.
  destruct entry_price as [p | | |]; try discriminate.
  - intros R Hp. apply fltb_zero_pos in Hp.
    destruct (Qeq_bool p 0); [discriminate |].
    assert (E3 : rnd (0 / p) = Finite 0) by (apply rnd_of_zero; unfold Qdiv; ring).
    rewrite E3 in R. now injection R as <-.
  - now intros [= <-].
Qed.

(** C2 (amended). For a positive entry price and a non-negative balance,
    capital fraction and leverage, [calculate_order_quantity] returns a
    quantity that is not negative, and the quantity is 0 when the balance
    is 0 (the capital fraction and the step size being finite). *)
Theorem sizing_not_negative (s : state W) (balance : float)
    (answer : result (option symbol_info)) (entry_price : float) :
  quotes self s balance answer ->
  fltb balance zero = false ->
  fltb (base_capital_pct self) zero = false ->
  (0 <= leverage self <= 2 ^ 1023)%Z ->
  fltb zero entry_price = true ->
  exists q,
    fst (calculate_order_quantity self entry_price s) = Ok q /\
    fltb q zero = false /\
    (feqb balance zero = true ->
     is_finite (base_capital_pct self) = true ->
     (forall info step_size,
         answer = Ok (Some info) -> lot_step_size info = Some step_size ->
         is_finite step_size = true) ->
     q = zero).
Proof.
  intros Q Hb Hp [Hl Hu] He.
  rewrite (quotes_value self s balance answer entry_price Q). unfold sized.
  assert (R : exists r, raw_quantity self balance entry_price = Ok r).
  { unfold raw_quantity, float_mul_int.
    destruct (of_int_returns (leverage self) ltac:(lia)) as [f F]. rewrite F.
    apply fdiv_returns. destruct entry_price as [p | | |]; try discriminate; try reflexivity.
    apply fltb_zero_pos in He. unfold feqb, zero, fcompare.
    destruct (Qcompare_spec p 0); try reflexivity. exfalso; lra. }
  destruct R as [r R]. rewrite R.
  assert (Rr : representable r).
  { unfold raw_quantity in R. destruct (float_mul_int _ _); [| discriminate].
    eapply fdiv_representable; eassumption. }
  destruct (normalized_returns self answer r Rr) as (q & N & _).
  exists q. split; [exact N |]. split.
  - apply (normalized_not_negative answer r q); [| exact N].
    exact (raw_not_negative self balance entry_price r Hb Hp Hl He R).
  - intros Z0 Fp Fin.
    assert (r = zero)
      by exact (raw_of_zero_balance balance entry_price r Z0 Fp R He).
    subst r. exact (normalized_zero answer q Fin N).
Qed.

End SizingSign.

Section SizingMonotone.
Import Binary64 Py Data Monad Bot Sizing Facts.
Local Open Scope string_scope.
Local Open Scope list_scope.

Context {W : Type} {exchange : Exchange W} {libs : PyLibs}.
Variable self : FuturesBot.

#[local] Arguments Qred : simpl never.
#[local] Arguments rnd : simpl never.
#[local] Arguments py_round : simpl never.
#[local] Arguments String.eqb : simpl never.
#[local] Arguments lit : simpl never.











End SizingMonotone.

(** ** More on the signal detector *)

Section SignalOrder.
Import Binary64 Py Data Monad Bot Behaviour.

#[local] Arguments Qred : simpl never.
#[local] Arguments rnd : simpl never.

Lemma smallest_positive : rnd (pow2 emin) = Finite (Qred (pow2 emin)).
Proof. vm_compute. reflexivity. Qed.

Lemma representable_grid (a : Q) :
  representable (Finite a) -> exists k, a == inject_Z k * pow2 emin.
Proof.
  intros R. apply representable_multiple; [exact R | apply ulp_exp_min].
Qed.

(** The difference of two numbers rounds to a positive float exactly when
    it is positive: the smallest positive float is the spacing of all. *)
Lemma rnd_difference_positive (a b : Q) :
  representable (Finite a) -> representable (Finite b) ->
  b < a -> fltb zero (rnd (a - b)) = true.
Proof.
  intros Ra Rb H.
  destruct (representable_grid a Ra) as [ka Ea].
  destruct (representable_grid b Rb) as [kb Eb].
  pose proof (pow2_pos emin) as P.
  assert (K : (kb + 1 <= ka)%Z).
  { destruct (Z.le_gt_cases (kb + 1) ka) as [C | C]; [exact C | exfalso].
    assert (D : inject_Z ka <= inject_Z kb) by (rewrite <- Zle_Qle; lia).
    rewrite Ea, Eb in H. nra. }
  assert (L : pow2 emin <= a - b).
  { rewrite Ea, Eb.
    assert (D : inject_Z kb + 1 <= inject_Z ka).
    { change 1 with (inject_Z 1). rewrite <- inject_Z_plus, <- Zle_Qle. exact K. }
    nra. }
  pose proof (rnd_mono _ _ L) as M. rewrite smallest_positive in M.
  destruct (rnd (a - b)) as [v | | |] eqn:E; try discriminate; [| reflexivity].
  apply fleb_finite in M. rewrite Qred_correct in M.
  apply fltb_zero_pos. lra.
Qed.

Lemma fsub_sign (x y : float) :
  number x -> number y ->
  (fltb zero (fsub x y) = true <-> fltb y x = true) /\
  (fltb (fsub x y) zero = true <-> fltb x y = true) /\
  (feqb (fsub x y) zero = true <-> feqb x y = true).
Proof.
  intros [Fx Rx] [Fy Ry].
  destruct x as [a | | |]; try discriminate. destruct y as [b | | |]; try discriminate.
  simpl fsub. rewrite !fltb_finite, feqb_finite.
  destruct (Q_dec a b) as [[C | C] | C].
  - (* a < b *)
    assert (N : fltb zero (rnd (b - a)) = true) by now apply rnd_difference_positive.
    assert (E : rnd (a - b) = fneg (rnd (b - a))).
    { rewrite <- rnd_opp. apply rnd_wd. ring. }
    rewrite E. destruct (rnd (b - a)) as [v | | |]; try discriminate.
    + apply fltb_zero_pos in N. simpl.
      assert (V : forall c, - v < c <-> Qred (- v) < c) by (intros c; now rewrite Qred_correct).
      assert (V' : forall c, c < - v <-> c < Qred (- v)) by (intros c; now rewrite Qred_correct).
      repeat split; intros H; try lra.
      * apply fltb_finite in H. rewrite Qred_correct in H. lra.
      * apply fltb_finite. rewrite Qred_correct. lra.
      * apply feqb_finite in H. rewrite Qred_correct in H. lra.
    + simpl. repeat split; intros H; try lra; try discriminate; reflexivity.
  - (* b < a *)
    assert (N : fltb zero (rnd (a - b)) = true) by now apply rnd_difference_positive.
    destruct (rnd (a - b)) as [v | | |]; try discriminate.
    + apply fltb_zero_pos in N.
      repeat split; intros H; try lra; try reflexivity.
      * apply fltb_zero_pos. exact N.
      * apply fltb_finite in H. lra.
      * apply feqb_finite in H. lra.
    + repeat split; intros H; try lra; try discriminate; reflexivity.
  - (* a == b *)
    rewrite (rnd_of_zero (a - b)) by lra. unfold zero.
    rewrite !fltb_finite, feqb_finite. repeat split; intros H; try lra.
Qed.

Lemma fleb_split (x y : float) : fleb x y = fltb x y || feqb x y.
Proof. unfold fleb, fltb, feqb. destruct (fcompare x y) as [[| |] |]; reflexivity. Qed.

Lemma feqb_sym (x y : float) : feqb x y = feqb y x.
Proof.
  unfold feqb. pose proof (fcompare_antisym x y) as A.
  destruct (fcompare x y) as [[| |] |], (fcompare y x) as [[| |] |];
    simpl in A; try reflexivity; try discriminate; try contradiction.
Qed.

Lemma fsub_not_above (x y : float) :
  number x -> number y -> fleb (fsub x y) zero = fleb x y.
Proof.
  intros Nx Ny. destruct (fsub_sign x y Nx Ny) as (_ & B & C).
  rewrite !fleb_split.
  destruct (fltb (fsub x y) zero) eqn:E1, (fltb x y) eqn:E2,
    (feqb (fsub x y) zero) eqn:E3, (feqb x y) eqn:E4; simpl; try reflexivity;
    intuition congruence.
Qed.

Lemma fsub_not_below (x y : float) :
  number x -> number y -> fleb zero (fsub x y) = fleb y x.
Proof.
  intros Nx Ny. destruct (fsub_sign x y Nx Ny) as (A & _ & C).
  rewrite !fleb_split, (feqb_sym zero), (feqb_sym y x).
  destruct (fltb zero (fsub x y)) eqn:E1, (fltb y x) eqn:E2,
    (feqb (fsub x y) zero) eqn:E3, (feqb x y) eqn:E4; simpl; try reflexivity;
    intuition congruence.
Qed.

Lemma determine_signal_last_two (df : list row) (prev last : row) :
  determine_signal (df ++ [prev; last]) =
    let prev_diff := fsub (ema_fast prev) (ema_slow prev) in
    let current_diff := fsub (ema_fast last) (ema_slow last) in
    if fleb prev_diff zero && fgtb current_diff zero then Some LONG
    else if fgeb prev_diff zero && fltb current_diff zero then Some SHORT
    else None.
Proof. unfold determine_signal. rewrite rev_app_distr. reflexivity. Qed.

(** X1. On averages that are numbers, the detector decides by the order of the
    two averages themselves: LONG exactly when the fast average was not
    above the slow one and now is above it, SHORT exactly when it was not
    below and now is below.  Rounding the difference never changes its sign. *)
Theorem determine_signal_compares_averages (df : list row) (prev last : row) :
  number (ema_fast prev) -> number (ema_slow prev) ->
  number (ema_fast last) -> number (ema_slow last) ->
  let emitted := determine_signal (df ++ [prev; last]) in
  (emitted = Some LONG <->
     fleb (ema_fast prev) (ema_slow prev) = true /\
     fgtb (ema_fast last) (ema_slow last) = true) /\
  (emitted = Some SHORT <->
     fgeb (ema_fast prev) (ema_slow prev) = true /\
     fltb (ema_fast last) (ema_slow last) = true).
Proof.
  intros A B C D emitted. unfold emitted. rewrite determine_signal_last_two.
  cbv zeta. unfold fgtb, fgeb.
  rewrite (fsub_not_above _ _ A B), (fsub_not_below _ _ A B).
  destruct (fsub_sign _ _ C D) as (P & N & _).
  assert (X : fltb (ema_slow last) (ema_fast last) = true ->
              fltb (ema_fast last) (ema_slow last) = false) by apply above_not_below.
  destruct (fltb zero (fsub (ema_fast last) (ema_slow last))) eqn:E1,
    (fltb (fsub (ema_fast last) (ema_slow last)) zero) eqn:E2,
    (fltb (ema_slow last) (ema_fast last)) eqn:E3,
    (fltb (ema_fast last) (ema_slow last)) eqn:E4,
    (fleb (ema_fast prev) (ema_slow prev)) eqn:E5,
    (fleb (ema_slow prev) (ema_fast prev)) eqn:E6; simpl;
    try (specialize (X eq_refl); discriminate);
    try (destruct P as [P1 P2]; destruct N as [N1 N2];
         first [ specialize (P1 eq_refl) | specialize (P2 eq_refl)
               | specialize (N1 eq_refl) | specialize (N2 eq_refl) ]; discriminate);
    repeat split; intros; try tauto; try congruence;
    try (match goal with H : _ /\ _ |- _ => destruct H end; congruence).
Qed.

(** X2. Exchanging the two averages exchanges LONG and SHORT, for every float
    the columns may hold. *)
Theorem determine_signal_swap (df : list row) :
  determine_signal (map swap_averages df) = option_map opposite (determine_signal df).
Proof.
  assert (S : forall x y, fsub y x = fneg (fsub x y)).
  { intros [a | | |] [b | | |]; try reflexivity. simpl.
    rewrite <- rnd_opp. apply rnd_wd. ring. }
  assert (L : forall d, fleb (fneg d) zero = fleb zero d).
  { intros [v | | |]; try reflexivity. unfold zero.
    destruct (fleb (Finite 0) (Finite v)) eqn:E.
    - apply fleb_finite in E. apply fleb_finite. simpl. rewrite Qred_correct. lra.
    - destruct (fleb (fneg (Finite v)) (Finite 0)) eqn:E'; [| reflexivity].
      apply fleb_finite in E'. rewrite Qred_correct in E'.
      assert (F : fleb (Finite 0) (Finite v) = true) by (apply fleb_finite; lra).
      congruence. }
  assert (G : forall d, fleb zero (fneg d) = fleb d zero).
  { intros [v | | |]; try reflexivity. unfold zero.
    destruct (fleb (Finite v) (Finite 0)) eqn:E.
    - apply fleb_finite in E. apply fleb_finite. rewrite Qred_correct. lra.
    - destruct (fleb (Finite 0) (fneg (Finite v))) eqn:E'; [| reflexivity].
      apply fleb_finite in E'. rewrite Qred_correct in E'.
      assert (F : fleb (Finite v) (Finite 0) = true) by (apply fleb_finite; lra).
      congruence. }
  assert (T : forall d, fltb (fneg d) zero = fltb zero d).
  { intros [v | | |]; try reflexivity. unfold zero.
    destruct (fltb (Finite 0) (Finite v)) eqn:E.
    - apply fltb_finite in E. apply fltb_finite. rewrite Qred_correct. lra.
    - destruct (fltb (fneg (Finite v)) (Finite 0)) eqn:E'; [| reflexivity].
      apply fltb_finite in E'. rewrite Qred_correct in E'.
      assert (F : fltb (Finite 0) (Finite v) = true) by (apply fltb_finite; lra).
      congruence. }
  assert (U : forall d, fltb zero (fneg d) = fltb d zero).
  { intros [v | | |]; try reflexivity. unfold zero.
    destruct (fltb (Finite v) (Finite 0)) eqn:E.
    - apply fltb_finite in E. apply fltb_finite. rewrite Qred_correct. lra.
    - destruct (fltb (Finite 0) (fneg (Finite v))) eqn:E'; [| reflexivity].
      apply fltb_finite in E'. rewrite Qred_correct in E'.
      assert (F : fltb (Finite v) (Finite 0) = true) by (apply fltb_finite; lra).
      congruence. }
  unfold determine_signal. rewrite <- map_rev.
  destruct (rev df) as [| last_row [| prev_row rest]]; try reflexivity.
  cbn [map]. cbv zeta. unfold swap_averages. cbn [ema_fast ema_slow].
  rewrite (S (ema_fast prev_row) (ema_slow prev_row)),
          (S (ema_fast last_row) (ema_slow last_row)).
  unfold fgtb, fgeb. rewrite L, G, T, U.
  set (dp := fsub (ema_fast prev_row) (ema_slow prev_row)).
  set (dl := fsub (ema_fast last_row) (ema_slow last_row)).
  pose proof (above_not_below zero dl) as X. pose proof (above_not_below dl zero) as Y.
  destruct (fleb zero dp), (fleb dp zero), (fltb zero dl), (fltb dl zero);
    simpl; try reflexivity;
    try (specialize (X eq_refl); discriminate);
    try (specialize (Y eq_refl); discriminate).
Qed.

(** X3. The same signal is never emitted on two consecutive candles: after a
    crossover the previous difference has the sign that rules it out. *)
Theorem determine_signal_no_repeat (df : list row) (a b c : row) (sg : signal) :
  determine_signal (df ++ [a; b]) = Some sg ->
  determine_signal (df ++ [a; b; c]) <> Some sg.
Proof.
  replace (df ++ [a; b; c]) with ((df ++ [a]) ++ [b; c]) by now rewrite <- app_assoc.
  rewrite !determine_signal_last_two. cbv zeta. unfold fgtb, fgeb.
  set (da := fsub (ema_fast a) (ema_slow a)).
  set (db := fsub (ema_fast b) (ema_slow b)).
  set (dc := fsub (ema_fast c) (ema_slow c)).
  pose proof (fleb_not_fltb db zero) as X. pose proof (fleb_not_fltb zero db) as Y.
  pose proof (above_not_below zero db) as Z1.
  destruct (fleb da zero), (fleb zero da), (fltb zero db) eqn:P, (fltb db zero) eqn:N,
    (fleb db zero), (fleb zero db), (fltb zero dc), (fltb dc zero);
    simpl; intros H1 H2; try discriminate; try congruence;
    try (specialize (X eq_refl); discriminate);
    try (specialize (Y eq_refl); discriminate);
    try (specialize (Z1 eq_refl); discriminate).
Qed.

End SignalOrder.

(** ** Quantities below one step *)

Section BelowStep.
Import Binary64 Py Data Monad Bot Sizing Facts Behaviour.

#[local] Arguments Qred : simpl never.
#[local] Arguments rnd : simpl never.
#[local] Arguments py_round : simpl never.

Lemma below_one_representable : rnd below_one = Finite below_one.
Proof. vm_compute. reflexivity. Qed.

Lemma below_one_pow2 : below_one == 1 - pow2 (-53).
Proof. vm_compute. reflexivity. Qed.

(** Two floats [0 < a < b] are at least one part in [2^53] apart. *)
Lemma quotient_gap (a b : Q) :
  representable (Finite a) -> representable (Finite b) ->
  0 < a -> a < b -> a <= below_one * b.
Proof.
  intros Ra Rb Pa H.
  assert (NZa : ~ a == 0) by lra. assert (NZb : ~ b == 0) by lra.
  pose proof (ulp_exp_upper b NZb) as Ub. rewrite Qabs_pos in Ub by lra.
  pose proof (ulp_exp_upper a NZa) as Ua. rewrite Qabs_pos in Ua by lra.
  rewrite below_one_pow2.
  set (ea := ulp_exp a) in *. set (eb := ulp_exp b) in *.
  pose proof (pow2_pos eb) as Peb. pose proof (pow2_pos ea) as Pea.
  assert (S53 : forall e, pow2 (e + 53) * pow2 (-53) == pow2 e).
  { intros e. rewrite <- pow2_add. now replace (e + 53 + -53)%Z with e by lia. }
  pose proof (pow2_pos (-53)) as P53.
  destruct (Z.le_gt_cases eb ea) as [C | C].
  - (* same spacing: the significands differ by one at least *)
    destruct (representable_multiple a eb Ra C) as [ka Ea].
    destruct (representable_multiple b eb Rb (Z.le_refl _)) as [kb Eb].
    assert (K : (ka + 1 <= kb)%Z).
    { destruct (Z.le_gt_cases (ka + 1) kb) as [D | D]; [exact D | exfalso].
      assert (D' : inject_Z kb <= inject_Z ka) by (rewrite <- Zle_Qle; lia).
      rewrite Ea, Eb in H. nra. }
    assert (D : inject_Z ka + 1 <= inject_Z kb).
    { change 1 with (inject_Z 1). rewrite <- inject_Z_plus, <- Zle_Qle. exact K. }
    assert (G : pow2 eb <= b - a) by (rewrite Ea, Eb; nra).
    assert (B : b * pow2 (-53) <= pow2 eb).
    { rewrite <- (S53 eb). apply Qmult_le_compat_r; lra. }
    lra.
  - (* [a] lies in a binade below that of [b] *)
    destruct (ulp_exp_lower b NZb) as [L | L].
    { pose proof (ulp_exp_min a). fold eb in L. fold ea in H0. lia. }
    rewrite Qabs_pos in L by lra. fold eb in L.
    destruct (representable_multiple a ea Ra (Z.le_refl _)) as [ka Ea].
    assert (K : (ka <= 2 ^ 53 - 1)%Z).
    { destruct (Z.le_gt_cases ka (2 ^ 53 - 1)) as [D | D]; [exact D | exfalso].
      assert (D' : inject_Z (2 ^ 53) <= inject_Z ka) by (rewrite <- Zle_Qle; lia).
      rewrite (pow2_Z 53) in D' by lia.
      rewrite pow2_add in Ua. rewrite Ea in Ua. 
      assert (X : pow2 53 * pow2 ea <= inject_Z ka * pow2 ea).
      { apply Qmult_le_compat_r; lra. }
      lra. }
    assert (D : inject_Z ka <= pow2 53 - 1).
    { assert (D' : inject_Z (ka + 1) <= inject_Z (2 ^ 53)) by (rewrite <- Zle_Qle; lia).
      rewrite inject_Z_plus, (pow2_Z 53) in D' by lia.
      change (inject_Z 1) with 1 in D'. lra. }
    assert (A1 : a <= (pow2 53 - 1) * pow2 ea).
    { rewrite Ea. apply Qmult_le_compat_r; lra. }
    assert (A2 : pow2 (ea + 53) <= b).
    { eapply Qle_trans; [| exact L]. apply pow2_le. lia. }
    rewrite pow2_add in A2.
    assert (A3 : (pow2 53 - 1) * pow2 ea == (1 - pow2 (-53)) * (pow2 ea * pow2 53)).
    { assert (Y : pow2 53 * pow2 (-53) == 1).
      { rewrite <- pow2_add. reflexivity. }
      setoid_replace ((1 - pow2 (-53)) * (pow2 ea * pow2 53))
        with (pow2 ea * pow2 53 - pow2 ea * (pow2 53 * pow2 (-53))) by ring.
      rewrite Y. ring. }
    assert (A4 : 0 <= 1 - pow2 (-53)).
    { rewrite <- below_one_pow2. discriminate. }
    assert (A5 : (1 - pow2 (-53)) * (pow2 ea * pow2 53) <= (1 - pow2 (-53)) * b).
    { rewrite !(Qmult_comm (1 - pow2 (-53))). apply Qmult_le_compat_r; lra. }
    lra.
Qed.

(** The quotient of a float by a larger one rounds to a float below 1. *)
Lemma quotient_below_one (a b : Q) :
  representable (Finite a) -> representable (Finite b) ->
  0 <= a -> a < b ->
  exists v, rnd (a / b) = Finite v /\ 0 <= v /\ v < 1.
Proof.
  intros Ra Rb Pa H.
  assert (Pb : 0 < b) by lra.
  assert (L : 0 <= a / b).
  { apply Qle_shift_div_l; lra. }
  assert (U : a / b <= below_one).
  { apply Qle_shift_div_r; [exact Pb |].
    apply Qle_lt_or_eq in Pa. destruct Pa as [Pa | Pa].
    - now apply quotient_gap.
    - rewrite <- Pa. assert (0 <= below_one) by discriminate. nra. }
  pose proof (rnd_mono _ _ U) as M. rewrite below_one_representable in M.
  pose proof (rnd_nonneg _ L) as N.
  destruct (rnd (a / b)) as [v | | |]; try discriminate.
  exists v. split; [reflexivity |].
  apply fleb_finite in M. apply fleb_finite in N.
  assert (below_one < 1) by reflexivity. split; lra.
Qed.

(** [math.floor(quantity / step_size) * step_size] is 0.0 for a quantity
    below the step. *)
Lemma floor_to_step_below (quantity step_size : float) (p : Z) :
  number quantity -> number step_size ->
  fleb zero quantity = true -> fltb quantity step_size = true ->
  forall {libs : PyLibs}, Bot.floor_to_step quantity step_size (Some p) = Ok zero.
Proof.
  intros [Fq Rq] [Fs Rs] Pq H libs.
  destruct quantity as [a | | |]; try discriminate.
  destruct step_size as [b | | |]; try discriminate.
  apply fleb_finite in Pq. apply fltb_finite in H.
  destruct (quotient_below_one a b Rq Rs Pq H) as (v & E & V0 & V1).
  unfold Bot.floor_to_step, fdiv.
  assert (NZ : Qeq_bool b 0 = false).
  { destruct (Qeq_bool b 0) eqn:Z0; [| reflexivity].
    apply Qeq_bool_iff in Z0. lra. }
  rewrite NZ, E. unfold math_floor.
  assert (F : Qfloor v = 0%Z).
  { pose proof (Qfloor_le v) as F1. pose proof (Qlt_floor v) as F2.
    assert (G1 : (Qfloor v < 1)%Z).
    { apply Z.lt_nge. intros G. rewrite Zle_Qle in G. change (inject_Z 1) with 1 in G. lra. }
    assert (G2 : (-1 < Qfloor v)%Z).
    { apply Z.lt_nge. intros G.
      assert (G' : (Qfloor v + 1 <= 0)%Z) by lia.
      rewrite Zle_Qle in G'. change (inject_Z 0) with 0 in G'. lra. }
    lia. }
  rewrite F. unfold int_mul_float.
  change (of_int 0) with (Ok (Finite 0)).
  cbn [fmul].
  assert (Z0 : rnd (0 * b) = zero) by (apply rnd_of_zero; ring).
  rewrite Z0. apply py_round_zero.
Qed.

End BelowStep.

(** ** The balance and the rounding of quantities *)

Section Rounding.
Import Binary64 Py Data Monad Bot Sizing Facts Behaviour.
Local Open Scope string_scope.
Local Open Scope list_scope.

Context {W : Type} {exchange : Exchange W} {libs : PyLibs}.
Variable self : FuturesBot.

#[local] Arguments Qred : simpl never.
#[local] Arguments rnd : simpl never.
#[local] Arguments py_round : simpl never.
#[local] Arguments String.eqb : simpl never.
#[local] Arguments lit : simpl never.

Lemma find_first (A : Type) (f : A -> bool) (pre post : list A) (a : A) :
  (forall x, In x pre -> f x = false) -> f a = true ->
  find f (pre ++ a :: post) = Some a.
Proof.
  intros N H. induction pre as [| x pre IH]; simpl.
  - now rewrite H.
  - rewrite (N x (or_introl eq_refl)). apply IH. intros y Hy. apply N. now right.
Qed.

(** X5. [get_available_balance] never raises and makes one request.  It returns
    the available balance of the first USDT entry of the answer, whatever
    follows it; 0.0 when no entry is for USDT; and 0.0, after logging the
    error, when the request raises any exception. *)
Theorem get_available_balance_outcomes (s : state W) :
  exists b,
    fst (get_available_balance s) = Ok b /\
    journal (snd (get_available_balance s)) = journal s ++ [CallAccountBalance] /\
    (forall pre a post w,
        futures_account_balance (session s) = (Ok (pre ++ a :: post), w) ->
        (forall x, In x pre -> asset x <> "USDT") -> asset a = "USDT" ->
        b = availableBalance a /\ csv (snd (get_available_balance s)) = csv s) /\
    (forall data w,
        futures_account_balance (session s) = (Ok data, w) ->
        (forall x, In x data -> asset x <> "USDT") ->
        b = zero /\ csv (snd (get_available_balance s)) = csv s) /\
    (forall e w,
        futures_account_balance (session s) = (Raise e, w) ->
        b = zero /\
        csv (snd (get_available_balance s))
        = csv s ++ [ {| event := "Error fetching balance"; details := [Err e] |} ]).
Proof.
  unfold get_available_balance, try_except, bind, invoke.
  destruct (futures_account_balance (session s)) as [[data | e] w]; simpl.
  - destruct (find (fun a => asset a =? "USDT") data) as [a0 |] eqn:F; simpl.
    + exists (availableBalance a0).
      split; [reflexivity |]. split; [reflexivity |]. split; [| split].
      * intros pre a post w' [= -> <-] N H. split; [| reflexivity].
        rewrite find_first in F.
        -- now injection F as <-.
        -- intros x Hx. apply String.eqb_neq. now apply N.
        -- now apply String.eqb_eq.
      * intros data' w' [= <- <-] N. apply find_some in F. destruct F as [I E].
        apply String.eqb_eq in E. now destruct (N a0 I).
      * discriminate.
    + exists zero.
      split; [reflexivity |]. split; [reflexivity |]. split; [| split].
      * intros pre a post w' [= -> <-] N H.
        rewrite find_first in F; [discriminate | |].
        -- intros x Hx. apply String.eqb_neq. now apply N.
        -- now apply String.eqb_eq.
      * intros data' w' _ _. now split.
      * discriminate.
  - exists zero.
    split; [reflexivity |]. split; [reflexivity |]. split; [| split].
    + discriminate.
    + discriminate.
    + intros e' w' [= <- <-]. now split.
Qed.

(** X6. [round_quantity] never raises: for every answer of the exchange it
    returns a float, after one request and one log row. *)
Theorem round_quantity_never_raises (quantity : float) (s : state W) :
  representable quantity ->
  exists v r,
    round_quantity self quantity s =
      (Ok v,
       {| session := snd (get_symbol_info (symbol self) (session s));
          journal := journal s ++ [CallSymbolInfo (symbol self)];
          csv := csv s ++ [r] |})
    /\ representable v.
Proof.
  intros R. destruct (round_quantity_returns self quantity s R) as (v & r & E & _ & Rv).
  exists v, r. now split.
Qed.

Lemma fdiv_of_not_number (x y : float) (ratio : float) :
  is_finite x = false -> fdiv x y = Ok ratio -> is_finite ratio = false.
Proof.
  assert (S : forall c, is_finite (inf_of_sign c) = false) by (intros [| |]; reflexivity).
  unfold fdiv. intros F.
  destruct y as [b | | |].
  - destruct (Qeq_bool b 0); [discriminate |].
    destruct x as [a | | |]; try discriminate; intros [= <-]; try reflexivity; apply S.
  - destruct x; try discriminate; now intros [= <-].
  - destruct x; try discriminate; now intros [= <-].
  - now intros [= <-].
Qed.

Lemma rounding_attempt_fails (quantity : float) (answer : option symbol_info) :
  attempt_fails quantity (Ok answer) ->
  exists e, rounding_attempt self answer quantity = Raise e.
Proof.
  intros H. inversion H as [| | info step_size L Z0 | info step_size L F]; subst.
  - exists TypeError. reflexivity.
  - unfold rounding_attempt, Bot.floor_to_step. rewrite L.
    destruct step_size as [b | | |]; try discriminate.
    apply feqb_finite in Z0. unfold fdiv.
    rewrite (proj2 (Qeq_bool_iff b 0) Z0). eexists; reflexivity.
  - unfold rounding_attempt, Bot.floor_to_step. rewrite L.
    destruct (fdiv quantity step_size) as [ratio | e] eqn:D; [| eexists; reflexivity].
    pose proof (fdiv_of_not_number _ _ _ F D) as N.
    destruct ratio; try discriminate; eexists; reflexivity.
Qed.

(** X7. When its [try] block raises, [round_quantity] returns
    [round(quantity, 3)], whatever the symbol and its precision, and logs
    the error: the step size plays no part in the result. *)
Theorem round_quantity_falls_back (quantity : float) (s : state W)
    (answer : result (option symbol_info)) (w : W) :
  attempt_fails quantity answer ->
  get_symbol_info (symbol self) (session s) = (answer, w) ->
  exists e,
    round_quantity self quantity s =
      (py_round quantity 3,
       {| session := w;
          journal := journal s ++ [CallSymbolInfo (symbol self)];
          csv := csv s ++ [ {| event := "Error rounding quantity";
                               details := [Err e] |} ] |}).
Proof.
  intros F A. unfold round_quantity, try_except, bind, invoke. rewrite A.
  destruct answer as [info | e]; simpl.
  - destruct (rounding_attempt_fails quantity info F) as [e E].
    exists e. unfold rounding_attempt in E.
    destruct info as [info |]; simpl.
    + destruct (lot_step_size info) as [step_size |]; unfold lift, bind, log; simpl.
      * rewrite E. simpl. reflexivity.
      * rewrite E. simpl. reflexivity.
    + injection E as <-. reflexivity.
  - exists e. reflexivity.
Qed.

(** X8. A quantity below one step is sized to 0.0: with a [LOT_SIZE] step and
    a precision available, every quantity [0 <= quantity < step_size]
    comes back as 0.0, however close to the step it is. *)
Theorem quantity_below_step_is_zero (quantity step_size : float) (p : Z)
    (s : state W) (info : symbol_info) (w : W) :
  get_symbol_info (symbol self) (session s) = (Ok (Some info), w) ->
  has_filters info step_size p ->
  number quantity -> number step_size ->
  fleb zero quantity = true -> fltb quantity step_size = true ->
  fst (round_quantity self quantity s) = Ok zero.
Proof.
  intros A H Nq Ns P B.
  destruct (round_quantity_run self quantity s _ w A) as [r E]. rewrite E. cbn [fst].
  rewrite (normalized_with_filters self info step_size p quantity H).
  now rewrite (floor_to_step_below quantity step_size p Nq Ns P B).
Qed.

End Rounding.

(** ** Exceptions and orders *)

Section OrderMethods.
Import Binary64 Py Data Monad Bot Sizing Facts Behaviour.
Local Open Scope string_scope.
Local Open Scope list_scope.

Context {W : Type} {exchange : Exchange W} {libs : PyLibs}.
Variable self : FuturesBot.

#[local] Arguments Qred : simpl never.
#[local] Arguments rnd : simpl never.
#[local] Arguments py_round : simpl never.
#[local] Arguments String.eqb : simpl never.
#[local] Arguments lit : simpl never.

Lemma calculate_order_quantity_raises (entry_price : float) (s : state W) (e : exn) :
  fst (calculate_order_quantity self entry_price s) = Raise e ->
  e = OverflowError \/ e = ZeroDivisionError.
Proof.
  destruct (calculate_order_quantity_run self entry_price s) as (s' & E & _). rewrite E.
  simpl. unfold sized, raw_quantity, float_mul_int, of_int.
  destruct (rnd (inject_Z (leverage self))); try (intros [= <-]; now left).
  destruct (fdiv _ entry_price) as [quantity | e0] eqn:D.
  - unfold normalized.
    match goal with |- context [match ?a with Ok _ => _ | Raise _ => _ end] =>
      destruct a as [info | e1] end.
    + destruct (rounding_attempt self info quantity); [discriminate |].
      intros H. left. eapply py_round_raises, H.
    + intros H. left. eapply py_round_raises, H.
  - intros [= <-]. right. unfold fdiv in D.
    destruct entry_price as [p | | |].
    + destruct (Qeq_bool p 0); [now injection D as <- |].
      destruct (fmul _ _); discriminate.
    + destruct (fmul _ _); discriminate.
    + destruct (fmul _ _); discriminate.
    + discriminate.
Qed.

(** X13. An exception of the Binance API never leaves the methods that talk to
    the exchange about leverage and orders: each of them handles it, and
    the sizing they call raises only arithmetic errors. *)
Theorem api_exceptions_do_not_escape (sg : signal) (x : float) :
  api_exception_free (set_leverage self) /\
  api_exception_free (place_order self sg x) /\
  api_exception_free (place_trailing_stop self sg x) /\
  api_exception_free (check_and_place_trailing_stop self sg x) /\
  api_exception_free (manage_stop_orders self sg).
Proof.
  assert (PT : forall q, api_exception_free (place_trailing_stop self sg q)).
  { intros q s e. unfold place_trailing_stop, bind.
    destruct (round_quantity self q s) as [[v | e0] s1] eqn:R; simpl.
    - unfold try_except_api, bind, invoke, log, ret.
      destruct (futures_create_order (trailing_request self sg v (lit 1 1)) (session s1))
        as [[o | e1] w1]; simpl; [discriminate |].
      destruct (is_api_exception e1) eqn:A1; simpl; [| now intros [= <-]].
      destruct (futures_create_order (trailing_request self sg v (lit 5 10)) w1)
        as [[o | e2] w2]; simpl; [discriminate |].
      destruct (is_api_exception e2) eqn:A2; simpl; [discriminate | now intros [= <-]].
    - intros [= <-].
      pose proof (round_quantity_raises self q s e0) as H. rewrite R in H.
      now rewrite (H eq_refl). }
  split; [| split; [| split; [exact (PT x) | split]]].
  - intros s e. unfold set_leverage, try_except_api, bind, invoke, log.
    destruct (futures_change_leverage (symbol self) (leverage self) (session s))
      as [[[] | e0] w]; simpl; [discriminate |].
    destruct (is_api_exception e0) eqn:A; simpl; [discriminate | now intros [= <-]].
  - intros s e. unfold place_order, bind.
    destruct (calculate_order_quantity self x s) as [[q | e0] s1] eqn:C; simpl.
    + unfold try_except_api, bind, invoke, log, ret.
      destruct (futures_create_order (market_request self sg q) (session s1))
        as [[o | e1] w1]; simpl; [discriminate |].
      destruct (is_api_exception e1) eqn:A1; simpl; [discriminate | now intros [= <-]].
    + intros [= <-].
      pose proof (calculate_order_quantity_raises x s e0) as H. rewrite C in H.
      destruct (H eq_refl) as [-> | ->]; reflexivity.
  - intros s e. unfold check_and_place_trailing_stop, try_except_api, bind, invoke.
    destruct (futures_get_open_orders (symbol self) (session s)) as [[orders | e0] w]; simpl.
    + destruct (existsb is_trailing orders); unfold log at 1; simpl; [discriminate |].
      match goal with |- context [place_trailing_stop self sg x ?st] =>
        pose proof (PT x st) as H;
        destruct (place_trailing_stop self sg x st) as [[placed | e1] s2] end; simpl.
      * discriminate.
      * specialize (H e1 eq_refl). rewrite H. now intros [= <-].
    + destruct (is_api_exception e0) eqn:A; simpl; [discriminate | now intros [= <-]].
  - intros s e. unfold manage_stop_orders, try_except_api, bind, invoke.
    destruct (futures_get_open_orders (symbol self) (session s)) as [[orders | e0] w]; simpl.
    + destruct (scan_stop_orders orders) as [[stop |] [trailing |]]; simpl; try discriminate.
      destruct (futures_cancel_order (symbol self) (orderId stop) w) as [[[] | e1] w1];
        simpl; [discriminate |].
      destruct (is_api_exception e1) eqn:A; simpl; [discriminate | now intros [= <-]].
    + destruct (is_api_exception e0) eqn:A; simpl; [discriminate | now intros [= <-]].
Qed.

(** X12. With several STOP_MARKET orders listed beside a trailing stop,
    [manage_stop_orders] cancels the one listed last and no other: the
    earlier fixed stops stay on the book. *)
Theorem manage_stop_orders_cancels_last_listed (sg : signal) (s : state W)
    (pre post : list order) (o : order) (w : W) :
  futures_get_open_orders (symbol self) (session s) = (Ok (pre ++ o :: post), w) ->
  is_stop_market o = true ->
  (forall x, In x post -> is_stop_market x = false) ->
  existsb is_trailing (pre ++ o :: post) = true ->
  cancellations (journal (snd (manage_stop_orders self sg s)))
  = cancellations (journal s) ++ [orderId o].
Proof.
  intros A H N T.
  pose proof (scan_keeps_last_stop_market pre post o H N) as F.
  destruct (proj2 (scan_some (pre ++ o :: post) None None) T) as (t & Ft & _ & _).
  unfold manage_stop_orders, try_except_api, bind, invoke. rewrite A. simpl.
  unfold scan_stop_orders in *.
  destruct (fold_left scan_step (pre ++ o :: post) (None, None)) as [a b].
  simpl in F, Ft. subst a b. simpl.
  destruct (futures_cancel_order (symbol self) (orderId o) w) as [[[] | e] w3]; simpl.
  - journal_solve.
  - destruct (is_api_exception e); journal_solve.
Qed.

(** X9. An entry price of zero: [place_order] raises [ZeroDivisionError] after
    asking for the balance only, and submits nothing. *)
Theorem place_order_at_price_zero (sg : signal) (entry_price : float) (s : state W) :
  feqb entry_price zero = true ->
  (- 2 ^ 1023 <= leverage self <= 2 ^ 1023)%Z ->
  fst (place_order self sg entry_price s) = Raise ZeroDivisionError /\
  journal (snd (place_order self sg entry_price s)) = journal s ++ [CallAccountBalance].
Proof.
  intros Z0 L. destruct entry_price as [p | | |]; try discriminate.
  apply feqb_finite in Z0.
  destruct (of_int_returns (leverage self) L) as [f F].
  destruct (futures_account_balance (session s)) as [cash w1] eqn:A.
  destruct (get_available_balance_run s cash w1 A) as [rows E].
  unfold place_order, bind, calculate_order_quantity, bind. rewrite E.
  unfold float_mul_int, lift. rewrite F. unfold fdiv.
  rewrite (proj2 (Qeq_bool_iff p 0) Z0). simpl. split; reflexivity.
Qed.

(** X10. No guard on the quantity: with a zero balance, also the 0.0 that
    [get_available_balance] returns when its request fails, [place_order]
    submits a MARKET order for the quantity 0.0. *)
Theorem place_order_submits_zero_quantity (sg : signal) (entry_price : float)
    (s : state W) (balance : float) (answer : result (option symbol_info)) :
  quotes self s balance answer ->
  feqb balance zero = true ->
  is_finite (base_capital_pct self) = true ->
  (- 2 ^ 1023 <= leverage self <= 2 ^ 1023)%Z ->
  fltb zero entry_price = true ->
  (forall info step_size,
      answer = Ok (Some info) -> lot_step_size info = Some step_size ->
      is_finite step_size = true) ->
  submissions (journal (snd (place_order self sg entry_price s)))
  = submissions (journal s) ++ [market_request self sg zero].
Proof.
  intros Q Z0 Fp L P Fin.
  pose proof (quotes_value self s balance answer entry_price Q) as V.
  destruct Q as (cash & w1 & w2 & A & B & C).
  destruct (calculate_order_quantity_run self entry_price s) as (s1 & E & Sub & _).
  rewrite A in E. simpl in E. rewrite C, B in E. simpl in E.
  assert (R : exists r, raw_quantity self balance entry_price = Ok r).
  { unfold raw_quantity, float_mul_int.
    destruct (of_int_returns (leverage self) L) as [f F]. rewrite F.
    apply fdiv_returns. destruct entry_price as [p | | |]; try discriminate; try reflexivity.
    apply fltb_zero_pos in P. unfold feqb, zero, fcompare.
    destruct (Qcompare p 0) eqn:Cp; try reflexivity.
    apply Qeq_alt in Cp. lra. }
  destruct R as [r R].
  pose proof (raw_of_zero_balance self balance entry_price r Z0 Fp R P) as ->.
  destruct (normalized_returns self answer zero representable_zero) as (v & N & _).
  pose proof (normalized_zero self answer v Fin N) as ->.
  assert (S : sized self balance answer entry_price = Ok zero).
  { unfold sized. now rewrite R. }
  rewrite S in E.
  unfold place_order, bind. rewrite E.
  unfold try_except_api, bind, invoke, log, ret.
  destruct (futures_create_order (market_request self sg zero) (session s1))
    as [[o | e] w3]; simpl.
  - rewrite submissions_app, Sub. reflexivity.
  - destruct (is_api_exception e); simpl; rewrite submissions_app, Sub; reflexivity.
Qed.

(** X11. Only a [BinanceAPIException] is retried: any other exception of the
    first submission leaves [place_trailing_stop] at once, after that one
    submission. *)
Theorem trailing_stop_retries_api_errors_only (sg : signal) (quantity q : float)
    (s s1 : state W) (e : exn) (w : W) :
  round_quantity self quantity s = (Ok q, s1) ->
  futures_create_order (trailing_request self sg q (lit 1 1)) (session s1) = (Raise e, w) ->
  is_api_exception e = false ->
  place_trailing_stop self sg quantity s =
    (Raise e,
     {| session := w;
        journal := journal s1 ++ [CallCreateOrder (trailing_request self sg q (lit 1 1))];
        csv := csv s1 |}).
Proof.
  intros R A X. unfold place_trailing_stop, bind. rewrite R.
  unfold try_except_api, bind, invoke. rewrite A. simpl. now rewrite X.
Qed.

(** X25. [round_quantity] never makes a quantity negative: whatever the
    exchange answers and whatever the sign of the step size, a quantity
    that is not negative comes back not negative; so every trailing stop
    that [place_trailing_stop] submits for such a quantity has a quantity
    that is not negative. *)
Theorem round_quantity_not_negative (sg : signal) (quantity : float) (s : state W) :
  representable quantity ->
  fltb quantity zero = false ->
  (exists v, fst (round_quantity self quantity s) = Ok v /\ fltb v zero = false) /\
  exists sent,
    submissions (journal (snd (place_trailing_stop self sg quantity s)))
    = submissions (journal s) ++ sent /\
    Forall (fun rq => fltb (rq_quantity rq) zero = false) sent.
Proof.
  intros R N. split.
  - destruct (round_quantity_returns self quantity s R) as (v & r & E & V & _).
    exists v. rewrite E. split; [reflexivity |].
    exact (normalized_not_negative self _ quantity v N V).
  - destruct (place_trailing_stop_journal self sg quantity s R)
      as (q & s1 & extra & _ & V & _ & S & X & _).
    pose proof (normalized_not_negative self _ quantity q N V) as Q.
    exists (trailing_request self sg q (lit 1 1) :: extra). split; [exact S |].
    constructor; [exact Q |].
    destruct X as [-> | ->]; repeat constructor. exact Q.
Qed.

End OrderMethods.

(** ** What a run of the loop sends to the exchange *)

(** *** Rules for the calls a computation appends to the journal *)

Section JournalRules.
Import Binary64 Py Data Monad Bot Behaviour.
Local Open Scope list_scope.

Context {W : Type}.
Variable ok : call -> Prop.

Lemma keeps_ret (A : Type) (a : A) : keeps ok (ret (W := W) a).
Proof. intros s. exists []. simpl. rewrite app_nil_r. split; constructor. Qed.

Lemma keeps_lift (A : Type) (r : result A) : keeps ok (lift (W := W) r).
Proof. intros s. exists []. simpl. rewrite app_nil_r. split; constructor. Qed.

Lemma keeps_log (ev : string) (d : list piece) : keeps ok (log (W := W) ev d).
Proof. intros s. exists []. simpl. rewrite app_nil_r. split; constructor. Qed.

Lemma keeps_sleep (n : Z) : ok (Sleep n) -> keeps ok (sleep (W := W) n).
Proof. intros H s. exists [Sleep n]. simpl. split; [reflexivity | now constructor]. Qed.

Lemma keeps_invoke (A : Type) (c : call) (f : W -> result A * W) :
  ok c -> keeps ok (invoke c f).
Proof.
  intros H s. exists [c]. unfold invoke. destruct (f (session s)) as [r w]. simpl.
  split; [reflexivity | now constructor].
Qed.

Lemma keeps_bind (A B : Type) (m : M W A) (k : A -> M W B) :
  keeps ok m -> (forall a, keeps ok (k a)) -> keeps ok (bind m k).
Proof.
  intros Hm Hk s. unfold bind. destruct (Hm s) as (t1 & E1 & F1).
  destruct (m s) as [[a | e] s1]; simpl in *.
  - destruct (Hk a s1) as (t2 & E2 & F2). exists (t1 ++ t2).
    rewrite E2, E1, app_assoc. split; [reflexivity | now apply Forall_app].
  - exists t1. now split.
Qed.

Lemma keeps_try_except (A : Type) (m : M W A) (h : exn -> M W A) :
  keeps ok m -> (forall e, keeps ok (h e)) -> keeps ok (try_except m h).
Proof.
  intros Hm Hh s. unfold try_except. destruct (Hm s) as (t1 & E1 & F1).
  destruct (m s) as [[a | e] s1]; simpl in *.
  - exists t1. now split.
  - destruct (Hh e s1) as (t2 & E2 & F2). exists (t1 ++ t2).
    rewrite E2, E1, app_assoc. split; [reflexivity | now apply Forall_app].
Qed.

Lemma keeps_try_except_api (A : Type) (m : M W A) (h : exn -> M W A) :
  keeps ok m -> (forall e, keeps ok (h e)) -> keeps ok (try_except_api m h).
Proof.
  intros Hm Hh s. unfold try_except_api. destruct (Hm s) as (t1 & E1 & F1).
  destruct (m s) as [[a | e] s1]; simpl in *.
  - exists t1. now split.
  - destruct (is_api_exception e).
    + destruct (Hh e s1) as (t2 & E2 & F2). exists (t1 ++ t2).
      rewrite E2, E1, app_assoc. split; [reflexivity | now apply Forall_app].
    + exists t1. now split.
Qed.

Lemma keeps_anywhere (A : Type) (m : M W A) (s : state W) :
  keeps ok m -> keeps_from ok m s.
Proof. intros H. apply H. Qed.

Lemma keeps_from_bind (A B : Type) (m : M W A) (k : A -> M W B) (s : state W) :
  keeps_from ok m s ->
  (forall a s1, m s = (Ok a, s1) -> keeps_from ok (k a) s1) ->
  keeps_from ok (bind m k) s.
Proof.
  intros (t1 & E1 & F1) Hk. unfold keeps_from, bind.
  destruct (m s) as [[a | e] s1]; simpl in *.
  - destruct (Hk a s1 eq_refl) as (t2 & E2 & F2). exists (t1 ++ t2).
    rewrite E2, E1, app_assoc. split; [reflexivity | now apply Forall_app].
  - exists t1. now split.
Qed.

Lemma keeps_from_try_except (A : Type) (m : M W A) (h : exn -> M W A) (s : state W) :
  keeps_from ok m s ->
  (forall e s1, m s = (Raise e, s1) -> keeps_from ok (h e) s1) ->
  keeps_from ok (try_except m h) s.
Proof.
  intros (t1 & E1 & F1) Hh. unfold keeps_from, try_except.
  destruct (m s) as [[a | e] s1]; simpl in *.
  - exists t1. now split.
  - destruct (Hh e s1 eq_refl) as (t2 & E2 & F2). exists (t1 ++ t2).
    rewrite E2, E1, app_assoc. split; [reflexivity | now apply Forall_app].
Qed.

End JournalRules.

Ltac keeps_step :=
  lazymatch goal with
  | |- Behaviour.keeps _ (Monad.ret _) => apply keeps_ret
  | |- Behaviour.keeps _ (Monad.lift _) => apply keeps_lift
  | |- Behaviour.keeps _ (Monad.log _ _) => apply keeps_log
  | |- Behaviour.keeps _ (Monad.sleep _) => apply keeps_sleep
  | |- Behaviour.keeps _ (Monad.invoke _ _) => apply keeps_invoke
  | |- Behaviour.keeps _ (Monad.bind _ _) => apply keeps_bind
  | |- Behaviour.keeps _ (Monad.try_except_api _ _) => apply keeps_try_except_api
  | |- Behaviour.keeps _ (Monad.try_except _ _) => apply keeps_try_except
  | |- Behaviour.keeps _ (match ?x with _ => _ end) => destruct x
  | |- forall _, _ => intro
  end.

Ltac keeps_rules := repeat (cbv zeta; keeps_step).

(** *** Rules for counting calls *)

Section BudgetRules.
Import Binary64 Py Data Monad Bot Behaviour.
Local Open Scope list_scope.

Context {W : Type}.
Variable f : call -> bool.

Lemma spends_ret (A : Type) (a : A) (n : nat) : spends f (ret (W := W) a) n.
Proof. intros s. exists []. simpl. rewrite app_nil_r. split; [reflexivity | lia]. Qed.

Lemma spends_lift (A : Type) (r : result A) (n : nat) : spends f (lift (W := W) r) n.
Proof. intros s. exists []. simpl. rewrite app_nil_r. split; [reflexivity | lia]. Qed.

Lemma spends_log (ev : string) (d : list piece) (n : nat) :
  spends f (log (W := W) ev d) n.
Proof. intros s. exists []. simpl. rewrite app_nil_r. split; [reflexivity | lia]. Qed.

Lemma spends_sleep (k : Z) (n : nat) :
  (weight f (Sleep k) <= n)%nat -> spends f (sleep (W := W) k) n.
Proof.
  intros H s. exists [Sleep k]. simpl. split; [reflexivity |].
  unfold weight in H. destruct (f (Sleep k)); simpl; lia.
Qed.

Lemma spends_invoke (A : Type) (c : call) (g : W -> result A * W) (n : nat) :
  (weight f c <= n)%nat -> spends f (invoke c g) n.
Proof.
  intros H s. exists [c]. unfold invoke. destruct (g (session s)) as [r w]. simpl.
  split; [reflexivity |]. unfold weight in H. destruct (f c); simpl; lia.
Qed.

Lemma spends_bind (A B : Type) (m : M W A) (k : A -> M W B) (a n : nat) :
  spends f m a -> (a <= n)%nat -> (forall x, spends f (k x) (n - a)) ->
  spends f (bind m k) n.
Proof.
  intros Hm L Hk s. unfold bind. destruct (Hm s) as (t1 & E1 & F1).
  destruct (m s) as [[x | e] s1]; simpl in *.
  - destruct (Hk x s1) as (t2 & E2 & F2). exists (t1 ++ t2).
    rewrite E2, E1, app_assoc. split; [reflexivity |].
    rewrite filter_app, length_app. lia.
  - exists t1. split; [exact E1 | lia].
Qed.

Lemma spends_try_except (A : Type) (m : M W A) (h : exn -> M W A) (a n : nat) :
  spends f m a -> (a <= n)%nat -> (forall e, spends f (h e) (n - a)) ->
  spends f (try_except m h) n.
Proof.
  intros Hm L Hh s. unfold try_except. destruct (Hm s) as (t1 & E1 & F1).
  destruct (m s) as [[x | e] s1]; simpl in *.
  - exists t1. split; [exact E1 | lia].
  - destruct (Hh e s1) as (t2 & E2 & F2). exists (t1 ++ t2).
    rewrite E2, E1, app_assoc. split; [reflexivity |].
    rewrite filter_app, length_app. lia.
Qed.

Lemma spends_try_except_api (A : Type) (m : M W A) (h : exn -> M W A) (a n : nat) :
  spends f m a -> (a <= n)%nat -> (forall e, spends f (h e) (n - a)) ->
  spends f (try_except_api m h) n.
Proof.
  intros Hm L Hh s. unfold try_except_api. destruct (Hm s) as (t1 & E1 & F1).
  destruct (m s) as [[x | e] s1]; simpl in *.
  - exists t1. split; [exact E1 | lia].
  - destruct (is_api_exception e).
    + destruct (Hh e s1) as (t2 & E2 & F2). exists (t1 ++ t2).
      rewrite E2, E1, app_assoc. split; [reflexivity |].
      rewrite filter_app, length_app. lia.
    + exists t1. split; [exact E1 | lia].
Qed.

Lemma spends_le (A : Type) (m : M W A) (a n : nat) :
  spends f m a -> (a <= n)%nat -> spends f m n.
Proof.
  intros Hm L s. destruct (Hm s) as (t & E & F). exists t. split; [exact E | lia].
Qed.

End BudgetRules.

(** *** Rules for the values a computation returns *)

Section ReturnRules.
Import Binary64 Py Data Monad Bot Behaviour.

Context {W A : Type}.
Variable P : A -> Prop.

Lemma returns_ret (a : A) : P a -> returns_only P (ret (W := W) a).
Proof. intros H s a' [= <-]. exact H. Qed.

Lemma returns_raise (e : exn) : returns_only P (lift (W := W) (Raise e)).
Proof. intros s a. discriminate. Qed.

Lemma returns_bind (B : Type) (m : M W B) (k : B -> M W A) :
  (forall x, returns_only P (k x)) -> returns_only P (bind m k).
Proof.
  intros Hk s a. unfold bind. destruct (m s) as [[x | e] s1]; [apply Hk | discriminate].
Qed.

End ReturnRules.

Ltac returns_step :=
  lazymatch goal with
  | |- Behaviour.returns_only _ (Monad.ret _) => apply returns_ret; reflexivity
  | |- Behaviour.returns_only _ (Monad.lift (Py.Raise _)) => apply returns_raise
  | |- Behaviour.returns_only _ (Monad.bind _ _) => apply returns_bind; intro
  | |- Behaviour.returns_only _ (match ?x with _ => _ end) => destruct x
  end.

Ltac returns_rules := repeat (cbv zeta; returns_step).

Ltac expected_call :=
  simpl;
  first [ tauto
        | now (left; repeat split)
        | now (right; repeat split; auto)
        | now auto ].

(** *** Every call of the loop is one the bot is expected to make *)

Section ExpectedCalls.
Import Binary64 Py Data Monad Bot Sizing Facts Behaviour.
Local Open Scope string_scope.
Local Open Scope list_scope.

Context {W : Type} {exchange : Exchange W} {libs : PyLibs}.
Variable self : FuturesBot.

Lemma set_leverage_keeps : keeps (expected self) (set_leverage self).
Proof. unfold set_leverage. keeps_rules; expected_call. Qed.

Lemma get_klines_keeps : keeps (expected self) (get_klines self 100).
Proof. unfold get_klines. keeps_rules; expected_call. Qed.

Lemma get_available_balance_keeps : keeps (expected self) get_available_balance.
Proof. unfold get_available_balance. keeps_rules; expected_call. Qed.

Lemma round_quantity_keeps (quantity : float) :
  keeps (expected self) (round_quantity self quantity).
Proof. unfold round_quantity. keeps_rules; expected_call. Qed.

Lemma calculate_order_quantity_keeps (entry_price : float) :
  keeps (expected self) (calculate_order_quantity self entry_price).
Proof.
  unfold calculate_order_quantity.
  apply keeps_bind; [apply get_available_balance_keeps |]. intros balance. cbv zeta.
  apply keeps_bind; [apply keeps_lift |]. intros exposure.
  apply keeps_bind; [apply keeps_lift |]. intros quantity.
  apply round_quantity_keeps.
Qed.

Lemma place_order_keeps (sg : signal) (entry_price : float) :
  keeps (expected self) (place_order self sg entry_price).
Proof.
  unfold place_order.
  apply keeps_bind; [apply calculate_order_quantity_keeps |]. intros quantity.
  keeps_rules; expected_call.
Qed.

Lemma place_trailing_stop_keeps (sg : signal) (quantity : float) :
  keeps (expected self) (place_trailing_stop self sg quantity).
Proof.
  unfold place_trailing_stop.
  apply keeps_bind; [apply round_quantity_keeps |]. intros q.
  keeps_rules; expected_call.
Qed.

Lemma check_and_place_trailing_stop_keeps (sg : signal) (quantity : float) :
  keeps (expected self) (check_and_place_trailing_stop self sg quantity).
Proof.
  unfold check_and_place_trailing_stop.
  apply keeps_try_except_api; [| intros; apply keeps_log].
  apply keeps_bind; [apply keeps_invoke; expected_call |]. intros open_orders. cbv zeta.
  destruct (existsb is_trailing open_orders); [apply keeps_log |].
  apply keeps_bind; [apply keeps_log |]. intros _.
  apply keeps_bind; [apply place_trailing_stop_keeps |]. intros _. apply keeps_log.
Qed.

Lemma manage_stop_orders_keeps (sg : signal) :
  keeps (expected self) (manage_stop_orders self sg).
Proof. unfold manage_stop_orders. keeps_rules; expected_call. Qed.

Lemma reconnect_keeps : keeps (expected self) (reconnect self).
Proof.
  unfold reconnect.
  apply keeps_bind; [apply keeps_log |]. intros _.
  apply keeps_try_except; [| intros; apply keeps_log].
  apply keeps_bind; [apply keeps_invoke; expected_call |]. intros _.
  apply keeps_bind; [apply set_leverage_keeps |]. intros _. apply keeps_log.
Qed.

Lemma cycle_keeps : keeps (expected self) (cycle self).
Proof.
  unfold cycle.
  apply keeps_bind; [apply get_klines_keeps |]. intros [df |].
  2: { keeps_rules; expected_call. }
  cbv zeta.
  apply keeps_bind; [apply keeps_invoke; expected_call |]. intros positions.
  destruct (open_positions self positions) as [| pos others].
  - destruct (determine_signal (calculate_ema self df)) as [sg |].
    + destruct (rev (calculate_ema self df)) as [| last_row rest]; [apply keeps_lift |].
      apply keeps_bind; [apply place_order_keeps |]. intros [order |]; [| apply keeps_ret].
      apply keeps_bind; [apply calculate_order_quantity_keeps |]. intros quantity.
      apply keeps_bind; [apply place_trailing_stop_keeps |]. intros _.
      apply keeps_bind; [apply manage_stop_orders_keeps |]. intros _. apply keeps_ret.
    + apply keeps_bind; [apply keeps_log |]. intros _. apply keeps_ret.
  - apply keeps_bind; [apply keeps_log |]. intros _.
    apply keeps_bind; [apply round_quantity_keeps |]. intros pos_qty.
    apply keeps_bind; [apply check_and_place_trailing_stop_keeps |]. intros _.
    apply keeps_ret.
Qed.

Lemma iteration_keeps : keeps (expected self) (iteration self).
Proof.
  unfold iteration.
  apply keeps_bind.
  - apply keeps_try_except; [apply cycle_keeps |]. intros e.
    apply keeps_bind; [apply keeps_log |]. intros _.
    apply keeps_bind; [apply reconnect_keeps |]. intros _.
    apply keeps_bind; [apply keeps_sleep; reflexivity |]. intros _. apply keeps_ret.
  - intros [|]; [apply keeps_sleep; reflexivity | apply keeps_ret].
Qed.

(** X21. However long the loop runs and whatever the exchange answers, the bot
    only appends to its journal, and every call it makes is for its own
    symbol: the orders it submits are MARKET entries that are not
    reduce-only, or reduce-only GTC trailing stops with callback rate 1.0
    or 0.5; it cancels only orders of its symbol; every pause is of 60
    seconds. *)
Theorem run_calls_are_expected (n : nat) : keeps (expected self) (run self n).
Proof.
  induction n as [| n IH]; simpl.
  - apply keeps_ret.
  - apply keeps_bind; [apply iteration_keeps |]. intros _. exact IH.
Qed.

End ExpectedCalls.

(** *** How many calls an iteration makes *)

Create HintDb budget.

Section Budget.
Import Binary64 Py Data Monad Bot Sizing Facts Behaviour.
Local Open Scope string_scope.
Local Open Scope list_scope.
Local Open Scope nat_scope.

Context {W : Type} {exchange : Exchange W} {libs : PyLibs}.
Variable self : FuturesBot.

(** The calls counted by [f] weigh at most [wq] per query, [wc] per
    submission, [wx] per cancellation and [ws] per pause. *)
Variable f : call -> bool.
Variables wq wc wx ws : nat.
Hypothesis f_bound : forall c, weight f c <= cap wq wc wx ws c.

Lemma spends_ret_0 (A : Type) (a : A) : spends f (ret (W := W) a) 0.
Proof. apply spends_ret. Qed.

Lemma spends_lift_0 (A : Type) (r : result A) : spends f (lift (W := W) r) 0.
Proof. apply spends_lift. Qed.

Lemma spends_log_0 (ev : string) (d : list piece) : spends f (log (W := W) ev d) 0.
Proof. apply spends_log. Qed.

Lemma spends_sleep_cap (k : Z) : spends f (sleep (W := W) k) ws.
Proof. apply spends_sleep. apply (f_bound (Sleep k)). Qed.

Lemma spends_invoke_cap (A : Type) (c : call) (g : W -> result A * W) :
  spends f (invoke c g) (cap wq wc wx ws c).
Proof. apply spends_invoke, f_bound. Qed.

Lemma spends_handled (A : Type) (m : M W A) (h : exn -> M W A) (n : nat) :
  spends f m n -> (forall e, spends f (h e) 0) -> spends f (try_except m h) n.
Proof.
  intros Hm Hh. apply (spends_try_except f A m h n n Hm (Nat.le_refl n)).
  intros e. rewrite Nat.sub_diag. apply Hh.
Qed.

Lemma spends_handled_api (A : Type) (m : M W A) (h : exn -> M W A) (n : nat) :
  spends f m n -> (forall e, spends f (h e) 0) -> spends f (try_except_api m h) n.
Proof.
  intros Hm Hh. apply (spends_try_except_api f A m h n n Hm (Nat.le_refl n)).
  intros e. rewrite Nat.sub_diag. apply Hh.
Qed.

#[local] Hint Resolve spends_ret_0 spends_lift_0 spends_log_0 spends_sleep_cap
  spends_invoke_cap : budget.

Ltac spends_step :=
  lazymatch goal with
  | |- spends _ (bind _ _) _ =>
      eapply spends_bind; [solve [auto with budget nocore] | simpl; lia | intro]
  | |- spends _ (try_except_api _ _) _ => apply spends_handled_api; [| intro]
  | |- spends _ (try_except _ _) _ => apply spends_handled; [| intro]
  | |- spends _ (match ?x with _ => _ end) _ => destruct x
  | |- spends _ _ _ =>
      eapply spends_le; [solve [auto with budget nocore] | simpl; lia]
  | |- _ <= _ => simpl; lia
  end.

Ltac spends_rules := repeat (cbv zeta; spends_step).

Lemma set_leverage_spends : spends f (set_leverage self) wq.
Proof. unfold set_leverage. spends_rules. Qed.

Lemma get_klines_spends (limit : Z) : spends f (get_klines self limit) wq.
Proof. unfold get_klines. spends_rules. Qed.

Lemma get_available_balance_spends : spends f get_available_balance wq.
Proof. unfold get_available_balance. spends_rules. Qed.

Lemma round_quantity_spends (quantity : float) :
  spends f (round_quantity self quantity) wq.
Proof. unfold round_quantity. spends_rules. Qed.

#[local] Hint Resolve set_leverage_spends get_klines_spends
  get_available_balance_spends round_quantity_spends : budget.

Lemma calculate_order_quantity_spends (entry_price : float) :
  spends f (calculate_order_quantity self entry_price) (2 * wq).
Proof. unfold calculate_order_quantity. spends_rules. Qed.

#[local] Hint Resolve calculate_order_quantity_spends : budget.

Lemma place_order_spends (sg : signal) (entry_price : float) :
  spends f (place_order self sg entry_price) (2 * wq + wc).
Proof. unfold place_order. spends_rules. Qed.

Lemma place_trailing_stop_spends (sg : signal) (quantity : float) :
  spends f (place_trailing_stop self sg quantity) (wq + 2 * wc).
Proof.
  unfold place_trailing_stop. spends_step. cbv zeta.
  eapply (spends_try_except_api f _ _ _ wc); [| lia | intro].
  - spends_rules.
  - spends_step. apply spends_handled_api; [| intro]; spends_rules.
Qed.

#[local] Hint Resolve place_order_spends place_trailing_stop_spends : budget.

Lemma check_and_place_trailing_stop_spends (sg : signal) (quantity : float) :
  spends f (check_and_place_trailing_stop self sg quantity) (2 * wq + 2 * wc).
Proof. unfold check_and_place_trailing_stop. spends_rules. Qed.

Lemma manage_stop_orders_spends (sg : signal) :
  spends f (manage_stop_orders self sg) (wq + wx).
Proof. unfold manage_stop_orders. spends_rules. Qed.

Lemma reconnect_spends : spends f (reconnect self) (2 * wq).
Proof. unfold reconnect. spends_rules. Qed.

#[local] Hint Resolve check_and_place_trailing_stop_spends manage_stop_orders_spends
  reconnect_spends : budget.

Lemma cycle_spends : spends f (cycle self) (8 * wq + 3 * wc + wx + ws).
Proof. unfold cycle. spends_rules. Qed.

#[local] Hint Resolve cycle_spends : budget.

(** The [try] block of the loop ends by [continue] only when the candles
    could not be fetched, after its pause; every other path makes the
    calls of a cycle without a pause. *)
Lemma cycle_paths (s : state W) :
  exists tail,
    journal (snd (cycle self s)) = journal s ++ tail /\
    ((fst (cycle self s) = Ok Continue /\
      fst (get_klines self 100 s) = Ok None /\
      tail = [CallKlines (symbol self) (interval self) 100; Sleep 60])
     \/
     (fst (cycle self s) <> Ok Continue /\
      fst (get_klines self 100 s) <> Ok None /\
      exists rest,
        tail = CallKlines (symbol self) (interval self) 100 :: rest /\
        List.length (filter f rest) <= 7 * wq + 3 * wc + wx)).
Proof.
  remember (cycle self s) as c eqn:Hc. unfold cycle in Hc. unfold bind at 1 in Hc.
  destruct (get_klines self 100 s) as [[[df |] | e] s1] eqn:K;
    pose proof (get_klines_journal self _ _ _ _ K) as J; cbv beta iota zeta in Hc.
  - lazymatch type of Hc with
    | _ = ?k s1 =>
        assert (S : spends f k (7 * wq + 3 * wc + wx)) by spends_rules;
        assert (R : returns_only (fun fl => fl = Bottom) k) by returns_rules;
        destruct (S s1) as (rest & E & L); specialize (R s1);
        destruct (k s1) as [r s2]
    end.
    subst c. simpl in *. exists (CallKlines (symbol self) (interval self) 100 :: rest).
    split; [rewrite E, J, <- app_assoc; reflexivity |].
    right. split; [| split; [discriminate |]].
    + intros ->. specialize (R Continue eq_refl). discriminate.
    + exists rest. now split.
  - subst c. exists [CallKlines (symbol self) (interval self) 100; Sleep 60].
    unfold bind, sleep, ret. simpl. rewrite J, <- app_assoc.
    split; [reflexivity |]. left. auto.
  - subst c. exists [CallKlines (symbol self) (interval self) 100]. simpl.
    split; [exact J |]. right. split; [discriminate | split; [discriminate |]].
    exists []. split; [reflexivity | simpl; lia].
Qed.

Lemma iteration_spends :
  spends f (iteration self) (10 * wq + 3 * wc + wx + 3 * ws).
Proof.
  unfold iteration.
  eapply (spends_bind f _ _ _ _ (10 * wq + 3 * wc + wx + 2 * ws)); [| lia | intro].
  - eapply (spends_try_except f _ _ _ (8 * wq + 3 * wc + wx + ws)); [| lia | intro].
    + apply cycle_spends.
    + spends_rules.
  - spends_rules.
Qed.

Lemma run_spends (n : nat) :
  spends f (run self n) (n * (10 * wq + 3 * wc + wx + 3 * ws)).
Proof.
  induction n as [| n IH]; simpl run.
  - apply spends_ret.
  - eapply spends_bind; [apply iteration_spends | lia | intro].
    eapply spends_le; [exact IH | lia].
Qed.

End Budget.

(** *** Requests, orders and pauses of a run *)

Section Rates.
Import Binary64 Py Data Monad Bot Sizing Facts Behaviour.
Local Open Scope string_scope.
Local Open Scope list_scope.

Context {W : Type} {exchange : Exchange W} {libs : PyLibs}.
Variable self : FuturesBot.

#[local] Arguments cycle : simpl never.
#[local] Arguments reconnect : simpl never.
#[local] Arguments iteration : simpl never.

Lemma bound_requests (c : call) : (weight is_request c <= cap 1 1 1 0 c)%nat.
Proof. destruct c; cbv; lia. Qed.

Lemma bound_submissions (c : call) : (weight is_submission c <= cap 0 1 0 0 c)%nat.
Proof. destruct c; cbv; lia. Qed.

Lemma bound_cancellations (c : call) : (weight is_cancellation c <= cap 0 0 1 0 c)%nat.
Proof. destruct c; cbv; lia. Qed.

Lemma bound_pauses (c : call) : (weight is_pause c <= cap 0 0 0 1 c)%nat.
Proof. destruct c; cbv; lia. Qed.

Lemma sleeps_app (j1 j2 : list call) : sleeps (j1 ++ j2) = sleeps j1 ++ sleeps j2.
Proof. apply flat_map_app. Qed.

Lemma no_pause_no_sleep (j : list call) :
  (List.length (filter is_pause j) <= 0)%nat -> sleeps j = [].
Proof.
  induction j as [| c j IH]; [reflexivity |].
  destruct c; simpl; auto. intros H. lia.
Qed.

Lemma submissions_count (j : list call) :
  List.length (submissions j) = List.length (filter is_submission j).
Proof. induction j as [| c j IH]; [reflexivity |]. destruct c; simpl; auto. Qed.

Lemma cancellations_count (j : list call) :
  List.length (cancellations j) = List.length (filter is_cancellation j).
Proof. induction j as [| c j IH]; [reflexivity |]. destruct c; simpl; auto. Qed.

(** The pauses of one iteration. *)
Lemma iteration_sleeps (s : state W) :
  exists tail,
    journal (snd (iteration self s)) = journal s ++ tail /\
    sleeps tail = match fst (cycle self s) with
                  | Ok _ => [60%Z]
                  | Raise _ => [60%Z; 60%Z]
                  end.
Proof.
  destruct (cycle_paths self is_pause 0 0 0 1 bound_pauses s) as (t1 & E1 & P).
  assert (S1 : fst (cycle self s) <> Ok Continue -> sleeps t1 = []).
  { intros N. destruct P as [(C & _) | (_ & _ & rest & -> & L)]; [contradiction |].
    simpl. apply no_pause_no_sleep. simpl in L. lia. }
  unfold iteration, bind, try_except.
  destruct (cycle self s) as [[[|] | e] s1]; simpl in *.
  - exists (t1 ++ [Sleep 60]). rewrite E1, <- app_assoc. split; [reflexivity |].
    rewrite sleeps_app, S1 by discriminate. reflexivity.
  - exists t1. split; [exact E1 |].
    destruct P as [(_ & _ & ->) | (C & _)]; [reflexivity | now destruct C].
  - pose proof (reconnect_returns self
                  {| session := session s1; journal := journal s1;
                     csv := csv s1 ++ [ {| event := "Error in main loop";
                                           details := [Err e] |} ] |}) as R.
    destruct (reconnect_spends self is_pause 0 0 0 1 bound_pauses
                {| session := session s1; journal := journal s1;
                   csv := csv s1 ++ [ {| event := "Error in main loop";
                                         details := [Err e] |} ] |})
      as (t2 & E2 & L2).
    unfold log. simpl.
    destruct (reconnect self _) as [r2 s2]. simpl in *. subst r2. simpl.
    exists (t1 ++ t2 ++ [Sleep 60; Sleep 60]). rewrite E2, E1.
    split; [now rewrite <- !app_assoc |].
    rewrite !sleeps_app, S1 by discriminate.
    rewrite (no_pause_no_sleep t2) by (simpl in L2; lia). reflexivity.
Qed.

(** X19. An iteration pauses once, for 60 seconds, when the [try] block of the
    loop returns, and twice, 120 seconds in all, when the block raises.  The
    block ends by [continue] exactly when the candles could not be fetched,
    and that iteration pauses once as well: the pause of the [continue] path
    replaces the one at the bottom of the loop. *)
Theorem iteration_pauses (s : state W) :
  (exists tail,
      journal (snd (iteration self s)) = journal s ++ tail /\
      sleeps tail = match fst (cycle self s) with
                    | Ok _ => [60%Z]
                    | Raise _ => [60%Z; 60%Z]
                    end) /\
  (fst (cycle self s) = Ok Continue <-> fst (get_klines self 100 s) = Ok None).
Proof.
  split; [apply iteration_sleeps |].
  destruct (cycle_paths self is_pause 0 0 0 1 bound_pauses s) as (t1 & _ & P).
  destruct P as [(C & K & _) | (C & K & _)]; split; intros H;
    try assumption; contradiction.
Qed.


(** X20. The handler of the loop catches whatever the [try] block raises, a
    failed request or an arithmetic error of the sizing: it logs "Error in
    main loop" with the exception and calls [reconnect], which returns
    whatever the exchange does; the iteration then pauses twice and ends.
    An iteration whose block returns ends after one pause, the one of the
    [continue] path or the one at the bottom of the loop.  The rows are
    taken as written and the pauses as not interrupted: [log] and
    [time.sleep] are not guarded by the code. *)
Theorem loop_handles_every_exception (s : state W) :
  (forall e s1,
      cycle self s = (Raise e, s1) ->
      let handled :=
        {| session := session s1; journal := journal s1;
           csv := csv s1 ++ [ {| event := "Error in main loop"; details := [Err e] |} ] |} in
      fst (reconnect self handled) = Ok tt /\
      iteration self s =
        (Ok tt,
         {| session := session (snd (reconnect self handled));
            journal := journal (snd (reconnect self handled)) ++ [Sleep 60; Sleep 60];
            csv := csv (snd (reconnect self handled)) |})) /\
  (forall fl s1,
      cycle self s = (Ok fl, s1) ->
      iteration self s =
        (Ok tt,
         {| session := session s1;
            journal := journal s1 ++ match fl with
                                     | Continue => []
                                     | Bottom => [Sleep 60]
                                     end;
            csv := csv s1 |})).
Proof.
  split.
  - intros e s1 C handled. pose proof (reconnect_returns self handled) as R.
    split; [exact R |].
    unfold iteration, bind, try_except. rewrite C. unfold log, sleep, ret. simpl.
    fold handled. destruct (reconnect self handled) as [r s2]. simpl in *. subst r.
    simpl. now rewrite <- app_assoc.
  - intros fl s1 C. unfold iteration, bind, try_except. rewrite C.
    destruct fl; unfold sleep, ret; simpl.
    + reflexivity.
    + rewrite app_nil_r. now destruct s1.
Qed.

Lemma run_sleeps (n : nat) (s : state W) :
  exists tail,
    journal (snd (run self n s)) = journal s ++ tail /\
    (n <= List.length (sleeps tail) <= 2 * n)%nat.
Proof.
  revert s. induction n as [| n IH]; intros s.
  - exists []. simpl. rewrite app_nil_r. split; [reflexivity | lia].
  - simpl run. unfold bind.
    destruct (iteration_sleeps s) as (t1 & E1 & S1).
    pose proof (iteration_returns self s) as R.
    destruct (iteration self s) as [r s1]. simpl in R, E1. subst r.
    destruct (IH s1) as (t2 & E2 & S2). exists (t1 ++ t2).
    rewrite E2, E1, <- app_assoc. split; [reflexivity |].
    rewrite sleeps_app, length_app, S1.
    destruct (fst (cycle self s)); simpl; lia.
Qed.

(** X22. In [n] iterations the bot makes at most [14 n] requests, of which at
    most [3 n] submit an order and at most [n] cancel one, and it pauses at
    least [n] times: no more than 14 requests per pause of 60 seconds. *)
Theorem run_request_budget (n : nat) (s : state W) :
  exists tail,
    journal (snd (run self n s)) = journal s ++ tail /\
    (List.length (requests tail) <= 14 * n)%nat /\
    (List.length (submissions tail) <= 3 * n)%nat /\
    (List.length (cancellations tail) <= n)%nat /\
    (n <= List.length (sleeps tail))%nat.
Proof.
  destruct (run_sleeps n s) as (tail & E & S). exists tail. split; [exact E |].
  destruct (run_spends self is_request 1 1 1 0 bound_requests n s) as (t1 & E1 & L1).
  destruct (run_spends self is_submission 0 1 0 0 bound_submissions n s) as (t2 & E2 & L2).
  destruct (run_spends self is_cancellation 0 0 1 0 bound_cancellations n s) as (t3 & E3 & L3).
  rewrite E in E1, E2, E3.
  apply app_inv_head in E1, E2, E3. subst t1 t2 t3.
  rewrite submissions_count, cancellations_count. unfold requests.
  repeat split; lia.
Qed.

End Rates.

(** ** Iterations that place no entry *)

Section QuietIterations.
Import Binary64 Py Data Monad Bot Sizing Facts Behaviour.
Local Open Scope string_scope.
Local Open Scope list_scope.

Context {W : Type} {exchange : Exchange W} {libs : PyLibs}.
Variable self : FuturesBot.

#[local] Arguments Qred : simpl never.
#[local] Arguments rnd : simpl never.
#[local] Arguments py_round : simpl never.
#[local] Arguments String.eqb : simpl never.
#[local] Arguments lit : simpl never.
#[local] Arguments round_quantity : simpl never.
#[local] Arguments place_trailing_stop : simpl never.
#[local] Arguments check_and_place_trailing_stop : simpl never.
#[local] Arguments manage_stop_orders : simpl never.
#[local] Arguments calculate_order_quantity : simpl never.
#[local] Arguments place_order : simpl never.
#[local] Arguments determine_signal : simpl never.
#[local] Arguments calculate_ema : simpl never.
#[local] Arguments open_positions : simpl never.
#[local] Arguments fabs : simpl never.
#[local] Arguments reconnect : simpl never.

(** X14. [reconnect] never raises.  It reports "Reconnection successful"
    whenever the client could be built and [futures_change_leverage] did not
    raise anything but a [BinanceAPIException]: also when the exchange
    refused the leverage, after the row "Error setting leverage". *)
Theorem reconnect_reports_success (s : state W) :
  let attempt := {| event := "Attempting reconnection";
                    details := [Text "Reinicializando el cliente de Binance"] |} in
  let success := {| event := "Reconnection successful";
                    details := [Text "Cliente reinicializado exitosamente"] |} in
  fst (reconnect self s) = Ok tt /\
  (forall e w,
      Client (api_key self) (api_secret self) (session s) = (Raise e, w) ->
      csv (snd (reconnect self s))
      = csv s ++ [attempt; {| event := "Reconnection failed"; details := [Err e] |}]) /\
  (forall w w',
      Client (api_key self) (api_secret self) (session s) = (Ok tt, w) ->
      futures_change_leverage (symbol self) (leverage self) w = (Ok tt, w') ->
      csv (snd (reconnect self s))
      = csv s ++ [attempt;
                  {| event := "Leverage set";
                     details := [Text "Apalancamiento configurado a ";
                                 Int (leverage self)] |};
                  success]) /\
  (forall w e w',
      Client (api_key self) (api_secret self) (session s) = (Ok tt, w) ->
      futures_change_leverage (symbol self) (leverage self) w = (Raise e, w') ->
      is_api_exception e = true ->
      csv (snd (reconnect self s))
      = csv s ++ [attempt;
                  {| event := "Error setting leverage"; details := [Err e] |};
                  success]) /\
  (forall w e w',
      Client (api_key self) (api_secret self) (session s) = (Ok tt, w) ->
      futures_change_leverage (symbol self) (leverage self) w = (Raise e, w') ->
      is_api_exception e = false ->
      csv (snd (reconnect self s))
      = csv s ++ [attempt; {| event := "Reconnection failed"; details := [Err e] |}]).
Proof.
  intros attempt success. split; [apply reconnect_returns |].
  unfold reconnect, bind, try_except, invoke, set_leverage, try_except_api, bind,
    invoke, log. simpl.
  split; [| split; [| split]].
  - intros e w A. rewrite A. simpl. now rewrite <- app_assoc.
  - intros w w' A B. rewrite A. simpl. rewrite B. simpl. now rewrite <- !app_assoc.
  - intros w e w' A B X. rewrite A. simpl. rewrite B. simpl. rewrite X. simpl.
    now rewrite <- !app_assoc.
  - intros w e w' A B X. rewrite A. simpl. rewrite B. simpl. rewrite X. simpl.
    now rewrite <- !app_assoc.
Qed.

(** X15. When the candles cannot be fetched, whatever the exception, the
    iteration logs it, pauses 60 seconds and ends: the exception never
    reaches the handler of the loop, so [reconnect] is not attempted, and
    no other request is made. *)
Theorem klines_failure_skips_reconnect (s : state W) (e : exn) (w : W) :
  futures_klines (symbol self) (interval self) 100 (session s) = (Raise e, w) ->
  iteration self s =
    (Ok tt,
     {| session := w;
        journal := journal s ++ [CallKlines (symbol self) (interval self) 100;
                                 Sleep 60];
        csv := csv s ++ [ {| event := "Error fetching klines";
                             details := [Err e] |} ] |}).
Proof.
  intros A. unfold iteration, cycle, get_klines, bind, try_except, invoke.
  rewrite A. simpl. now rewrite <- app_assoc.
Qed.

(** X16. An exception of the position request, of any kind, does reach the
    handler: the iteration logs "Error in main loop", reconnects, and
    pauses twice; nothing is submitted or cancelled. *)
Theorem position_failure_reconnects (s s1 : state W) (candles : list candle)
    (e : exn) (w : W) :
  get_klines self 100 s = (Ok (Some candles), s1) ->
  futures_position_information (symbol self) (session s1) = (Raise e, w) ->
  let handled :=
    {| session := w;
       journal := journal s1 ++ [CallPositionInformation (symbol self)];
       csv := csv s1 ++ [ {| event := "Error in main loop"; details := [Err e] |} ] |} in
  iteration self s =
    (Ok tt,
     {| session := session (snd (reconnect self handled));
        journal := journal (snd (reconnect self handled)) ++ [Sleep 60; Sleep 60];
        csv := csv (snd (reconnect self handled)) |}) /\
  submissions (journal (snd (iteration self s))) = submissions (journal s) /\
  cancellations (journal (snd (iteration self s))) = cancellations (journal s).
Proof.
  intros K P handled.
  pose proof (get_klines_journal self _ _ _ _ K) as J.
  assert (E : iteration self s =
              (Ok tt,
               {| session := session (snd (reconnect self handled));
                  journal := journal (snd (reconnect self handled)) ++ [Sleep 60; Sleep 60];
                  csv := csv (snd (reconnect self handled)) |})).
  { unfold iteration, cycle. unfold bind at 1 2. unfold try_except. rewrite K.
    unfold bind at 1. unfold invoke at 1. rewrite P. cbv beta iota zeta.
    unfold bind, log, sleep, ret. simpl. fold handled.
    pose proof (reconnect_returns self handled) as R.
    destruct (reconnect self handled) as [r s2]. simpl in *. subst r. simpl.
    now rewrite <- app_assoc. }
  split; [exact E |]. rewrite E. simpl.
  destruct (reconnect_quiet self handled) as [A B].
  rewrite submissions_app, cancellations_app, A, B. subst handled. simpl.
  rewrite submissions_app, cancellations_app, J. split; journal_solve.
Qed.

Lemma determine_signal_short (df : list row) :
  (List.length df < 2)%nat -> determine_signal df = None.
Proof.
  intros H. unfold determine_signal. rewrite <- length_rev in H.
  destruct (rev df) as [| a [| b rest]]; try reflexivity. simpl in H. lia.
Qed.

Lemma calculate_ema_length (df : list candle) :
  (List.length (calculate_ema self df) <= List.length df)%nat.
Proof.
  unfold calculate_ema. rewrite length_map, length_combine. lia.
Qed.

(** X17. Without a position and without a signal, in particular when fewer than
    two candles came back, the iteration asks for the candles and the
    positions, logs "No signal" and pauses: it makes no other request. *)
Theorem flat_without_signal_is_quiet (s s1 : state W) (candles : list candle)
    (positions : list position) (w : W) :
  get_klines self 100 s = (Ok (Some candles), s1) ->
  futures_position_information (symbol self) (session s1) = (Ok positions, w) ->
  open_positions self positions = [] ->
  (List.length candles < 2)%nat \/
  determine_signal (calculate_ema self candles) = None ->
  iteration self s =
    (Ok tt,
     {| session := w;
        journal := journal s1 ++ [CallPositionInformation (symbol self); Sleep 60];
        csv := csv s1 ++ [ {| event := "No signal";
                              details := [Text "Sin señal de trading en este momento"] |} ] |}).
Proof.
  intros K P O H.
  assert (N : determine_signal (calculate_ema self candles) = None).
  { destruct H as [H | H]; [| exact H]. apply determine_signal_short.
    pose proof (calculate_ema_length candles). lia. }
  unfold iteration, cycle. unfold bind at 1 2. unfold try_except. rewrite K.
  unfold bind at 1. unfold invoke at 1. rewrite P. cbv beta iota zeta.
  rewrite O, N. unfold bind, log, sleep, ret. simpl. now rewrite <- app_assoc.
Qed.

Lemma set_leverage_no_entry : keeps (no_entry self) (set_leverage self).
Proof. unfold set_leverage. keeps_rules; exact I. Qed.

Lemma reconnect_no_entry : keeps (no_entry self) (reconnect self).
Proof.
  unfold reconnect. keeps_rules; try exact I. apply set_leverage_no_entry.
Qed.

Lemma round_quantity_no_entry (quantity : float) :
  keeps (no_entry self) (round_quantity self quantity).
Proof. unfold round_quantity. keeps_rules; exact I. Qed.

Lemma place_trailing_stop_no_entry (sg : signal) (quantity : float) :
  keeps (no_entry self) (place_trailing_stop self sg quantity).
Proof.
  unfold place_trailing_stop.
  apply keeps_bind; [apply round_quantity_no_entry |]. intros q.
  keeps_rules; simpl; repeat split; auto.
Qed.

Lemma check_and_place_trailing_stop_no_entry (sg : signal) (quantity : float) :
  keeps (no_entry self) (check_and_place_trailing_stop self sg quantity).
Proof.
  unfold check_and_place_trailing_stop.
  keeps_rules; try exact I. apply place_trailing_stop_no_entry.
Qed.

Lemma protective_submissions (tail : list call) :
  Forall (no_entry self) tail -> Forall (protective_order self) (submissions tail).
Proof.
  induction 1 as [| c tail H F IH]; [constructor |].
  destruct c; simpl; auto.
Qed.

(** X18. While a position is open the bot never adds to it: whatever the
    exchange answers afterwards, every order submitted in the iteration is
    a reduce-only trailing stop. *)
Theorem open_position_blocks_entry (s s1 : state W) (candles : list candle)
    (positions : list position) (w : W) (pos : position) (others : list position) :
  get_klines self 100 s = (Ok (Some candles), s1) ->
  futures_position_information (symbol self) (session s1) = (Ok positions, w) ->
  open_positions self positions = pos :: others ->
  exists tail,
    journal (snd (iteration self s)) = journal s ++ tail /\
    Forall (protective_order self) (submissions tail).
Proof.
  intros K P O.
  assert (I : keeps_from (no_entry self) (iteration self) s).
  { unfold iteration. apply keeps_from_bind.
    - apply keeps_from_try_except.
      + unfold cycle. apply keeps_from_bind.
        * pose proof (get_klines_journal self _ _ _ _ K) as J.
          exists [CallKlines (symbol self) (interval self) 100]. rewrite K. simpl.
          split; [exact J | repeat constructor].
        * intros a s1' Ha. rewrite K in Ha. injection Ha as <- <-. cbv zeta.
          apply keeps_from_bind; [apply keeps_anywhere, keeps_invoke; exact I |].
          intros positions' s2 Hp. unfold invoke in Hp. rewrite P in Hp.
          injection Hp as <- <-. rewrite O.
          apply keeps_anywhere. keeps_rules; try exact I.
          -- apply round_quantity_no_entry.
          -- apply check_and_place_trailing_stop_no_entry.
      + intros e s2 _. apply keeps_anywhere. keeps_rules; try exact I.
        apply reconnect_no_entry.
    - intros fl s2 _. apply keeps_anywhere. keeps_rules; exact I. }
  destruct I as (tail & E & F). exists tail. split; [exact E |].
  now apply protective_submissions.
Qed.

End QuietIterations.

(** ** Starting the bot *)

Section Start.
Import Binary64 Py Data Monad Bot Sizing Facts Behaviour Startup.
Local Open Scope string_scope.
Local Open Scope list_scope.

Context {W : Type} {exchange : Exchange W} {libs : PyLibs}.
Variable self : FuturesBot.


(** X23. The constructor.  When the client cannot be built the exception leaves
    the constructor before the log file is touched.  Otherwise the file is
    created with its header if it did not exist, and left as it was if it
    did; a leverage accepted or refused by the API adds one row and the bot
    is built; any other exception of the leverage request leaves the
    constructor, the file holding no new row. *)
Theorem init_outcomes (f : log_file) (w : W) :
  let old := match f with None => [Header] | Some rows => rows end in
  (forall e w1,
      Client (api_key self) (api_secret self) w = (Raise e, w1) ->
      fst (fst (init self f w)) = Raise e /\ snd (init self f w) = f /\
      journal (snd (fst (init self f w)))
      = [CallClient (api_key self) (api_secret self)]) /\
  (forall w1 w2,
      Client (api_key self) (api_secret self) w = (Ok tt, w1) ->
      futures_change_leverage (symbol self) (leverage self) w1 = (Ok tt, w2) ->
      fst (fst (init self f w)) = Ok tt /\
      snd (init self f w)
      = Some (old ++ [Logged {| event := "Leverage set";
                                details := [Text "Apalancamiento configurado a ";
                                            Int (leverage self)] |}])) /\
  (forall w1 e w2,
      Client (api_key self) (api_secret self) w = (Ok tt, w1) ->
      futures_change_leverage (symbol self) (leverage self) w1 = (Raise e, w2) ->
      (is_api_exception e = true ->
       fst (fst (init self f w)) = Ok tt /\
       snd (init self f w)
       = Some (old ++ [Logged {| event := "Error setting leverage";
                                 details := [Err e] |}])) /\
      (is_api_exception e = false ->
       fst (fst (init self f w)) = Raise e /\ snd (init self f w) = Some old)).
Proof.
  intros old. unfold init, invoke, set_leverage, try_except_api, bind, invoke, log.
  simpl. split; [| split].
  - intros e w1 A. rewrite A. simpl. auto.
  - intros w1 w2 A B. rewrite A. simpl. rewrite B. simpl.
    split; [reflexivity |]. subst old. destruct f; reflexivity.
  - intros w1 e w2 A B. rewrite A. simpl. rewrite B. simpl.
    destruct (is_api_exception e); split; intros X; try discriminate;
      (split; [reflexivity |]); subst old; destruct f; reflexivity.
Qed.


End Start.

(** ** The rows of the log *)

Section LogRules.
Import Binary64 Py Data Monad Bot Behaviour.
Local Open Scope list_scope.

Context {W : Type}.

Lemma grows_ret (A : Type) (a : A) : grows (ret (W := W) a).
Proof. intros s. exists []. simpl. now rewrite app_nil_r. Qed.

Lemma grows_lift (A : Type) (r : result A) : grows (lift (W := W) r).
Proof. intros s. exists []. simpl. now rewrite app_nil_r. Qed.

Lemma grows_log (ev : string) (d : list piece) : grows (log (W := W) ev d).
Proof. intros s. eexists [_]. reflexivity. Qed.

Lemma grows_sleep (n : Z) : grows (sleep (W := W) n).
Proof. intros s. exists []. simpl. now rewrite app_nil_r. Qed.

Lemma grows_invoke (A : Type) (c : call) (f : W -> result A * W) : grows (invoke c f).
Proof.
  intros s. exists []. unfold invoke. destruct (f (session s)). simpl.
  now rewrite app_nil_r.
Qed.

Lemma grows_bind (A B : Type) (m : M W A) (k : A -> M W B) :
  grows m -> (forall a, grows (k a)) -> grows (bind m k).
Proof.
  intros Hm Hk s. unfold bind. destruct (Hm s) as (t1 & E1).
  destruct (m s) as [[a | e] s1]; simpl in *.
  - destruct (Hk a s1) as (t2 & E2). exists (t1 ++ t2). now rewrite E2, E1, app_assoc.
  - now exists t1.
Qed.

Lemma grows_try_except (A : Type) (m : M W A) (h : exn -> M W A) :
  grows m -> (forall e, grows (h e)) -> grows (try_except m h).
Proof.
  intros Hm Hh s. unfold try_except. destruct (Hm s) as (t1 & E1).
  destruct (m s) as [[a | e] s1]; simpl in *.
  - now exists t1.
  - destruct (Hh e s1) as (t2 & E2). exists (t1 ++ t2). now rewrite E2, E1, app_assoc.
Qed.

Lemma grows_try_except_api (A : Type) (m : M W A) (h : exn -> M W A) :
  grows m -> (forall e, grows (h e)) -> grows (try_except_api m h).
Proof.
  intros Hm Hh s. unfold try_except_api. destruct (Hm s) as (t1 & E1).
  destruct (m s) as [[a | e] s1]; simpl in *.
  - now exists t1.
  - destruct (is_api_exception e).
    + destruct (Hh e s1) as (t2 & E2). exists (t1 ++ t2). now rewrite E2, E1, app_assoc.
    + now exists t1.
Qed.

Lemma writes_log (ev : string) (d : list piece) : writes (log (W := W) ev d).
Proof. intros s a _. eexists _, []. reflexivity. Qed.

Lemma writes_raise (A : Type) (e : exn) : writes (lift (W := W) (A := A) (Raise e)).
Proof. intros s a. discriminate. Qed.

(** The first computation writes. *)
Lemma writes_first (A B : Type) (m : M W A) (k : A -> M W B) :
  writes m -> (forall a, grows (k a)) -> writes (bind m k).
Proof.
  intros Hm Hk s b. unfold bind. specialize (Hm s).
  destruct (m s) as [[a | e] s1]; simpl in *; [| discriminate].
  intros _. destruct (Hm a eq_refl) as (r & t1 & E1).
  destruct (Hk a s1) as (t2 & E2). exists r, (t1 ++ t2).
  now rewrite E2, E1, <- app_assoc.
Qed.

(** The continuation writes. *)
Lemma writes_then (A B : Type) (m : M W A) (k : A -> M W B) :
  grows m -> (forall a, writes (k a)) -> writes (bind m k).
Proof.
  intros Hm Hk s b. unfold bind. destruct (Hm s) as (t1 & E1).
  destruct (m s) as [[a | e] s1]; simpl in *; [| discriminate].
  intros H. destruct (Hk a s1 b H) as (r & t2 & E2).
  rewrite E2, E1, <- app_assoc.
  destruct t1 as [| r1 t1]; simpl; [now exists r, t2 |].
  exists r1, (t1 ++ r :: t2). reflexivity.
Qed.

Lemma writes_try_except (A : Type) (m : M W A) (h : exn -> M W A) :
  writes m -> grows m -> (forall e, writes (h e)) -> writes (try_except m h).
Proof.
  intros Wm Gm Wh s a. unfold try_except. specialize (Wm s). destruct (Gm s) as (t1 & E1).
  destruct (m s) as [[x | e] s1]; simpl in *.
  - intros _. exact (Wm x eq_refl).
  - intros H. destruct (Wh e s1 a H) as (r & t2 & E2).
    rewrite E2, E1, <- app_assoc.
    destruct t1 as [| r1 t1]; simpl; [now exists r, t2 |].
    exists r1, (t1 ++ r :: t2). reflexivity.
Qed.

Lemma writes_try_except_api (A : Type) (m : M W A) (h : exn -> M W A) :
  writes m -> grows m -> (forall e, writes (h e)) -> writes (try_except_api m h).
Proof.
  intros Wm Gm Wh s a. unfold try_except_api. specialize (Wm s).
  destruct (Gm s) as (t1 & E1).
  destruct (m s) as [[x | e] s1]; simpl in *.
  - intros _. exact (Wm x eq_refl).
  - destruct (is_api_exception e); [| discriminate].
    intros H. destruct (Wh e s1 a H) as (r & t2 & E2).
    rewrite E2, E1, <- app_assoc.
    destruct t1 as [| r1 t1]; simpl; [now exists r, t2 |].
    exists r1, (t1 ++ r :: t2). reflexivity.
Qed.

End LogRules.

Create HintDb heartbeat.

Ltac grows_step :=
  lazymatch goal with
  | |- Behaviour.grows (Monad.ret _) => apply grows_ret
  | |- Behaviour.grows (Monad.lift _) => apply grows_lift
  | |- Behaviour.grows (Monad.log _ _) => apply grows_log
  | |- Behaviour.grows (Monad.sleep _) => apply grows_sleep
  | |- Behaviour.grows (Monad.invoke _ _) => apply grows_invoke
  | |- Behaviour.grows (Monad.bind _ _) => apply grows_bind
  | |- Behaviour.grows (Monad.try_except_api _ _) => apply grows_try_except_api
  | |- Behaviour.grows (Monad.try_except _ _) => apply grows_try_except
  | |- Behaviour.grows (match ?x with _ => _ end) => destruct x
  | |- forall _, _ => intro
  | |- Behaviour.grows _ => solve [auto with heartbeat nocore]
  end.

Ltac grows_rules := repeat (cbv zeta; grows_step).

Ltac writes_step :=
  lazymatch goal with
  | |- Behaviour.writes (Monad.log _ _) => apply writes_log
  | |- Behaviour.writes (Monad.lift (Py.Raise _)) => apply writes_raise
  | |- Behaviour.writes (Monad.bind (Monad.log _ _) _) =>
      apply writes_first; [apply writes_log | intro; grows_rules]
  | |- Behaviour.writes (Monad.bind _ _) =>
      first [ apply writes_first; [solve [auto with heartbeat nocore] | intro; grows_rules]
            | apply writes_then; [grows_rules | intro] ]
  | |- Behaviour.writes (Monad.try_except_api _ _) =>
      apply writes_try_except_api; [| grows_rules | intro]
  | |- Behaviour.writes (Monad.try_except _ _) =>
      apply writes_try_except; [| grows_rules | intro]
  | |- Behaviour.writes (match ?x with _ => _ end) => destruct x
  | |- Behaviour.writes _ => solve [auto with heartbeat nocore]
  end.

Ltac writes_rules := repeat (cbv zeta; writes_step).

Section Heartbeat.
Import Binary64 Py Data Monad Bot Sizing Facts Behaviour.
Local Open Scope string_scope.
Local Open Scope list_scope.

Context {W : Type} {exchange : Exchange W} {libs : PyLibs}.
Variable self : FuturesBot.

Lemma set_leverage_grows : grows (set_leverage self).
Proof. unfold set_leverage. grows_rules. Qed.

Lemma get_klines_grows (limit : Z) : grows (get_klines self limit).
Proof. unfold get_klines. grows_rules. Qed.

Lemma get_available_balance_grows : grows (get_available_balance (W := W)).
Proof. unfold get_available_balance. grows_rules. Qed.

Lemma round_quantity_grows (quantity : float) : grows (round_quantity self quantity).
Proof. unfold round_quantity. grows_rules. Qed.

#[local] Hint Resolve set_leverage_grows get_klines_grows get_available_balance_grows
  round_quantity_grows : heartbeat.

Lemma calculate_order_quantity_grows (entry_price : float) :
  grows (calculate_order_quantity self entry_price).
Proof. unfold calculate_order_quantity. grows_rules. Qed.

#[local] Hint Resolve calculate_order_quantity_grows : heartbeat.

Lemma place_order_grows (sg : signal) (entry_price : float) :
  grows (place_order self sg entry_price).
Proof. unfold place_order. grows_rules. Qed.

Lemma place_trailing_stop_grows (sg : signal) (quantity : float) :
  grows (place_trailing_stop self sg quantity).
Proof. unfold place_trailing_stop. grows_rules. Qed.

#[local] Hint Resolve place_order_grows place_trailing_stop_grows : heartbeat.

Lemma check_and_place_trailing_stop_grows (sg : signal) (quantity : float) :
  grows (check_and_place_trailing_stop self sg quantity).
Proof. unfold check_and_place_trailing_stop. grows_rules. Qed.

Lemma manage_stop_orders_grows (sg : signal) : grows (manage_stop_orders self sg).
Proof. unfold manage_stop_orders. grows_rules. Qed.

Lemma reconnect_grows : grows (reconnect self).
Proof. unfold reconnect. grows_rules. Qed.

#[local] Hint Resolve check_and_place_trailing_stop_grows manage_stop_orders_grows
  reconnect_grows : heartbeat.

Lemma cycle_grows : grows (cycle self).
Proof. unfold cycle. grows_rules. Qed.

#[local] Hint Resolve cycle_grows : heartbeat.

Lemma iteration_grows : grows (iteration self).
Proof. unfold iteration. grows_rules. Qed.

(** [round_quantity] logs a row on each of its paths. *)
Lemma round_quantity_writes (quantity : float) : writes (round_quantity self quantity).
Proof. unfold round_quantity. writes_rules. Qed.

#[local] Hint Resolve round_quantity_writes : heartbeat.

Lemma calculate_order_quantity_writes (entry_price : float) :
  writes (calculate_order_quantity self entry_price).
Proof. unfold calculate_order_quantity. writes_rules. Qed.

#[local] Hint Resolve calculate_order_quantity_writes : heartbeat.

Lemma place_order_writes (sg : signal) (entry_price : float) :
  writes (place_order self sg entry_price).
Proof. unfold place_order. writes_rules. Qed.

#[local] Hint Resolve place_order_writes : heartbeat.

Lemma cycle_writes : writes (cycle self).
Proof.
  intros s fl. remember (cycle self s) as c eqn:Hc.
  unfold cycle in Hc. unfold bind at 1 in Hc.
  unfold get_klines, try_except in Hc. unfold bind at 1 in Hc. unfold invoke at 1 in Hc.
  destruct (futures_klines (symbol self) (interval self) 100 (session s))
    as [[klines | e] w]; cbv beta iota zeta in Hc.
  - unfold ret at 1 in Hc. cbv beta iota in Hc.
    lazymatch type of Hc with
    | _ = ?k ?s1 => assert (K : writes k) by writes_rules; pose proof (K s1 fl) as H
    end.
    subst c. intros F. destruct (H F) as (r & rows & E). exists r, rows.
    rewrite E. reflexivity.
  - subst c. intros _. unfold log, bind, sleep, ret. simpl. eexists _, []. reflexivity.
Qed.

(** X26. Every iteration leaves a trace: whatever happens, it adds at least
    one row to the log and removes none, so a run of [n] iterations adds at
    least [n] rows after the rows the log held. *)
Theorem run_leaves_a_trace (n : nat) (s : state W) :
  exists rows,
    csv (snd (run self n s)) = csv s ++ rows /\ (n <= List.length rows)%nat.
Proof.
  assert (I : forall s0, exists r rows,
               csv (snd (iteration self s0)) = csv s0 ++ r :: rows).
  { intros s0. pose proof (iteration_returns self s0) as R.
    assert (Wi : writes (iteration self)).
    { unfold iteration. apply writes_first.
      - apply writes_try_except; [apply cycle_writes | apply cycle_grows |].
        intros e. writes_rules.
      - intros fl. grows_rules. }
    exact (Wi s0 tt R). }
  revert s. induction n as [| n IH]; intros s.
  - exists []. simpl. rewrite app_nil_r. split; [reflexivity | lia].
  - simpl run. unfold bind.
    destruct (I s) as (r & t1 & E1).
    pose proof (iteration_returns self s) as R.
    destruct (iteration self s) as [x s1]. simpl in R, E1. subst x.
    destruct (IH s1) as (t2 & E2 & L2). exists (r :: t1 ++ t2).
    rewrite E2, E1, <- app_assoc. split; [reflexivity |].
    simpl. rewrite length_app. lia.
Qed.

End Heartbeat.

(** ** Scenarios *)

Section Scenarios.
Import Binary64 Py Data Monad Bot Sizing Facts Desk.
Local Open Scope string_scope.
Local Open Scope list_scope.

Lemma account_quotes (self : FuturesBot) (amount step_size : float) (p : Z) :
  quotes self (start (account amount step_size p)) amount
    (Ok (Some (lot_filters step_size p))).
Proof. exists (Ok (usdt amount)), (account amount step_size p), (account amount step_size p). repeat split. Defined.

Lemma lot_filters_available (step_size : float) (p : Z) :
  has_filters (lot_filters step_size p) step_size p.
Proof. split; reflexivity. Defined.

(** Scenario B: differences -0.5 then +0.3 give LONG. *)
Lemma determine_signal_crossover_witness :
  determine_signal [point (lit 995 10) (lit 100 1); point (lit 1003 10) (lit 100 1)]
  = Some LONG.
Proof.
  destruct (determine_signal_crossover []
              (point (lit 995 10) (lit 100 1)) (point (lit 1003 10) (lit 100 1)))
    as [[_ L] _].
  apply L. split; vm_compute; reflexivity.
Defined.

(** C2: a negative entry price gives a negative quantity, and a zero entry
    price raises instead of giving 0. *)
Lemma sizing_negative_counterexample :
  fst (calculate_order_quantity main_bot (lit (-100) 1)
         (start (account (lit 1000 1) (lit 1 100) 2))) = Ok (lit (-95) 1)
  /\ fltb (lit (-95) 1) zero = true
  /\ fst (calculate_order_quantity main_bot zero
            (start (account (lit 1000 1) (lit 1 100) 2))) = Raise ZeroDivisionError.
Proof. repeat split; vm_compute; reflexivity. Qed.

Lemma sizing_not_negative_witness :
  exists q,
    fst (calculate_order_quantity main_bot (lit 100 1)
           (start (account zero (lit 1 100) 2))) = Ok q
    /\ fltb q zero = false /\ q = zero.
Proof.
  destruct (sizing_not_negative main_bot (start (account zero (lit 1 100) 2)) zero
              (Ok (Some (lot_filters (lit 1 100) 2))) (lit 100 1)
              (account_quotes main_bot zero (lit 1 100) 2))
    as (q & E & N & Z0).
  - vm_compute; reflexivity.
  - vm_compute; reflexivity.
  - split; vm_compute; discriminate.
  - vm_compute; reflexivity.
  - exists q. split; [exact E |]. split; [exact N |]. apply Z0.
    + vm_compute; reflexivity.
    + vm_compute; reflexivity.
    + intros i st [= <-]. vm_compute. intros [= <-]. reflexivity.
Defined.

(** C3: with a negative balance the code rounds away from zero, the
    specification's rule toward zero. *)
Lemma sizing_truncation_counterexample :
  fst (calculate_order_quantity main_bot (lit 100 1)
         (start (account (lit (-100005) 100) (lit 1 100) 2))) = Ok (lit (-9501) 100)
  /\ Spec.computeQuantity (lit 100 1) (lit (-100005) 100) (lit 95 100) 10 (lit 1 100) 2
     = Ok (lit (-95) 1)
  /\ feqb (lit (-9501) 100) (lit (-95) 1) = false.
Proof. repeat split; vm_compute; reflexivity. Qed.

Lemma sizing_rounds_down_witness :
  fst (calculate_order_quantity main_bot (lit 100 1)
         (start (account (lit 1000 1) (lit 1 100) 2))) = Ok (lit 95 1).
Proof.
  destruct (sizing_rounds_down main_bot (start (account (lit 1000 1) (lit 1 100) 2))
              (lit 1000 1) (lot_filters (lit 1 100) 2) (lit 1 100) 2 (lit 100 1)
              (account_quotes main_bot (lit 1000 1) (lit 1 100) 2)
              (lot_filters_available (lit 1 100) 2)) as [_ T].
  apply T; try (vm_compute; reflexivity). vm_compute; discriminate.
Defined.

(** C4: scenario A gives 95, not 950. *)
Lemma scenario_A_counterexample :
  fst (calculate_order_quantity main_bot (lit 100 1)
         (start (account (lit 1000 1) (lit 1 100) 2))) = Ok (lit 95 1)
  /\ feqb (lit 95 1) (lit 950 1) = false.
Proof. split; vm_compute; reflexivity. Qed.

Lemma scenario_A_quantity_witness :
  fst (calculate_order_quantity main_bot (lit 100 1)
         (start (account (lit 1000 1) (lit 1 100) 2))) = Ok (lit 95 1).
Proof.
  apply (scenario_A_quantity main_bot (start (account (lit 1000 1) (lit 1 100) 2))
           (lot_filters (lit 1 100) 2)).
  - reflexivity.
  - reflexivity.
  - apply account_quotes.
  - apply lot_filters_available.
Defined.



End Scenarios.

Section LifecycleScenarios.
Import Binary64 Py Data Monad Bot Sizing Facts Desk.
Local Open Scope string_scope.
Local Open Scope list_scope.

(** A first rejection followed by an acceptance: two submissions, the
    second order returned. *)
Lemma place_trailing_stop_retries_once_witness :
  let d := with_faults (account (lit 1000 1) (lit 1 100) 2) [rejected; None] in
  exists o s',
    place_trailing_stop main_bot LONG (lit 5 1) (start d) = (Ok (Some o), s')
    /\ submissions (journal s')
       = [trailing_request main_bot LONG (lit 5 1) (lit 1 1);
          trailing_request main_bot LONG (lit 5 1) (lit 5 10)]
    /\ working (session s') = [o].
Proof.
  intros d.
  destruct (place_trailing_stop_retries_once main_bot LONG (lit 5 1) (start d)
              (rnd_representable (5 # 1)))
    as (q & s1 & E & _ & _ & _ & Retry & _).
  vm_compute in E. injection E as <- <-.
  edestruct Retry as (s' & P & S).
  - vm_compute. reflexivity.
  - vm_compute. reflexivity.
  - eexists _, s'. split; [exact P |]. split; [exact S |].
    vm_compute in P. injection P as <-. reflexivity.
Defined.

(** Scenario D: the STOP_MARKET order 7 is cancelled, the trailing order 8
    stays, and a second run, the order 7 being gone, only lists the
    orders. *)
Lemma manage_stop_orders_cancels_on_conflict_witness :
  let d := with_working (account (lit 1000 1) (lit 1 100) 2)
             [stop_market_7; trailing_8] in
  let once := snd (manage_stop_orders main_bot LONG (start d)) in
  let again := snd (manage_stop_orders main_bot LONG once) in
  cancellations (journal once) = [7%Z]
  /\ working (session once) = [trailing_8]
  /\ journal again = journal once ++ [CallOpenOrders "ETHUSDT"]
  /\ working (session again) = [trailing_8].
Proof.
  intros d once again.
  assert (A : futures_get_open_orders (symbol main_bot) (session (start d))
              = (Ok [stop_market_7; trailing_8], d)) by reflexivity.
  destruct (manage_stop_orders_cancels_on_conflict main_bot LONG (start d)
              [stop_market_7; trailing_8] d A) as [Both _].
  destruct (Both eq_refl) as (pre & o & post & E & S & _ & _ & _ & C & _ & Gone & _).
  assert (P : pre = [] /\ o = stop_market_7 /\ post = [trailing_8]).
  { destruct pre as [| a [| b pre]]; simpl in E.
    - injection E as <- <-. auto.
    - injection E as _ <- _. vm_compute in S. discriminate S.
    - destruct pre; discriminate E. }
  destruct P as (-> & -> & ->).
  split; [exact C |]. split; [vm_compute; reflexivity |].
  split; [| vm_compute; reflexivity].
  assert (A2 : futures_get_open_orders (symbol main_bot) (session once)
               = (Ok ([] ++ [trailing_8]), session once)) by (vm_compute; reflexivity).
  exact (proj1 (Gone (session once) A2) eq_refl).
Defined.

(** C7: with two STOP_MARKET orders listed beside the trailing order, one
    run cancels order 9 only: the STOP_MARKET order 7 stays on the book
    beside the trailing order; and a second run, nothing else having
    changed, cancels order 7. *)
Lemma manage_stop_orders_second_stop_counterexample :
  let d := with_working (account (lit 1000 1) (lit 1 100) 2)
             [stop_market_7; Outage.stop_market_9; trailing_8] in
  let once := snd (manage_stop_orders main_bot LONG (start d)) in
  let again := snd (manage_stop_orders main_bot LONG once) in
  existsb is_stop_market (working d) && existsb is_trailing (working d) = true
  /\ cancellations (journal once) = [9%Z]
  /\ working (session once) = [stop_market_7; trailing_8]
  /\ cancellations (journal again) = [9%Z; 7%Z]
  /\ working (session again) = [trailing_8].
Proof. repeat split; vm_compute; reflexivity. Qed.

(** Both submissions rejected by the API: no order is working and the
    success row is still the last row of the log. *)
Lemma success_row_follows_every_return_witness :
  let d := with_faults (account (lit 1000 1) (lit 1 100) 2) [rejected; rejected] in
  let s' := snd (check_and_place_trailing_stop main_bot LONG (lit 5 1) (start d)) in
  fst (check_and_place_trailing_stop main_bot LONG (lit 5 1) (start d)) = Ok tt
  /\ working (session s') = []
  /\ map event (csv s')
     = ["Trailing stop check"; "round_quantity"; "Error placing trailing stop";
        "Retrying trailing stop"; "Error placing trailing stop on retry";
        "Trailing stop action"].
Proof.
  intros d.
  assert (A : futures_get_open_orders (symbol main_bot) (session (start d))
              = (Ok [], d)) by reflexivity.
  destruct (success_row_follows_every_return main_bot LONG (lit 5 1) (start d) [] d
              A eq_refl) as (_ & _ & Attempts).
  eassert (R : round_quantity main_bot (lit 5 1)
                 {| session := d;
                    journal := journal (start d) ++ [CallOpenOrders (symbol main_bot)];
                    csv := csv (start d)
                           ++ [ {| event := "Trailing stop check";
                                   details := [Text "No se encontró trailing stop. Colocando uno."] |} ] |}
               = (Ok _, _)) by (vm_compute; reflexivity).
  destruct (Attempts _ _ R) as (Both & _).
  match type of Both with
  | forall e1 w1 e2 w2, _ = (Raise e1, w1) -> _ =>
      rewrite (Both (BinanceAPIException "APIError(code=-2021): Order would immediately trigger.")
                 (with_faults d [rejected])
                 (BinanceAPIException "APIError(code=-2021): Order would immediately trigger.")
                 (with_faults d []))
  end.
  - repeat split; vm_compute; reflexivity.
  - vm_compute; reflexivity.
  - reflexivity.
  - vm_compute; reflexivity.
  - reflexivity.
Defined.

(** C10: no trailing order is listed and the submission fails with a
    read timeout, which is no [BinanceAPIException]: the exception leaves
    [check_and_place_trailing_stop] after the one submission and the log
    holds no "Trailing stop action" row. *)
Lemma success_row_missing_counterexample :
  let d := with_faults (account (lit 1000 1) (lit 1 100) 2) [Some Outage.read_timeout] in
  let r := check_and_place_trailing_stop main_bot LONG (lit 5 1) (start d) in
  futures_get_open_orders (symbol main_bot) d = (Ok [], d)
  /\ fst r = Raise Outage.read_timeout
  /\ map event (csv (snd r)) = ["Trailing stop check"; "round_quantity"]
  /\ submissions (journal (snd r))
     = [trailing_request main_bot LONG (lit 5 1) (lit 1 1)].
Proof. repeat split; vm_compute; reflexivity. Qed.

(** C8: a position of 0.7 at step 0.1 gets a trailing stop of 0.5, while
    its normalized quantity is 0.6. *)
Lemma open_position_sizing_counterexample :
  submissions (journal (snd (cycle main_bot (start (holding (lit 7 10) (lit 1 10) 1)))))
  = [trailing_request main_bot LONG (lit 5 10) (lit 1 1)]
  /\ normalized main_bot (Ok (Some (lot_filters (lit 1 10) 1))) (fabs (lit 7 10))
     = Ok (lit 6 10)
  /\ feqb (lit 5 10) (lit 6 10) = false.
Proof. repeat split; vm_compute; reflexivity. Qed.

(** Scenario C: a short position of 5 without a fresh signal and without a
    trailing order gets a trailing-stop buy of 5. *)
Lemma open_position_cycle_witness :
  let d := holding (lit (-5) 1) (lit 1 100) 2 in
  exists sg q2 extra,
    sg = SHORT
    /\ submissions (journal (snd (cycle main_bot (start d))))
       = trailing_request main_bot sg q2 (lit 1 1) :: extra
    /\ q2 = lit 5 1 /\ exit_side sg = SIDE_BUY.
Proof.
  intros d.
  assert (K : get_klines main_bot 100 (start d)
              = (Ok (Some (klines d)),
                 {| session := d;
                    journal := [CallKlines "ETHUSDT" "5m" 100];
                    csv := [] |})) by reflexivity.
  assert (P : futures_position_information (symbol main_bot) d
              = (Ok (positions d), d)) by reflexivity.
  assert (O : open_positions main_bot (positions d)
              = [ {| p_symbol := "ETHUSDT"; positionAmt := lit (-5) 1 |} ])
    by (vm_compute; reflexivity).
  destruct (open_position_cycle main_bot (start d) _ (klines d) (positions d) d _ []
              K P O (rnd_representable (-5 # 1)))
    as (sg & q1 & s3 & _ & Side & E & Listed).
  assert (Sg : sg = SHORT).
  { apply Side; vm_compute; reflexivity. }
  vm_compute in E. injection E as <- <-.
  edestruct Listed as [_ Missing].
  { vm_compute. reflexivity. }
  destruct (Missing eq_refl) as (q2 & extra & N & S & _).
  vm_compute in N. injection N as <-.
  eexists sg, _, extra. split; [exact Sg |]. split; [exact S |].
  split; [reflexivity | now rewrite Sg].
Defined.

(** C9: with 14 USDT and a last close of 200 the entry and the re-queried
    quantity are 0.6 but the trailing stop is submitted for 0.5; and with a
    last close of 0 nothing is submitted at all. *)
Lemma flat_entry_sizing_counterexample :
  submissions (journal (snd (cycle main_bot
                 (start (watching (lit 14 1) (lit 100 1) (lit 200 1) (lit 1 10) 1)))))
  = [market_request main_bot LONG (lit 6 10);
     trailing_request main_bot LONG (lit 5 10) (lit 1 1)]
  /\ feqb (lit 5 10) (lit 6 10) = false
  /\ determine_signal (calculate_ema main_bot [flat_candle (lit 100 1); flat_candle zero])
     = Some SHORT
  /\ cycle main_bot (start (watching (lit 14 1) (lit 100 1) zero (lit 1 10) 1))
     = (Raise ZeroDivisionError,
        {| session := watching (lit 14 1) (lit 100 1) zero (lit 1 10) 1;
           journal := [CallKlines "ETHUSDT" "5m" 100;
                       CallPositionInformation "ETHUSDT"; CallAccountBalance];
           csv := [] |}).
Proof. repeat split; vm_compute; reflexivity. Qed.

(** Scenario B: flat, LONG signal, entry acknowledged: a market buy, then
    the trailing stop. *)
Lemma flat_entry_cycle_witness :
  let d := watching (lit 1000 1) (lit 100 1) (lit 200 1) (lit 1 100) 2 in
  exists q q3 extra,
    submissions (journal (snd (iteration main_bot (start d))))
    = market_request main_bot LONG q :: trailing_request main_bot LONG q3 (lit 1 1) :: extra
    /\ working (session (snd (iteration main_bot (start d))))
       = [ {| o_type := "TRAILING_STOP_MARKET"; orderId := 2; o_side := SIDE_SELL |} ].
Proof.
  intros d.
  destruct (calculate_order_quantity main_bot (lit 200 1)
              {| session := d;
                 journal := [CallKlines "ETHUSDT" "5m" 100]
                            ++ [CallPositionInformation (symbol main_bot)];
                 csv := [] |}) as [r s3] eqn:Q.
  pose proof Q as Q'. vm_compute in Q'. injection Q' as Er Es. subst r.
  assert (K : get_klines main_bot 100 (start d)
              = (Ok (Some (klines d)),
                 {| session := d;
                    journal := [CallKlines "ETHUSDT" "5m" 100];
                    csv := [] |})) by reflexivity.
  assert (P : futures_position_information (symbol main_bot) d = (Ok [], d))
    by reflexivity.
  assert (O : open_positions main_bot [] = []) by reflexivity.
  assert (S0 : determine_signal (calculate_ema main_bot (klines d)) = Some LONG)
    by (vm_compute; reflexivity).
  assert (L : calculate_ema main_bot (klines d)
              = [Build_row (flat_candle (lit 100 1)) (lit 100 1) (lit 100 1)]
                ++ [Build_row (flat_candle (lit 200 1))
                      (Finite (922517073060839 # 8796093022208)) (lit 102 1)])
    by (vm_compute; reflexivity).
  destruct (flat_entry_cycle main_bot (start d) _ (klines d) [] d LONG _ _ _ s3
              K P O S0 L Q) as [Ack _].
  edestruct Ack as (q2 & s5 & q3 & extra & _ & _ & S & _).
    + rewrite <- Es. vm_compute. reflexivity.
    + eexists _, q3, extra. split; [exact S |]. vm_compute. reflexivity.
Defined.

End LifecycleScenarios.

(** ** More scenarios *)

Section MoreScenarios.
Import Binary64 Py Data Monad Bot Sizing Facts Behaviour Startup Desk Outage.
Local Open Scope string_scope.
Local Open Scope list_scope.

Lemma lit_number (n : Z) (d : positive) :
  is_finite (lit n d) = true -> number (lit n d).
Proof. intros F. split; [exact F | apply rnd_representable]. Defined.

(** Fast average 99.5 then 100.3 against a slow average of 100: LONG, read
    off the averages themselves. *)
Lemma determine_signal_compares_averages_witness :
  determine_signal [point (lit 995 10) (lit 100 1); point (lit 1003 10) (lit 100 1)]
  = Some LONG.
Proof.
  destruct (determine_signal_compares_averages []
              (point (lit 995 10) (lit 100 1)) (point (lit 1003 10) (lit 100 1))
              (lit_number 995 10 eq_refl) (lit_number 100 1 eq_refl)
              (lit_number 1003 10 eq_refl) (lit_number 100 1 eq_refl))
    as [[_ L] _].
  apply L. split; vm_compute; reflexivity.
Defined.

(** LONG on the second row, and not again on the third although the fast
    average is still above. *)
Lemma determine_signal_no_repeat_witness :
  determine_signal (firstn 2 crossing) = Some LONG /\
  determine_signal crossing <> Some LONG.
Proof.
  assert (A : determine_signal
                ([] ++ [point (lit 995 10) (lit 100 1); point (lit 1003 10) (lit 100 1)])
              = Some LONG) by (vm_compute; reflexivity).
  split; [exact A |].
  exact (determine_signal_no_repeat [] _ _ (point (lit 1010 10) (lit 100 1)) LONG A).
Defined.

(** 0.7 is rounded without an exception. *)
Lemma round_quantity_never_raises_witness :
  exists v, fst (round_quantity main_bot (lit 7 10)
                   (start (account (lit 1000 1) (lit 1 10) 1))) = Ok v.
Proof.
  destruct (round_quantity_never_raises main_bot (lit 7 10)
              (start (account (lit 1000 1) (lit 1 10) 1)) (rnd_representable (7 # 10)))
    as (v & r & E & _).
  exists v. now rewrite E.
Defined.

(** A symbol the exchange does not list: 0.12345 becomes round(0.12345, 3). *)
Lemma round_quantity_falls_back_witness :
  fst (round_quantity main_bot (lit 12345 100000) (start (unlisted (lit 1000 1))))
  = Ok (lit 123 1000).
Proof.
  assert (A : get_symbol_info (symbol main_bot) (session (start (unlisted (lit 1000 1))))
              = (Ok None, unlisted (lit 1000 1))) by reflexivity.
  destruct (round_quantity_falls_back main_bot (lit 12345 100000)
              (start (unlisted (lit 1000 1))) (Ok None) (unlisted (lit 1000 1))
              (symbol_unknown _) A) as [e E].
  rewrite E. vm_compute. reflexivity.
Defined.

(** 0.0999 at a step of 0.1 is sized to 0.0. *)
Lemma quantity_below_step_is_zero_witness :
  fst (round_quantity main_bot (lit 999 10000)
         (start (account (lit 1000 1) (lit 1 10) 1))) = Ok zero.
Proof.
  assert (A : get_symbol_info (symbol main_bot)
                (session (start (account (lit 1000 1) (lit 1 10) 1)))
              = (Ok (Some (lot_filters (lit 1 10) 1)), account (lit 1000 1) (lit 1 10) 1))
    by reflexivity.
  apply (quantity_below_step_is_zero main_bot (lit 999 10000) (lit 1 10) 1
           (start (account (lit 1000 1) (lit 1 10) 1))
           (lot_filters (lit 1 10) 1) (account (lit 1000 1) (lit 1 10) 1) A).
  - apply lot_filters_available.
  - apply lit_number. reflexivity.
  - apply lit_number. reflexivity.
  - vm_compute. reflexivity.
  - vm_compute. reflexivity.
Defined.

(** Two fixed stops, 7 and 9, and the trailing stop 8: order 9, listed
    last, is the one cancelled. *)
Lemma manage_stop_orders_cancels_last_listed_witness :
  cancellations
    (journal (snd (manage_stop_orders main_bot LONG
                     (start (with_working (account (lit 1000 1) (lit 1 100) 2)
                               [stop_market_7; stop_market_9; trailing_8])))))
  = [9%Z].
Proof.
  apply (manage_stop_orders_cancels_last_listed main_bot LONG
           (start (with_working (account (lit 1000 1) (lit 1 100) 2)
                     [stop_market_7; stop_market_9; trailing_8]))
           [stop_market_7] [trailing_8] stop_market_9
           (with_working (account (lit 1000 1) (lit 1 100) 2)
              [stop_market_7; stop_market_9; trailing_8])).
  - reflexivity.
  - reflexivity.
  - intros x [<- | []]. reflexivity.
  - reflexivity.
Defined.

(** An entry price of 0: the exception, and no submission. *)
Lemma place_order_at_price_zero_witness :
  fst (place_order main_bot LONG zero (start (account (lit 1000 1) (lit 1 100) 2)))
  = Raise ZeroDivisionError /\
  journal (snd (place_order main_bot LONG zero
                  (start (account (lit 1000 1) (lit 1 100) 2))))
  = [CallAccountBalance].
Proof.
  apply (place_order_at_price_zero main_bot LONG zero
           (start (account (lit 1000 1) (lit 1 100) 2))).
  - reflexivity.
  - split; vm_compute; discriminate.
Defined.

(** The balance request times out: the entry is submitted for 0.0. *)
Lemma place_order_submits_zero_quantity_witness :
  let l := {| behind := account (lit 1000 1) (lit 1 100) 2;
              client_fails := None; leverage_fails := None; candles_fail := None;
              positions_fail := None; balance_fails := Some read_timeout |} in
  submissions (journal (snd (place_order main_bot LONG (lit 100 1) (open_line l))))
  = [market_request main_bot LONG zero].
Proof.
  intros l.
  apply (place_order_submits_zero_quantity main_bot LONG (lit 100 1) (open_line l)
           zero (Ok (Some (lot_filters (lit 1 100) 2)))).
  - exists (Raise read_timeout), l, l. repeat split.
  - reflexivity.
  - reflexivity.
  - split; vm_compute; discriminate.
  - vm_compute. reflexivity.
  - intros i st [= <-]. vm_compute. intros [= <-]. reflexivity.
Defined.

(** The first submission times out: no retry, the exception leaves. *)
Lemma trailing_stop_retries_api_errors_only_witness :
  let d := with_faults (account (lit 1000 1) (lit 1 100) 2) [Some read_timeout] in
  fst (place_trailing_stop main_bot LONG (lit 5 1) (start d)) = Raise read_timeout /\
  List.length (submissions (journal (snd (place_trailing_stop main_bot LONG (lit 5 1)
                                            (start d))))) = 1%nat.
Proof.
  intros d.
  assert (R : round_quantity main_bot (lit 5 1) (start d)
              = (Ok (lit 5 1),
                 {| session := d; journal := [CallSymbolInfo "ETHUSDT"];
                    csv := csv (snd (round_quantity main_bot (lit 5 1) (start d))) |}))
    by (vm_compute; reflexivity).
  assert (A : futures_create_order (trailing_request main_bot LONG (lit 5 1) (lit 1 1)) d
              = (Raise read_timeout, with_faults (account (lit 1000 1) (lit 1 100) 2) []))
    by reflexivity.
  assert (X : is_api_exception read_timeout = false) by reflexivity.
  rewrite (trailing_stop_retries_api_errors_only main_bot LONG (lit 5 1) (lit 5 1)
             (start d) _ read_timeout (with_faults (account (lit 1000 1) (lit 1 100) 2) [])
             R A X).
  split; reflexivity.
Defined.

(** 0.7 at a step of 0.1: the stop is for 0.6, not negative. *)
Lemma round_quantity_not_negative_witness :
  exists v,
    fst (round_quantity main_bot (lit 7 10)
           (start (account (lit 1000 1) (lit 1 10) 1))) = Ok v /\
    fltb v zero = false.
Proof.
  assert (N : fltb (lit 7 10) zero = false) by (vm_compute; reflexivity).
  exact (proj1 (round_quantity_not_negative main_bot LONG (lit 7 10)
                  (start (account (lit 1000 1) (lit 1 10) 1))
                  (rnd_representable (7 # 10)) N)).
Defined.

(** The request for candles times out: one row, one pause, no reconnection. *)
Lemma klines_failure_skips_reconnect_witness :
  let l := {| behind := account (lit 1000 1) (lit 1 100) 2;
              client_fails := None; leverage_fails := None;
              candles_fail := Some read_timeout;
              positions_fail := None; balance_fails := None |} in
  journal (snd (iteration main_bot (open_line l)))
  = [CallKlines "ETHUSDT" "5m" 100; Sleep 60] /\
  map event (csv (snd (iteration main_bot (open_line l)))) = ["Error fetching klines"].
Proof.
  intros l.
  assert (A : futures_klines (symbol main_bot) (interval main_bot) 100
                (session (open_line l)) = (Raise read_timeout, l)) by reflexivity.
  rewrite (klines_failure_skips_reconnect main_bot (open_line l) read_timeout l A).
  split; reflexivity.
Defined.

(** The request for positions times out: reconnection and two pauses. *)
Lemma position_failure_reconnects_witness :
  let l := {| behind := watching (lit 1000 1) (lit 100 1) (lit 101 1) (lit 1 100) 2;
              client_fails := None; leverage_fails := None; candles_fail := None;
              positions_fail := Some read_timeout; balance_fails := None |} in
  journal (snd (iteration main_bot (open_line l)))
  = [CallKlines "ETHUSDT" "5m" 100; CallPositionInformation "ETHUSDT";
     CallClient "TU_API" "TU_API_KEY"; CallChangeLeverage "ETHUSDT" 10;
     Sleep 60; Sleep 60] /\
  submissions (journal (snd (iteration main_bot (open_line l)))) = [].
Proof.
  intros l.
  set (s1 := {| session := l; journal := [CallKlines "ETHUSDT" "5m" 100]; csv := [] |}).
  assert (K : get_klines main_bot 100 (open_line l)
              = (Ok (Some [flat_candle (lit 100 1); flat_candle (lit 101 1)]), s1))
    by reflexivity.
  assert (P : futures_position_information (symbol main_bot) (session s1)
              = (Raise read_timeout, l)) by reflexivity.
  destruct (position_failure_reconnects main_bot (open_line l) s1
              [flat_candle (lit 100 1); flat_candle (lit 101 1)] read_timeout l K P)
    as (E & S & _).
  split; [| exact S]. rewrite E. reflexivity.
Defined.

(** A last close of zero: the sizing raises [ZeroDivisionError] inside the
    [try] block; the handler logs it, reconnects and the iteration ends
    after two pauses. *)
Lemma loop_handles_every_exception_witness :
  let d := watching (lit 14 1) (lit 100 1) zero (lit 1 10) 1 in
  fst (cycle main_bot (start d)) = Raise ZeroDivisionError /\
  fst (iteration main_bot (start d)) = Ok tt /\
  map event (csv (snd (iteration main_bot (start d))))
  = ["Error in main loop"; "Attempting reconnection"; "Leverage set";
     "Reconnection successful"] /\
  sleeps (journal (snd (iteration main_bot (start d)))) = [60%Z; 60%Z].
Proof.
  intros d.
  eassert (C : cycle main_bot (start d) = (Raise ZeroDivisionError, _))
    by (vm_compute; reflexivity).
  destruct (loop_handles_every_exception main_bot (start d)) as (H & _).
  destruct (H _ _ C) as (_ & E). rewrite E, C.
  repeat split; vm_compute; reflexivity.
Defined.

(** No candle came back and no position is open: two requests, "No
    signal", one pause. *)
Lemma flat_without_signal_is_quiet_witness :
  journal (snd (iteration main_bot (start (account (lit 1000 1) (lit 1 100) 2))))
  = [CallKlines "ETHUSDT" "5m" 100; CallPositionInformation "ETHUSDT"; Sleep 60] /\
  map event (csv (snd (iteration main_bot (start (account (lit 1000 1) (lit 1 100) 2)))))
  = ["No signal"].
Proof.
  set (d := account (lit 1000 1) (lit 1 100) 2).
  set (s1 := {| session := d; journal := [CallKlines "ETHUSDT" "5m" 100]; csv := [] |}).
  assert (K : get_klines main_bot 100 (start d) = (Ok (Some []), s1)) by reflexivity.
  assert (P : futures_position_information (symbol main_bot) (session s1) = (Ok [], d))
    by reflexivity.
  assert (O : open_positions main_bot [] = []) by reflexivity.
  rewrite (flat_without_signal_is_quiet main_bot (start d) s1 [] [] d K P O
             (or_introl (Nat.lt_0_succ 1))).
  split; reflexivity.
Defined.

(** A position of 0.7 is open: whatever is submitted is a trailing stop. *)
Lemma open_position_blocks_entry_witness :
  exists tail,
    journal (snd (iteration main_bot (start (holding (lit 7 10) (lit 1 10) 1)))) = tail /\
    Forall (protective_order main_bot) (submissions tail).
Proof.
  set (d := holding (lit 7 10) (lit 1 10) 1).
  set (s1 := {| session := d; journal := [CallKlines "ETHUSDT" "5m" 100]; csv := [] |}).
  set (pos := {| p_symbol := "ETHUSDT"; positionAmt := lit 7 10 |}).
  assert (K : get_klines main_bot 100 (start d)
              = (Ok (Some [flat_candle (lit 100 1); flat_candle (lit 100 1)]), s1))
    by reflexivity.
  assert (P : futures_position_information (symbol main_bot) (session s1) = (Ok [pos], d))
    by reflexivity.
  assert (O : open_positions main_bot [pos] = [pos]) by (vm_compute; reflexivity).
  destruct (open_position_blocks_entry main_bot (start d) s1
              [flat_candle (lit 100 1); flat_candle (lit 100 1)] [pos] d pos [] K P O)
    as (tail & E & F).
  exists tail. split; [exact E | exact F].
Defined.

End MoreScenarios.
